(** * build_epub.py: a shallow embedding and its verified properties

    The script scans [OEBPS/Text] for chapter files, scrapes a title and an
    outline level from each, renders [toc.xhtml] and [content.opf], runs an
    optional formatter and zips the tree into an EPUB container.

    Python [str] values are sequences of Unicode code points, so a string is
    modelled as a [list N]; literals are written with [py "..."]. *)

From Stdlib Require Import NArith String Ascii.
From stdpp Require Import base list gmap sorting.

Local Open Scope N_scope.
Local Open Scope list_scope.

(** ** Strings *)

Abbreviation pystr := (list N).

Definition py (s : string) : pystr :=
  (fun a => N_of_ascii a) <$> list_ascii_of_string s.

Definition hyphen : N := 45.
Definition ext : pystr := Eval cbv in py ".xhtml".
Definition chapter_prefix : pystr := Eval cbv in py "ch".

(** [s.startswith(p)] *)
Fixpoint startswith (p s : pystr) : bool :=
  match p, s with
  | [], _ => true
  | _ :: _, [] => false
  | a :: p', b :: s' => (a =? b) && startswith p' s'
  end.

(** [s.endswith(p)] *)
Definition endswith (p s : pystr) : bool :=
  startswith (reverse p) (reverse s).

(** [s[:-n]] for a positive [n]: everything but the last [n] code points
    (empty when the string is shorter). *)
Definition drop_last (n : nat) (s : pystr) : pystr :=
  take (length s - n)%nat s.

(** The first occurrence of the separator [c] cuts [s] in two. *)
Fixpoint partition_at (c : N) (s : pystr) : option (pystr * pystr) :=
  match s with
  | [] => None
  | x :: t =>
      if x =? c then Some ([], t)
      else match partition_at c t with
           | Some (a, b) => Some (x :: a, b)
           | None => None
           end
  end.

(** [s.split(c, 1)] for a one-character separator. *)
Definition split_once (c : N) (s : pystr) : list pystr :=
  match partition_at c s with
  | Some (a, b) => [a; b]
  | None => [s]
  end.

(** Code-point lexicographic order, the order of [sorted] on [str]. *)
Fixpoint str_leb (a b : pystr) : bool :=
  match a, b with
  | [], _ => true
  | _ :: _, [] => false
  | x :: a', y :: b' => (x <? y) || ((x =? y) && str_leb a' b')
  end.

Definition str_le (a b : pystr) : Prop := str_leb a b = true.

#[global] Instance str_le_dec a b : Decision (str_le a b).
Proof. unfold str_le. apply _. Defined.

(** [sorted(names)]: for a total antisymmetric order the sorted arrangement
    of a list is unique (see [sorted_unique]), so any sorting algorithm
    models it. *)
Definition sorted (names : list pystr) : list pystr := merge_sort str_le names.

(** ** Chapter records *)

Record chapter := Chapter {
  ch_filename : pystr;
  ch_id : pystr;
  ch_title : pystr;
  ch_level : N
}.

(** Lines 70-72 of [discover_chapters]. *)
Definition chapter_id (filename : pystr) : pystr :=
  let stem := drop_last 6 filename in
  let parts := split_once hyphen stem in
  match parts with
  | _ :: p1 :: _ => p1
  | _ => stem
  end.

(** [chapter_item_id]: [filename.split("-", 1)[0]]. *)
Definition chapter_item_id (filename : pystr) : pystr :=
  match split_once hyphen filename with
  | p0 :: _ => p0
  | [] => []
  end.

(** ** Scraping the title and the level

    The regular expressions are embedded as the matchers they denote:
    [re.search] tries every start position from the left, a lazy quantifier
    tries the shortest repetition first and a greedy one the longest. *)

Definition title_open : pystr := Eval cbv in py "<title>".
Definition title_close : pystr := Eval cbv in py "</title>".

(** [(.*?)</title>] under [re.DOTALL]: the shortest run of arbitrary code
    points that is followed by the closing tag; the run is the group. *)
Fixpoint lazy_until (close s : pystr) {struct s} : option pystr :=
  if startswith close s then Some []
  else match s with
       | [] => None
       | c :: t => cons c <$> lazy_until close t
       end.

(** [<title>(.*?)</title>] anchored at the head of [s]. *)
Definition match_title_at (s : pystr) : option pystr :=
  if startswith title_open s then lazy_until title_close (drop 7 s) else None.

(** [re.search(r"<title>(.*?)</title>", content, re.DOTALL)], group 1. *)
Fixpoint search_title (s : pystr) : option pystr :=
  match match_title_at s with
  | Some g => Some g
  | None => match s with
            | [] => None
            | _ :: t => search_title t
            end
  end.

(** [str.isspace] on one code point (the Unicode white-space set). *)
Definition isspace (c : N) : bool :=
  ((9 <=? c) && (c <=? 13)) || ((28 <=? c) && (c <=? 32)) ||
  (c =? 133) || (c =? 160) || (c =? 5760) ||
  ((8192 <=? c) && (c <=? 8202)) || (c =? 8232) || (c =? 8233) ||
  (c =? 8239) || (c =? 8287) || (c =? 12288).

Fixpoint lstrip (s : pystr) : pystr :=
  match s with
  | c :: t => if isspace c then lstrip t else s
  | [] => []
  end.

Definition rstrip (s : pystr) : pystr := reverse (lstrip (reverse s)).

(** [s.strip()] *)
Definition strip (s : pystr) : pystr := rstrip (lstrip s).

(** The length of the longest prefix of [s] whose code points satisfy [p]. *)
Fixpoint run_len (p : N → bool) (s : pystr) : nat :=
  match s with
  | c :: t => if p c then S (run_len p t) else O
  | [] => O
  end.

Definition lt_sign : N := 60.
Definition gt_sign : N := 62.
Definition quote : N := 34.

(** [<[^>]+>] anchored at the head of [s]: the length of the match. *)
Definition tag_at (s : pystr) : option nat :=
  match s with
  | c :: t =>
      if c =? lt_sign then
        let n := run_len (fun x => negb (x =? gt_sign)) t in
        match n, drop n t with
        | S _, g :: _ => if g =? gt_sign then Some (S (S n)) else None
        | _, _ => None
        end
      else None
  | [] => None
  end.

(** [re.sub] of the pattern [<[^>]+>] by the empty string: the matches are
    found from the left and do not overlap; [skip] counts the code points of
    the current match that are still to be dropped. *)
Fixpoint sub_tags_from (skip : nat) (s : pystr) : pystr :=
  match s with
  | [] => []
  | c :: t =>
      match skip with
      | S k => sub_tags_from k t
      | O => match tag_at s with
             | Some n => sub_tags_from (n - 1) t
             | None => c :: sub_tags_from 0 t
             end
      end
  end.

Definition sub_tags (s : pystr) : pystr := sub_tags_from 0 s.

(** [s.replace(old, new)] for a non-empty [old]. *)
Fixpoint replace_from (old new : pystr) (skip : nat) (s : pystr) : pystr :=
  match s with
  | [] => []
  | c :: t =>
      match skip with
      | S k => replace_from old new k t
      | O => if startswith old s
             then new ++ replace_from old new (length old - 1) t
             else c :: replace_from old new 0 t
      end
  end.

Definition str_replace (old new s : pystr) : pystr := replace_from old new 0 s.

Definition ent_rsquo : pystr := Eval cbv in py "&rsquo;".
Definition ent_lsquo : pystr := Eval cbv in py "&lsquo;".
Definition ent_rdquo : pystr := Eval cbv in py "&rdquo;".
Definition ent_ldquo : pystr := Eval cbv in py "&ldquo;".
Definition ent_amp : pystr := Eval cbv in py "&amp;".

(** Lines 81-87: the chain of five [replace] calls. *)
Definition decode_entities (s : pystr) : pystr :=
  str_replace ent_amp [38]
    (str_replace ent_ldquo [8220]
       (str_replace ent_rdquo [8221]
          (str_replace ent_lsquo [8216]
             (str_replace ent_rsquo [8217] s)))).

(** Lines 78-87 of [discover_chapters]. *)
Definition extract_title (content chapter_id : pystr) : pystr :=
  let title := match search_title content with
               | Some g => strip g
               | None => chapter_id
               end in
  let title := sub_tags title in
  decode_entities title.

Definition section_open : pystr := Eval cbv in py "<section".
Definition type_attr : pystr := Eval cbv in py "epub:type=" ++ [quote].
Definition part_type : pystr := Eval cbv in py "part".
Definition chapter_type : pystr := Eval cbv in py "chapter".

Definition ascii_word (c : N) : bool :=
  ((48 <=? c) && (c <=? 57)) || ((65 <=? c) && (c <=? 90)) ||
  ((97 <=? c) && (c <=? 122)) || (c =? 95).

Section Scraping.

(** [\w] on code points above ASCII is Python's table of alphanumeric
    characters, which the script does not contain: it is a parameter. *)
Variable unicode_alnum : N → bool.

Definition is_word (c : N) : bool :=
  if c <? 128 then ascii_word c else unicode_alnum c.

(** [\b] between the code point [prev] and the head of [s]. *)
Definition word_boundary (prev : N) (s : pystr) : bool :=
  xorb (is_word prev) (match s with c :: _ => is_word c | [] => false end).

(** The pattern's tail, [\bepub:type=] and a quoted non-empty group without
    quotes, anchored at the head of [s]; the group is the
    longest run without a quote, and a quote has to follow it. *)
Definition match_type_attr (prev : N) (s : pystr) : option pystr :=
  if word_boundary prev s && startswith type_attr s then
    let rest := drop (length type_attr) s in
    let n := run_len (fun x => negb (x =? quote)) rest in
    match n, drop n rest with
    | S _, g :: _ => if g =? quote then Some (take n rest) else None
    | _, _ => None
    end
  else None.

(** [[^>]*] followed by the attribute: the greedy repetition first takes one
    more code point and falls back to the current position when the rest
    does not match. *)
Fixpoint match_attrs (prev : N) (s : pystr) : option pystr :=
  match s with
  | c :: t =>
      if negb (c =? gt_sign) then
        match match_attrs c t with
        | Some g => Some g
        | None => match_type_attr prev s
        end
      else match_type_attr prev s
  | [] => match_type_attr prev s
  end.

(** The whole pattern anchored at the head of [s]; 110 is the [n] that ends
    [<section]. *)
Definition match_section_at (s : pystr) : option pystr :=
  if startswith section_open s then match_attrs 110 (drop 8 s) else None.

(** [re.search] of the section pattern in [content], group 1. *)
Fixpoint search_section_type (s : pystr) : option pystr :=
  match match_section_at s with
  | Some g => Some g
  | None => match s with
            | [] => None
            | _ :: t => search_section_type t
            end
  end.

(** Lines 90-94 of [discover_chapters]. *)
Definition extract_level (content : pystr) : N :=
  let epub_type := match search_section_type content with
                   | Some g => g
                   | None => chapter_type
                   end in
  if decide (epub_type = part_type) then 2 else 3.

End Scraping.

(** ** Exceptions

    A computation that can raise returns a [result]; [x ← m; k] runs [k] on
    the value of [m] and passes an exception on. *)

Inductive exn :=
| FileNotFoundError
| NotADirectoryError
| IsADirectoryError
| PermissionError
| UnicodeDecodeError
| UnicodeEncodeError
| CalledProcessError
| KeyError.

Inductive result (A : Type) :=
| Ok (a : A)
| Raise (e : exn).
Arguments Ok {A} a.
Arguments Raise {A} e.

#[global] Instance result_ret : MRet result := fun A a => Ok a.
#[global] Instance result_fmap : FMap result := fun A B f m =>
  match m with
  | Ok a => Ok (f a)
  | Raise e => Raise e
  end.
#[global] Instance result_bind : MBind result := fun A B f m =>
  match m with
  | Ok a => f a
  | Raise e => Raise e
  end.

(** ** The file system

    A tree of directories and files, rooted at the root of the file system;
    a path is the list of its components. A file holds text, bytes that are
    not text, or a zip archive, and the process may read it or not and write
    it or not; it may list a directory or not. Every directory can be
    searched, and names can be created and removed in every directory. *)

Inductive compression := ZIP_STORED | ZIP_DEFLATED.

Record zip_entry_of (C : Type) := ZipEntry {
  arcname : pystr;
  compress_type : compression;
  (** [None] for the entry of a directory *)
  entry_data : option C
}.
Arguments ZipEntry {C} arcname compress_type entry_data.
Arguments arcname {C} z.
Arguments compress_type {C} z.
Arguments entry_data {C} z.

#[warnings="-register-all"] Inductive content :=
| Text (s : pystr)
| Binary (b : list N)
| Archive (entries : list (zip_entry_of content)).

Abbreviation zip_entry := (zip_entry_of content).

#[warnings="-register-all"] Inductive node :=
| File (readable writable : bool) (data : content)
| Dir (listable : bool) (children : list (pystr * node)).

Abbreviation path := (list pystr).

Definition is_dir (n : node) : bool :=
  match n with Dir _ _ => true | File _ _ _ => false end.

Fixpoint lookup_child (name : pystr) (children : list (pystr * node)) : option node :=
  match children with
  | [] => None
  | (k, n) :: rest => if decide (k = name) then Some n else lookup_child name rest
  end.

Fixpoint set_child (name : pystr) (n : node) (children : list (pystr * node))
  : list (pystr * node) :=
  match children with
  | [] => [(name, n)]
  | (k, m) :: rest =>
      if decide (k = name) then (k, n) :: rest else (k, m) :: set_child name n rest
  end.

Fixpoint remove_child (name : pystr) (children : list (pystr * node))
  : list (pystr * node) :=
  match children with
  | [] => []
  | (k, m) :: rest =>
      if decide (k = name) then rest else (k, m) :: remove_child name rest
  end.

Fixpoint fs_lookup (p : path) (t : node) : option node :=
  match p with
  | [] => Some t
  | name :: rest =>
      match t with
      | Dir _ children =>
          match lookup_child name children with
          | Some sub => fs_lookup rest sub
          | None => None
          end
      | File _ _ _ => None
      end
  end.

(** [os.path.exists] *)
Definition fs_exists (p : path) (t : node) : bool :=
  match fs_lookup p t with Some _ => true | None => false end.

(** [os.listdir] *)
Definition listdir (p : path) (t : node) : result (list pystr) :=
  match fs_lookup p t with
  | Some (Dir true children) => Ok (children.*1)
  | Some (Dir false _) => Raise PermissionError
  | Some (File _ _ _) => Raise NotADirectoryError
  | None => Raise FileNotFoundError
  end.

(** What a file opened for reading as text hands over for the stored text:
    a carriage return with the line feed after it, and a carriage return
    alone, are read as one line feed. *)
Fixpoint universal_newlines (s : pystr) : pystr :=
  match s with
  | [] => []
  | c :: t =>
      if c =? 13 then
        10 :: match t with
              | d :: t' => if d =? 10 then universal_newlines t' else universal_newlines t
              | [] => []
              end
      else c :: universal_newlines t
  end.

(** [open(p, "r", encoding="utf-8").read()] *)
Definition read_text (p : path) (t : node) : result pystr :=
  match fs_lookup p t with
  | Some (File true _ (Text s)) => Ok (universal_newlines s)
  | Some (File true _ _) => Raise UnicodeDecodeError
  | Some (File false _ _) => Raise PermissionError
  | Some (Dir _ _) => Raise IsADirectoryError
  | None => Raise FileNotFoundError
  end.

(** Opening [p] for writing (which empties or creates the file) and storing
    [data]: the parent directory has to exist, [p] must not be a directory,
    and a file that is there has to be writable. A file that is created can
    be read and written. *)
Fixpoint fs_write (p : path) (data : content) (t : node) : result node :=
  match p, t with
  | [], _ => Raise IsADirectoryError
  | _ :: _, File _ _ _ => Raise NotADirectoryError
  | [name], Dir l children =>
      match lookup_child name children with
      | Some (Dir _ _) => Raise IsADirectoryError
      | Some (File r true _) => Ok (Dir l (set_child name (File r true data) children))
      | Some (File _ false _) => Raise PermissionError
      | None => Ok (Dir l (set_child name (File true true data) children))
      end
  | name :: rest, Dir l children =>
      match lookup_child name children with
      | Some sub =>
          sub' ← fs_write rest data sub;
          Ok (Dir l (set_child name sub' children))
      | None => Raise FileNotFoundError
      end
  end.

(** [os.remove]: the rights on the file itself do not matter. *)
Fixpoint fs_remove (p : path) (t : node) : result node :=
  match p, t with
  | [], _ => Raise IsADirectoryError
  | _ :: _, File _ _ _ => Raise NotADirectoryError
  | [name], Dir l children =>
      match lookup_child name children with
      | Some (Dir _ _) => Raise IsADirectoryError
      | Some (File _ _ _) => Ok (Dir l (remove_child name children))
      | None => Raise FileNotFoundError
      end
  | name :: rest, Dir l children =>
      match lookup_child name children with
      | Some sub =>
          sub' ← fs_remove rest sub;
          Ok (Dir l (set_child name sub' children))
      | None => Raise FileNotFoundError
      end
  end.

(** [sep.join(parts)] *)
Fixpoint join (sep : pystr) (parts : list pystr) : pystr :=
  match parts with
  | [] => []
  | [x] => x
  | x :: rest => x ++ sep ++ join sep rest
  end.

Definition newline : pystr := [10].
Definition slash : pystr := [47].

Fixpoint common_prefix_len (a b : path) : nat :=
  match a, b with
  | x :: a', y :: b' => if decide (x = y) then S (common_prefix_len a' b') else O
  | _, _ => O
  end.

(** [os.path.relpath(p, start)] on two absolute paths. *)
Definition relpath (p start : path) : pystr :=
  let i := common_prefix_len start p in
  let rel := replicate (length start - i) [46; 46] ++ drop i p in
  match rel with
  | [] => [46]
  | _ => join slash rel
  end.

(** [os.walk(top)]: the directories below [top], each with the names of its
    files, a directory before its subdirectories; only the subdirectories
    that [keep] accepts are entered (the loop prunes [dirnames] in place).
    A directory that cannot be listed is passed over without an error
    ([onerror] is not given), and so is a [top] that is no directory. *)
Fixpoint walk (keep : pystr → bool) (dirpath : path) (t : node)
  : list (path * list pystr) :=
  match t with
  | File _ _ _ => []
  | Dir false _ => []
  | Dir true children =>
      (dirpath, (filter (fun c => is_dir c.2 = false) children).*1) ::
      (fix subdirs (cs : list (pystr * node)) : list (path * list pystr) :=
         match cs with
         | [] => []
         | (d, sub) :: cs' =>
             (if is_dir sub && keep d then walk keep (dirpath ++ [d]) sub else [])
             ++ subdirs cs'
         end) children
  end.

(** ** Configuration *)

Definition BOOK_TITLE : pystr :=
  Eval cbv in py "Living Enlightenment, Unabridged, 7th Edition".
Definition BOOK_AUTHOR : pystr :=
  Eval cbv in
    py "KAILASA" ++ [8217] ++
    py "s SPH JGM HDH Bhagavan Sri Nithyananda Paramashivam".
Definition BOOK_LANGUAGE : pystr := Eval cbv in py "en".
Definition BOOK_UUID : pystr :=
  Eval cbv in py "b1a4e7c2-3f8d-4a2e-9c1b-5d6e7f8a9b0c".

Definition MAJOR_SECTIONS : list (pystr * list pystr) :=
  Eval cbv in
  [ (py "I. YOU ARE YOUR EMOTIONS",
     [ py "flow-in-love";
       py "there-is-nothing-to-worry";
       py "excel-without-stress";
       py "face-your-fears-and-be-free" ]) ].

(** ** Chapter discovery *)

Definition qualifies (f : pystr) : bool :=
  startswith chapter_prefix f && endswith ext f.

Section Discovery.

Variable unicode_alnum : N → bool.

(** The absolute path of the directory of the script. *)
Variable SCRIPT_DIR : path.

Definition OUTPUT_EPUB : path :=
  SCRIPT_DIR ++ [py "Living Enlightenment - Unabridged - 7th Edition.epub"].
Definition OEBPS_DIR : path := SCRIPT_DIR ++ [py "OEBPS"].
Definition TEXT_DIR : path := OEBPS_DIR ++ [py "Text"].

(** The body of the loop of [discover_chapters] for one filename. *)
Definition scan_file (t : node) (filename : pystr) : result chapter :=
  let chapter_id := chapter_id filename in
  content ← read_text (TEXT_DIR ++ [filename]) t;
  Ok {| ch_filename := filename;
        ch_id := chapter_id;
        ch_title := extract_title content chapter_id;
        ch_level := extract_level unicode_alnum content |}.

Fixpoint scan_files (t : node) (filenames : list pystr) : result (list chapter) :=
  match filenames with
  | [] => Ok []
  | filename :: rest =>
      ch ← scan_file t filename;
      chapters ← scan_files t rest;
      Ok (ch :: chapters)
  end.

Definition discover_chapters (t : node) : result (list chapter) :=
  names ← listdir TEXT_DIR t;
  scan_files t (sorted (filter (fun f => qualifies f = true) names)).

End Discovery.

(** ** Rendering helpers

    The templates of the script contain double quotes and no apostrophe;
    [pyq] writes them with an apostrophe for each double quote. *)

Definition pyq (s : string) : pystr :=
  (fun c => if c =? 39 then quote else c) <$> py s.

(** ** content.opf *)

Record manifest_item := ManifestItem {
  item_id : pystr;
  item_href : pystr;
  item_media_type : pystr;
  item_properties : option pystr
}.

Definition xhtml_type : pystr := Eval cbv in py "application/xhtml+xml".

Definition render_item (it : manifest_item) : pystr :=
  pyq "    <item id='" ++ item_id it ++ pyq "' href='" ++ item_href it ++
  pyq "' media-type='" ++ item_media_type it ++ pyq "'" ++
  match item_properties it with
  | Some p => pyq " properties='" ++ p ++ pyq "'"
  | None => []
  end ++ py " />".

Definition render_itemref (idref : pystr) : pystr :=
  pyq "    <itemref idref='" ++ idref ++ pyq "' />".

Definition static_manifest : list manifest_item :=
  Eval cbv in
  [ ManifestItem (py "cover-image") (py "Images/cover.jpg") (py "image/jpeg")
      (Some (py "cover-image"));
    ManifestItem (py "style") (py "Styles/style.css") (py "text/css") None;
    ManifestItem (py "nav") (py "toc.xhtml") xhtml_type (Some (py "nav"));
    ManifestItem (py "cover") (py "Text/cover.xhtml") xhtml_type None;
    ManifestItem (py "title-page") (py "Text/title-page.xhtml") xhtml_type None ].

Definition static_spine : list pystr :=
  Eval cbv in [ py "cover"; py "title-page"; py "nav" ].

Definition text_href (filename : pystr) : pystr := py "Text/" ++ filename.

(** The manifest entry the loop appends for one chapter. *)
Definition chapter_item (ch : chapter) : manifest_item :=
  let item_id := chapter_item_id (ch_filename ch) in
  let fname := ch_filename ch in
  ManifestItem item_id (text_href fname) xhtml_type None.

(** [manifest_items] after the loop of [build_content_opf]. *)
Definition manifest_items (chapters : list chapter) : list manifest_item :=
  static_manifest ++ (chapter_item <$> chapters).

(** [spine_items] after the loop of [build_content_opf]. *)
Definition spine_items (chapters : list chapter) : list pystr :=
  static_spine ++ ((fun ch => chapter_item_id (ch_filename ch)) <$> chapters).

(** [build_content_opf]; [now] is the formatted UTC time of the call. *)
Definition build_content_opf (now : pystr) (chapters : list chapter) : pystr :=
  join newline
    [ pyq "<?xml version='1.0' encoding='utf-8'?>";
      pyq "<package xmlns='http://www.idpf.org/2007/opf' unique-identifier='BookId' version='3.0'>";
      pyq "  <metadata xmlns:dc='http://purl.org/dc/elements/1.1/'>";
      pyq "    <dc:identifier id='BookId'>urn:uuid:" ++ BOOK_UUID ++ py "</dc:identifier>";
      py "    <dc:title>" ++ BOOK_TITLE ++ py "</dc:title>";
      py "    <dc:creator>" ++ BOOK_AUTHOR ++ py "</dc:creator>";
      py "    <dc:language>" ++ BOOK_LANGUAGE ++ py "</dc:language>";
      pyq "    <meta property='dcterms:modified'>" ++ now ++ py "</meta>";
      py "  </metadata>";
      py "  <manifest>";
      join newline (render_item <$> manifest_items chapters);
      py "  </manifest>";
      py "  <spine>";
      join newline (render_itemref <$> spine_items chapters);
      py "  </spine>";
      py "</package>";
      [] ].

(** ** toc.xhtml *)

Record entry := Entry { e_title : pystr; e_href : pystr }.

Record part := Part {
  p_title : pystr;
  p_href : pystr;
  p_children : list entry
}.

(** A Python [dict] with string keys: the keys keep the order of their first
    insertion, and assigning to a key that is present replaces its value in
    place. *)
Fixpoint dict_get {V} (k : pystr) (d : list (pystr * V)) : option V :=
  match d with
  | [] => None
  | (k', v) :: rest => if decide (k' = k) then Some v else dict_get k rest
  end.

Fixpoint dict_set {V} (k : pystr) (v : V) (d : list (pystr * V)) : list (pystr * V) :=
  match d with
  | [] => [(k, v)]
  | (k', v') :: rest =>
      if decide (k' = k) then (k', v) :: rest else (k', v') :: dict_set k v rest
  end.

Record toc_state := TocState {
  front_items : list entry;
  parts_by_id : list (pystr * part);
  current_part_id : option pystr
}.

(** The body of the first loop of [build_toc_xhtml]. Appending to the
    children of the current part changes the object stored in the dict. *)
Definition toc_step (st : toc_state) (ch : chapter) : result toc_state :=
  let href := text_href (ch_filename ch) in
  let entry := Entry (ch_title ch) href in
  if ch_level ch =? 2 then
    Ok (TocState (front_items st)
          (dict_set (ch_id ch) (Part (ch_title ch) href []) (parts_by_id st))
          (Some (ch_id ch)))
  else
    match current_part_id st with
    | Some pid =>
        match dict_get pid (parts_by_id st) with
        | Some p =>
            Ok (TocState (front_items st)
                  (dict_set pid (Part (p_title p) (p_href p) (p_children p ++ [entry]))
                     (parts_by_id st))
                  (Some pid))
        | None => Raise KeyError
        end
    | None =>
        Ok (TocState (front_items st ++ [entry]) (parts_by_id st) None)
    end.

Fixpoint toc_scan (st : toc_state) (chapters : list chapter) : result toc_state :=
  match chapters with
  | [] => Ok st
  | ch :: rest => st' ← toc_step st ch; toc_scan st' rest
  end.

(** The lines of the body of the navigation element. *)
Inductive toc_line :=
| OlFrontOpen
| LiFront (e : entry)
| OlClose
| H2Section (title : pystr)
| OlPartsOpen
| LiPartOpen
| PartLink (href title : pystr)
| OlChaptersOpen
| LiChapter (e : entry)
| OlChaptersClose
| LiPartClose.

Definition render_line (l : toc_line) : pystr :=
  match l with
  | OlFrontOpen => pyq "    <ol class='toc-front-matter'>"
  | LiFront e =>
      pyq "      <li class='toc-front'><a href='" ++ e_href e ++ pyq "'>" ++
      e_title e ++ py "</a></li>"
  | OlClose => py "    </ol>"
  | H2Section title =>
      pyq "    <h2 class='toc-section'>" ++ title ++ py "</h2>"
  | OlPartsOpen => pyq "    <ol class='toc-parts'>"
  | LiPartOpen => pyq "      <li class='toc-part'>"
  | PartLink href title =>
      pyq "        <a href='" ++ href ++ pyq "'>" ++ title ++ py "</a>"
  | OlChaptersOpen => pyq "        <ol class='toc-chapters'>"
  | LiChapter e =>
      pyq "          <li><a href='" ++ e_href e ++ pyq "'>" ++ e_title e ++
      py "</a></li>"
  | OlChaptersClose => py "        </ol>"
  | LiPartClose => py "      </li>"
  end.

(** The lines both loops append for one part. *)
Definition part_lines (p : part) : list toc_line :=
  [LiPartOpen; PartLink (p_href p) (p_title p)] ++
  match p_children p with
  | [] => []
  | _ :: _ => [OlChaptersOpen] ++ (LiChapter <$> p_children p) ++ [OlChaptersClose]
  end ++
  [LiPartClose].

(** The loop over the part ids of one major section; [used] is
    [part_ids_used]. *)
Fixpoint section_parts (parts : list (pystr * part)) (part_ids : list pystr)
    (used : gset pystr) (lines : list toc_line) : gset pystr * list toc_line :=
  match part_ids with
  | [] => (used, lines)
  | pid :: rest =>
      match dict_get pid parts with
      | None => section_parts parts rest used lines
      | Some p => section_parts parts rest ({[pid]} ∪ used) (lines ++ part_lines p)
      end
  end.

(** The loop over the major sections. *)
Fixpoint major_sections (parts : list (pystr * part))
    (sections : list (pystr * list pystr))
    (used : gset pystr) (lines : list toc_line) : gset pystr * list toc_line :=
  match sections with
  | [] => (used, lines)
  | (section_title, part_ids) :: rest =>
      let '(used', lines') :=
        section_parts parts part_ids used
          (lines ++ [H2Section section_title; OlPartsOpen]) in
      major_sections parts rest used' (lines' ++ [OlClose])
  end.

Definition orphan_parts (parts : list (pystr * part)) (used : gset pystr)
  : list (pystr * part) :=
  filter (fun kv => kv.1 ∉ used) parts.

(** The list [lines] at the end of [build_toc_xhtml], for the major sections
    [sections]. *)
Definition toc_lines (sections : list (pystr * list pystr)) (chapters : list chapter)
  : result (list toc_line) :=
  st ← toc_scan (TocState [] [] None) chapters;
  let lines := [OlFrontOpen] ++ (LiFront <$> front_items st) ++ [OlClose] in
  let '(used, lines) := major_sections (parts_by_id st) sections ∅ lines in
  let orphans := orphan_parts (parts_by_id st) used in
  Ok (lines ++
      match orphans with
      | [] => []
      | _ :: _ => [OlPartsOpen] ++ concat (part_lines <$> orphans.*2) ++ [OlClose]
      end).

Definition toc_document (lines : list toc_line) : pystr :=
  join newline
    [ pyq "<?xml version='1.0' encoding='utf-8'?>";
      py "<!DOCTYPE html>";
      pyq "<html xmlns='http://www.w3.org/1999/xhtml' xmlns:epub='http://www.idpf.org/2007/ops' lang='en' xml:lang='en'>";
      py "<head>";
      pyq "  <meta charset='utf-8' />";
      py "  <title>Table of Contents</title>";
      pyq "  <link href='Styles/style.css' rel='stylesheet' type='text/css' />";
      py "</head>";
      py "<body>";
      pyq "  <nav epub:type='toc' id='toc'>";
      pyq "    <h1 class='toc-title'>Contents</h1>";
      join newline (render_line <$> lines);
      py "  </nav>";
      py "</body>";
      py "</html>";
      [] ].

Definition build_toc_xhtml_for (sections : list (pystr * list pystr))
    (chapters : list chapter) : result pystr :=
  lines ← toc_lines sections chapters;
  Ok (toc_document lines).

(** [build_toc_xhtml] *)
Definition build_toc_xhtml (chapters : list chapter) : result pystr :=
  build_toc_xhtml_for MAJOR_SECTIONS chapters.

(** ** The build

    The script runs in a world made of the file system and the lines printed
    so far. A command takes a world and returns a value or an exception,
    together with the world it leaves behind. *)

Inductive msg :=
| MsgSource
| MsgDiscovering
| MsgFound (n : nat)
| MsgChapter (i : nat) (level : N) (filename : pystr)
| MsgWroteToc
| MsgWroteOpf
| MsgFormatting
| MsgFormatted (n : nat)
| MsgPrettierSkipped
| MsgPackaging
| MsgDone
| MsgSize (bytes : N)
| MsgChapters (n : nat).

Record world := World { tree : node; stdout : list msg }.

Definition M (A : Type) : Type := world → result A * world.

#[global] Instance M_ret : MRet M := fun A a w => (Ok a, w).
#[global] Instance M_bind : MBind M := fun A B f m w =>
  match m w with
  | (Ok a, w') => f a w'
  | (Raise e, w') => (Raise e, w')
  end.

(** [print(...)]: the standard output is taken to accept every line. *)
Definition print (m : msg) : M unit :=
  fun w => (Ok tt, World (tree w) (stdout w ++ [m])).

(** A command that only reads the file system. *)
Definition reading {A} (f : node → result A) : M A :=
  fun w => (f (tree w), w).

(** A command that changes the file system, or raises and leaves it. *)
Definition updating (f : node → result node) : M unit :=
  fun w =>
    match f (tree w) with
    | Ok t => (Ok tt, World t (stdout w))
    | Raise e => (Raise e, w)
    end.

(** A value computed without the world. *)
Definition computed {A} (r : result A) : M A := fun w => (r, w).

(** [try: m except <the exceptions catches accepts>: handler] *)
Definition try_except {A} (m : M A) (catches : exn → bool) (handler : M A) : M A :=
  fun w =>
    match m w with
    | (Raise e, w') => if catches e then handler w' else (Raise e, w')
    | r => r
    end.

(** How a child process ended: it could not be started, or it ran and
    exited with a status; [decodes] says whether what it wrote to its
    standard output and error streams is text in the encoding of the
    locale. *)
Inductive proc_outcome :=
| Exited (status : N) (decodes : bool)
| NotStarted (e : exn).

(** A string that can be written in UTF-8: it holds no surrogate code
    point. The name of a file whose bytes are not UTF-8 holds some. *)
Definition is_surrogate (c : N) : bool := (55296 <=? c) && (c <=? 57343).

Definition encodable (s : pystr) : bool := forallb (fun c => negb (is_surrogate c)) s.

(** [f.write(s)] on a file opened with [encoding="utf-8"] at [p], on a
    system whose line separator is the line feed: the text is stored as it
    is. *)
Definition write_text (p : path) (s : pystr) (t : node) : result node :=
  if encodable s then fs_write p (Text s) t else Raise UnicodeEncodeError.

Definition keep_dir (d : pystr) : bool :=
  negb (startswith [46] d) && negb (bool_decide (d = py "__pycache__")).

Definition skipped_file (filename : pystr) : bool :=
  endswith (py ".py") filename || endswith (py ".epub") filename ||
  endswith (py ".DS_Store") filename.

Definition mimetype : pystr := Eval cbv in py "mimetype".

(** [epub.write(full_path, arcname, compress_type)] on the entries written
    so far: the file is looked up and opened for reading, and the header of
    the entry is written with the name in UTF-8; [zipfile] records a
    directory as an entry of its own. The times of the files are taken to
    lie in the years a zip entry can hold. *)
Definition zip_write (t : node) (full_path : path) (arc : pystr)
    (ct : compression) (entries : list zip_entry) : result (list zip_entry) :=
  match fs_lookup full_path t with
  | Some (File true _ data) =>
      if encodable arc then Ok (entries ++ [ZipEntry arc ct (Some data)])
      else Raise UnicodeEncodeError
  | Some (File false _ _) => Raise PermissionError
  | Some (Dir _ _) =>
      if encodable (arc ++ slash)
      then Ok (entries ++ [ZipEntry (arc ++ slash) ZIP_STORED None])
      else Raise UnicodeEncodeError
  | None => Raise FileNotFoundError
  end.

Section Build.

Variable unicode_alnum : N → bool.
Variable SCRIPT_DIR : path.

(** The formatted UTC time [build_content_opf] reads from the clock. *)
Variable now : pystr.

(** [npx prettier --write ...] on the given files: how the process ends and
    the file system it leaves. *)
Variable prettier : list path → node → proc_outcome * node.

(** The size [os.path.getsize] reports for a node. *)
Variable file_size : node → N.

Abbreviation OUTPUT_EPUB' := (OUTPUT_EPUB SCRIPT_DIR).
Abbreviation OEBPS_DIR' := (OEBPS_DIR SCRIPT_DIR).
Abbreviation TEXT_DIR' := (TEXT_DIR SCRIPT_DIR).

(** [subprocess.run(cmd + files, capture_output=True, text=True, check=True)]:
    the captured output is decoded when the process has ended, before its
    status is looked at. *)
Definition run_prettier (files : list path) : M unit :=
  fun w =>
    let '(outcome, t) := prettier files (tree w) in
    let w' := World t (stdout w) in
    match outcome with
    | NotStarted e => (Raise e, w')
    | Exited _ false => (Raise UnicodeDecodeError, w')
    | Exited 0 true => (Ok tt, w')
    | Exited _ true => (Raise CalledProcessError, w')
    end.

(** The inner loop of the packaging step over the sorted file names of one
    directory; the entries written before an exception stay written. *)
Fixpoint add_files (t : node) (dirpath : path) (filenames : list pystr)
    (entries : list zip_entry) : result unit * list zip_entry :=
  match filenames with
  | [] => (Ok tt, entries)
  | filename :: rest =>
      let full_path := dirpath ++ [filename] in
      let arc := relpath full_path SCRIPT_DIR in
      if decide (arc = mimetype) then add_files t dirpath rest entries
      else if skipped_file filename then add_files t dirpath rest entries
      else match zip_write t full_path arc ZIP_DEFLATED entries with
           | Ok entries' => add_files t dirpath rest entries'
           | Raise e => (Raise e, entries)
           end
  end.

(** The outer loop over what [os.walk] yields. *)
Fixpoint add_dirs (t : node) (dirs : list (path * list pystr))
    (entries : list zip_entry) : result unit * list zip_entry :=
  match dirs with
  | [] => (Ok tt, entries)
  | (dirpath, filenames) :: rest =>
      match add_files t dirpath (sorted filenames) entries with
      | (Ok _, entries') => add_dirs t rest entries'
      | r => r
      end
  end.

(** [os.walk(SCRIPT_DIR)] with the pruning of the loop. *)
Definition walk_script_dir (t : node) : list (path * list pystr) :=
  match fs_lookup SCRIPT_DIR t with
  | Some n => walk keep_dir SCRIPT_DIR n
  | None => []
  end.

(** The body of the [with zipfile.ZipFile(...)] block. *)
Definition zip_body (t : node) : result unit * list zip_entry :=
  match zip_write t (SCRIPT_DIR ++ [mimetype]) mimetype ZIP_STORED [] with
  | Ok entries => add_dirs t (walk_script_dir t) entries
  | Raise e => (Raise e, [])
  end.

(** [if os.path.exists(OUTPUT_EPUB): os.remove(OUTPUT_EPUB)] *)
Definition remove_old_archive : M unit :=
  fun w => if fs_exists OUTPUT_EPUB' (tree w)
           then updating (fs_remove OUTPUT_EPUB') w
           else (Ok tt, w).

(** The [with] block: the body runs on the file system that holds the empty
    archive, and the archive is closed with the entries written when the
    block is left, also by an exception. *)
Definition fill_archive : M unit :=
  fun w =>
    let '(r, entries) := zip_body (tree w) in
    match updating (fs_write OUTPUT_EPUB' (Archive entries)) w with
    | (Ok _, w') => (r, w')
    | (Raise e, w') => (Raise e, w')
    end.

(** Step 4 of [build_epub]. *)
Definition package_epub : M unit :=
  print MsgPackaging;;
  remove_old_archive;;
  updating (fs_write OUTPUT_EPUB' (Archive []));;
  fill_archive.

Fixpoint print_chapters (i : nat) (chapters : list chapter) : M unit :=
  match chapters with
  | [] => mret tt
  | ch :: rest =>
      print (MsgChapter i (ch_level ch) (ch_filename ch));;
      print_chapters (S i) rest
  end.

Definition catches_prettier (e : exn) : bool :=
  match e with
  | CalledProcessError | FileNotFoundError => true
  | _ => false
  end.

Definition getsize (p : path) : M N :=
  reading (fun t => match fs_lookup p t with
                    | Some n => Ok (file_size n)
                    | None => Raise FileNotFoundError
                    end).

Definition toc_path : path := OEBPS_DIR' ++ [py "toc.xhtml"].
Definition opf_path : path := OEBPS_DIR' ++ [py "content.opf"].

(** The start of [build_epub], down to the list of the chapters. *)
Definition discover_step : M (list chapter) :=
  print MsgSource;;
  print MsgDiscovering;;
  chapters ← reading (discover_chapters unicode_alnum SCRIPT_DIR);
  print (MsgFound (length chapters));;
  print_chapters 0 chapters;;
  mret chapters.

(** Step 1. A file opened for writing is emptied before the text written to
    it is computed and encoded. *)
Definition write_toc_step (chapters : list chapter) : M unit :=
  updating (fs_write toc_path (Text []));;
  toc ← computed (build_toc_xhtml chapters);
  updating (write_text toc_path toc);;
  print MsgWroteToc.

(** Step 2. *)
Definition write_opf_step (chapters : list chapter) : M unit :=
  updating (fs_write opf_path (Text []));;
  updating (write_text opf_path (build_content_opf now chapters));;
  print MsgWroteOpf.

Definition generated_files (chapters : list chapter) : list path :=
  toc_path :: ((fun ch => TEXT_DIR' ++ [ch_filename ch]) <$> chapters).

(** Step 3. *)
Definition format_step (chapters : list chapter) : M unit :=
  print MsgFormatting;;
  try_except
    (run_prettier (generated_files chapters);;
     print (MsgFormatted (length (generated_files chapters))))
    catches_prettier
    (print MsgPrettierSkipped).

(** The lines printed after step 4. *)
Definition report_step (chapters : list chapter) : M unit :=
  file_size ← getsize OUTPUT_EPUB';
  print MsgDone;;
  print (MsgSize file_size);;
  print (MsgChapters (length chapters)).

(** [build_epub] *)
Definition build_epub : M unit :=
  chapters ← discover_step;
  write_toc_step chapters;;
  write_opf_step chapters;;
  format_step chapters;;
  package_epub;;
  report_step chapters.

End Build.

(** ** A small book

    The working tree of the end-to-end scenario of the specification: a
    preface, one part and one chapter below it, next to the static files. *)

Definition q (s : pystr) : pystr := [quote] ++ s ++ [quote].

Definition preface_xhtml : pystr :=
  Eval cbv in
  py "<html><head><title>Preface</title></head><body><section epub:type=" ++
  q (py "preface") ++ py "><h1>Preface</h1></section></body></html>".

Definition part_xhtml : pystr :=
  Eval cbv in
  py "<html><head><title>Flow in <i>Love</i></title></head><body><section epub:type=" ++
  q (py "part") ++ py "><h1>Flow in Love</h1></section></body></html>".

Definition chapter_xhtml : pystr :=
  Eval cbv in
  py "<html><head><title>Chapter&amp;One</title></head><body><section class=" ++
  q (py "c") ++ py " epub:type=" ++ q (py "chapter") ++
  py "><h1>One</h1></section></body></html>".

Definition book_dir : path := Eval cbv in [py "home"; py "book"].

Definition text_files : list (pystr * node) :=
  Eval cbv in
  [ (py "cover.xhtml", File true true (Text (py "<html/>")));
    (py "ch002-chapter-one.xhtml", File true true (Text chapter_xhtml));
    (py "ch000-preface.xhtml", File true true (Text preface_xhtml));
    (py "title-page.xhtml", File true true (Text (py "<html/>")));
    (py "ch001-flow-in-love.xhtml", File true true (Text part_xhtml)) ].

Definition book_files : list (pystr * node) :=
  Eval cbv in
  [ (py "build_epub.py", File true true (Text (py "#!/usr/bin/env python3")));
    (py ".git", Dir true [ (py "HEAD", File true true (Text (py "ref"))) ]);
    (py "mimetype", File true true (Text (py "application/epub+zip")));
    (py "META-INF", Dir true [ (py "container.xml", File true true (Text (py "<container/>"))) ]);
    (py "OEBPS",
     Dir true [ (py "Text", Dir true text_files);
           (py "Styles", Dir true [ (py "style.css", File true true (Text (py "body {}"))) ]);
           (py "Images", Dir true [ (py "cover.jpg", File true true (Binary [255; 216])) ]) ]) ].

Definition book_tree : node := Dir true [ (py "home", Dir true [ (py "book", Dir true book_files) ]) ].

Definition book_world : world := World book_tree [].

(** A formatter that is not installed, one that fails, one that fails after
    writing bytes that are not text, and one that works (all leave the files
    as they are). *)
Definition prettier_absent (files : list path) (t : node) : proc_outcome * node :=
  (NotStarted FileNotFoundError, t).
Definition prettier_failing (files : list path) (t : node) : proc_outcome * node :=
  (Exited 2 true, t).
Definition prettier_garbled (files : list path) (t : node) : proc_outcome * node :=
  (Exited 2 false, t).
Definition prettier_fine (files : list path) (t : node) : proc_outcome * node :=
  (Exited 0 true, t).

Definition no_unicode_alnum (c : N) : bool := false.
Definition stamp : pystr := Eval cbv in py "2026-01-01T00:00:00Z".
Definition size_zero (n : node) : N := 0.

(** The file of the title example of the specification. *)
Definition flow_title_file : pystr :=
  Eval cbv in py "<title>Flow&rsquo;s <b>End</b></title>".

(** Two section tags whose [epub:type] attribute is [part]: one written with
    apostrophes, one that carries a second attribute whose name ends in
    [epub:type]. *)
Definition apostrophe_section : pystr :=
  Eval cbv in py "<section epub:type='part'>".

Definition two_attr_section : pystr :=
  Eval cbv in
  py "<section epub:type=" ++ q (py "part") ++ py " data-epub:type=" ++
  q (py "chapter") ++ py ">".

(** A chapter directory in which two parts have the same slug, and the
    records the scan gives for it. *)
Definition twin_files : list (pystr * node) :=
  Eval cbv in
  [ (py "ch001-flow.xhtml", File true true (Text part_xhtml));
    (py "ch002-chapter-one.xhtml", File true true (Text chapter_xhtml));
    (py "ch003-flow.xhtml", File true true (Text part_xhtml)) ].

Definition twin_tree : node :=
  Dir true [ (py "home", Dir true [ (py "book", Dir true [ (py "OEBPS", Dir true [ (py "Text", Dir true twin_files) ]) ]) ]) ].

Definition twin_chapters : list chapter :=
  Eval cbv in
  [ Chapter (py "ch001-flow.xhtml") (py "flow") (py "Flow in Love") 2;
    Chapter (py "ch002-chapter-one.xhtml") (py "chapter-one") (py "Chapter&One") 3;
    Chapter (py "ch003-flow.xhtml") (py "flow") (py "Flow in Love") 2 ].

(** A configuration that names one part twice. *)
Definition twice_sections : list (pystr * list pystr) :=
  Eval cbv in [ (py "I", [ py "flow"; py "flow" ]) ].

Definition book_chapters : list chapter :=
  Eval cbv in
  [ Chapter (py "ch000-preface.xhtml") (py "preface") (py "Preface") 3;
    Chapter (py "ch001-flow-in-love.xhtml") (py "flow-in-love") (py "Flow in Love") 2;
    Chapter (py "ch002-chapter-one.xhtml") (py "chapter-one") (py "Chapter&One") 3 ].

(** A chapter directory with a chapter file that cannot be read. *)
Definition locked_tree : node :=
  Eval cbv in
  Dir true [ (py "home",
         Dir true [ (py "book",
                Dir true [ (py "OEBPS",
                       Dir true [ (py "Text",
                              Dir true [ (py "ch000-preface.xhtml",
                                     File false false (Text preface_xhtml)) ]) ]) ]) ]) ].

(** ** What the specification says, for comparison *)

(** The first non-greedy match of the title pattern in [content] with group
    [g]: [pre] ends before the first opening tag and [g] ends before the
    first closing tag after it. *)
Definition first_title_match (content g : pystr) : Prop :=
  ∃ pre post,
    content = pre ++ title_open ++ g ++ title_close ++ post ∧
    (∀ a b, content = a ++ title_open ++ b → (length pre ≤ length a)%nat) ∧
    (∀ a b, g ++ title_close ++ post = a ++ title_close ++ b →
            (length g ≤ length a)%nat).

(** The title in the words of the specification: tags stripped from the
    matched span, entities decoded, the result trimmed; the id when there is
    no title element. *)
Definition spec_title (content chapter_id : pystr) : pystr :=
  match search_title content with
  | Some g => strip (decode_entities (sub_tags g))
  | None => chapter_id
  end.

(** The tag at the head of [s] opens a section that carries the attribute
    [epub:type] with value [v], written between double quotes or between
    apostrophes. *)
Definition tag_carries_type (s v : pystr) : Prop :=
  ∃ attrs qc rest,
    s = section_open ++ attrs ++ [32] ++ py "epub:type=" ++ [qc] ++ v ++ [qc] ++ rest ∧
    (gt_sign ∉ attrs) ∧ (qc = 34 ∨ qc = 39) ∧ (qc ∉ v).

Definition last_cp (prev : N) (run : pystr) : N := default prev (last run).

Section LevelSpec.

Variable unicode_alnum : N → bool.

(** The attribute starts at the head of [s], after the code point [prev]
    that is not a word character, and its quoted value is [v]. *)
Definition type_attr_at (prev : N) (s v : pystr) : Prop :=
  is_word unicode_alnum prev = false ∧ v ≠ [] ∧ (quote ∉ v) ∧
  ∃ rest, s = type_attr ++ v ++ [quote] ++ rest.

(** After [prev], [s] is a run without [>] followed by the attribute with
    value [v], and no longer run of [s] is followed by the attribute. *)
Definition attrs_match (prev : N) (s v : pystr) : Prop :=
  ∃ run tail,
    s = run ++ tail ∧ (gt_sign ∉ run) ∧ type_attr_at (last_cp prev run) tail v ∧
    ∀ run' tail' v',
      s = run' ++ tail' → gt_sign ∉ run' →
      type_attr_at (last_cp prev run') tail' v' → (length run' ≤ length run)%nat.

(** The section pattern matches at the head of [s] with group [v]. *)
Definition section_match (s v : pystr) : Prop :=
  ∃ rest, s = section_open ++ rest ∧ attrs_match 110 rest v.

(** The leftmost match of the section pattern in [content] has group [v]. *)
Definition first_section_match (content v : pystr) : Prop :=
  ∃ pre s,
    content = pre ++ s ∧ section_match s v ∧
    ∀ pre' s' v', content = pre' ++ s' → section_match s' v' →
                  (length pre ≤ length pre')%nat.

End LevelSpec.

(** ** The outline of a chapter list, in the words of the specification *)

Definition is_part (ch : chapter) : bool := ch_level ch =? 2.

(** The link of a record: its title, pointing at [Text/<filename>]. *)
Definition entry_of (ch : chapter) : entry :=
  Entry (ch_title ch) (text_href (ch_filename ch)).

(** The records before the first level-2 record. *)
Fixpoint front_matter (chapters : list chapter) : list chapter :=
  match chapters with
  | [] => []
  | ch :: rest => if is_part ch then [] else ch :: front_matter rest
  end.

(** The part nodes: every level-2 record with the records that follow it up
    to the next level-2 record. *)
Fixpoint part_nodes (chapters : list chapter) : list (chapter * list chapter) :=
  match chapters with
  | [] => []
  | ch :: rest =>
      if is_part ch then (ch, front_matter rest) :: part_nodes rest
      else part_nodes rest
  end.

(** The links of the navigation document, by kind. *)
Inductive toc_link :=
| FrontMatterLink (e : entry)
| PartLinkOf (e : entry)
| ChildLinkOf (e : entry).

Definition link_entry (k : toc_link) : entry :=
  match k with
  | FrontMatterLink e | PartLinkOf e | ChildLinkOf e => e
  end.

Definition link_of_line (l : toc_line) : option toc_link :=
  match l with
  | LiFront e => Some (FrontMatterLink e)
  | PartLink href title => Some (PartLinkOf (Entry title href))
  | LiChapter e => Some (ChildLinkOf e)
  | _ => None
  end.

(** The links of the lines of a document, in the order of the lines. *)
Definition toc_links (lines : list toc_line) : list toc_link :=
  omap link_of_line lines.

(** A part link followed by its child links. *)
Definition group_links (g : entry * list entry) : list toc_link :=
  PartLinkOf g.1 :: (ChildLinkOf <$> g.2).

Definition node_group (n : chapter * list chapter) : entry * list entry :=
  (entry_of n.1, entry_of <$> n.2).

(** The dict the scan builds from the part nodes of a chapter list. *)
Definition node_part (n : chapter * list chapter) : pystr * part :=
  (ch_id n.1,
   Part (ch_title n.1) (text_href (ch_filename n.1)) (entry_of <$> n.2)).

(** The link of a part of the dict and the links of its children. *)
Definition part_group (p : part) : entry * list entry :=
  (Entry (p_title p) (p_href p), p_children p).

(** The parts a list of configured ids selects. *)
Definition selected (parts : list (pystr * part)) (pids : list pystr) : list part :=
  omap (fun pid => dict_get pid parts) pids.

(** ** Reading a document

    What a reader of the text of a document finds: an element starts with
    the text [opener] and is followed by its fields; each field is the run
    of code points up to the first code point of the text that closes it,
    and that text has to follow. The elements are found from the left and do
    not overlap. *)

Fixpoint fields_at (closers : list pystr) (s : pystr) : option (list pystr * nat) :=
  match closers with
  | [] => Some ([], O)
  | [] :: _ => None
  | (d :: c) :: closers' =>
      let n := run_len (fun x => negb (x =? d)) s in
      let r := drop n s in
      if startswith (d :: c) r then
        match fields_at closers' (drop (S (length c)) r) with
        | Some (vs, m) => Some (take n s :: vs, (n + S (length c) + m)%nat)
        | None => None
        end
      else None
  end.

(** The fields of the element that starts at the head of [s], and the
    number of code points of the element. *)
Definition element_at (opener : pystr) (closers : list pystr) (s : pystr)
  : option (list pystr * nat) :=
  if startswith opener s then
    match fields_at closers (drop (length opener) s) with
    | Some (vs, m) => Some (vs, (length opener + m)%nat)
    | None => None
    end
  else None.

Fixpoint elements_from (opener : pystr) (closers : list pystr) (skip : nat) (s : pystr)
  : list (list pystr) :=
  match s with
  | [] => []
  | _ :: t =>
      match skip with
      | S k => elements_from opener closers k t
      | O => match element_at opener closers s with
             | Some (vs, n) => vs :: elements_from opener closers (n - 1) t
             | None => elements_from opener closers 0 t
             end
      end
  end.

Definition elements (opener : pystr) (closers : list pystr) (s : pystr)
  : list (list pystr) :=
  elements_from opener closers 0 s.

(** The items of the manifest of a package document, each with its id and
    its href, and the idrefs of its spine. *)
Definition item_open : pystr := Eval cbv in pyq "<item id='".
Definition href_between : pystr := Eval cbv in pyq "' href='".
Definition itemref_open : pystr := Eval cbv in pyq "<itemref idref='".

Definition items_in (doc : pystr) : list (list pystr) :=
  elements item_open [href_between; [quote]] doc.

Definition itemrefs_in (doc : pystr) : list (list pystr) :=
  elements itemref_open [[quote]] doc.

(** The links of a navigation document, each with its href and its text:
    all of them, those in an item of the front-matter list, and those in an
    item of a chapter list. *)
Definition a_open : pystr := Eval cbv in pyq "<a href='".
Definition front_open : pystr := Eval cbv in pyq "<li class='toc-front'><a href='".
Definition child_open : pystr := Eval cbv in pyq "<li><a href='".
Definition a_href_end : pystr := Eval cbv in pyq "'>".
Definition a_end : pystr := Eval cbv in py "</a>".

Definition entry_of_fields (fields : list pystr) : entry :=
  match fields with
  | [href; title] => Entry title href
  | _ => Entry [] []
  end.

Definition links_in (doc : pystr) : list entry :=
  entry_of_fields <$> elements a_open [a_href_end; a_end] doc.

Definition front_links_in (doc : pystr) : list entry :=
  entry_of_fields <$> elements front_open [a_href_end; a_end] doc.

Definition child_links_in (doc : pystr) : list entry :=
  entry_of_fields <$> elements child_open [a_href_end; a_end] doc.

(** Neither [<] nor a double quote occurs in [s]. *)
Definition plain (s : pystr) : Prop := (lt_sign ∉ s) ∧ (quote ∉ s).

#[global] Instance plain_dec s : Decision (plain s).
Proof. unfold plain. apply _. Defined.

(** The values of a manifest item can be read back from its line. *)
Definition item_ok (it : manifest_item) : Prop :=
  plain (item_id it) ∧ plain (item_href it) ∧ (lt_sign ∉ item_media_type it) ∧
  match item_properties it with Some p => lt_sign ∉ p | None => True end.

#[global] Instance item_ok_dec it : Decision (item_ok it).
Proof. unfold item_ok. destruct (item_properties it); apply _. Defined.

(** The texts [p] and [s] agree as far as both go. *)
Fixpoint compatible (p s : pystr) : bool :=
  match p, s with
  | a :: p', b :: s' => (a =? b) && compatible p' s'
  | _, _ => true
  end.

(** No occurrence of [p] starts inside [s], whatever follows [s]. *)
Fixpoint clean (p s : pystr) : bool :=
  match s with
  | [] => true
  | _ :: s' => negb (compatible p s) && clean p s'
  end.

(** The text of the fields [vs] with the texts [closers] that close them. *)
Fixpoint fields_text (closers vs : list pystr) : pystr :=
  match closers, vs with
  | c :: closers', v :: vs' => v ++ c ++ fields_text closers' vs'
  | _, _ => []
  end.

(** Every field stops before the first code point of the text that closes
    it. *)
Fixpoint fields_ok (closers vs : list pystr) : Prop :=
  match closers, vs with
  | [], [] => True
  | (d :: _) :: closers', v :: vs' => (d ∉ v) ∧ fields_ok closers' vs'
  | _, _ => False
  end.

(** What a reader finds in the line [l]: the href and the text of a link,
    of a link in an item of the front-matter list, and of a link in an item
    of a chapter list. *)
Definition line_links (l : toc_line) : list (list pystr) :=
  match l with
  | LiFront e | LiChapter e => [[e_href e; e_title e]]
  | PartLink href title => [[href; title]]
  | _ => []
  end.

Definition line_front_links (l : toc_line) : list (list pystr) :=
  match l with
  | LiFront e => [[e_href e; e_title e]]
  | _ => []
  end.

Definition line_child_links (l : toc_line) : list (list pystr) :=
  match l with
  | LiChapter e => [[e_href e; e_title e]]
  | _ => []
  end.

(** The href of a link can be read up to the quote that closes it, its text
    up to the tag that closes it, and a heading holds no tag. *)
Definition entry_ok (e : entry) : Prop := (lt_sign ∉ e_title e) ∧ plain (e_href e).

Definition line_ok (l : toc_line) : Prop :=
  match l with
  | LiFront e | LiChapter e => entry_ok e
  | PartLink href title => entry_ok (Entry title href)
  | H2Section title => lt_sign ∉ title
  | _ => True
  end.

Definition h2_title (l : toc_line) : option pystr :=
  match l with H2Section title => Some title | _ => None end.

Definition front_entry (k : toc_link) : option entry :=
  match k with FrontMatterLink e => Some e | _ => None end.

Definition child_entry (k : toc_link) : option entry :=
  match k with ChildLinkOf e => Some e | _ => None end.

(** The formatter could not be found, or it ran, wrote output that is text
    and exited with a failure status. *)
Definition formatter_failed (outcome : proc_outcome) : Prop :=
  outcome = NotStarted FileNotFoundError ∨ ∃ n, n ≠ 0 ∧ outcome = Exited n true.

(** A file system has one entry for a name in a directory. *)
Fixpoint wf_tree (t : node) : Prop :=
  match t with
  | File _ _ _ => True
  | Dir _ children =>
      NoDup children.*1 ∧
      (fix all (cs : list (pystr * node)) : Prop :=
         match cs with
         | [] => True
         | (_, sub) :: cs' => wf_tree sub ∧ all cs'
         end) children
  end.

(** The name of the archive in the directory of the script. *)
Definition epub_name : pystr :=
  Eval cbv in py "Living Enlightenment - Unabridged - 7th Edition.epub".

(** The entry [e] is what the inner loop of the packaging step writes for
    the file [f] of the directory [dp]. *)
Definition written_from (SCRIPT_DIR : path) (t : node) (dp : path) (f : pystr)
    (e : zip_entry) : Prop :=
  skipped_file f = false ∧
  zip_write t (dp ++ [f]) (relpath (dp ++ [f]) SCRIPT_DIR) ZIP_DEFLATED [] = Ok [e].

(** ** The nesting of the lines of the navigation body *)




(** The current part of the scan is a key of the dict. *)
Definition current_in_dict (st : toc_state) : Prop :=
  ∀ k, current_part_id st = Some k → k ∈ (parts_by_id st).*1.

(** No markup tag (no match of the tag pattern) starts anywhere in [s]. *)
Definition tag_free (s : pystr) : Prop :=
  ∀ pre rest, s = pre ++ rest → tag_at rest = None.

(** The directory of a book that holds the archive of an earlier run and no
    [mimetype]. *)
Definition stale_files : list (pystr * node) :=
  Eval cbv in
  [ (epub_name,
     File false false (Archive [ ZipEntry mimetype ZIP_STORED
                             (Some (Text (py "application/epub+zip"))) ]));
    (py "OEBPS", Dir true [ (py "Text", Dir true []) ]) ].

Definition stale_tree : node := Dir true [ (py "home", Dir true [ (py "book", Dir true stale_files) ]) ].

(** No name in the tree contains a slash. *)
Fixpoint slash_free (t : node) : bool :=
  match t with
  | File _ _ _ => true
  | Dir _ children =>
      forallb (fun c => negb (bool_decide (47 ∈ c.1)) && slash_free c.2) children
  end.

(** The conditions of the inner loop of the packaging step under which a
    file is written to the archive. *)
Definition kept (SCRIPT_DIR dirpath : path) (filename : pystr) : bool :=
  negb (bool_decide (relpath (dirpath ++ [filename]) SCRIPT_DIR = mimetype)) &&
  negb (skipped_file filename).

(** The directories on the way from [t] down the path [p], [t] included,
    can be listed. *)
Fixpoint listable_along (p : path) (t : node) : bool :=
  match t with
  | File _ _ _ => true
  | Dir l children =>
      l && match p with
           | [] => true
           | name :: rest =>
               match lookup_child name children with
               | Some sub => listable_along rest sub
               | None => true
               end
           end
  end.

(** A chapter file whose title holds a tag that is not closed, and the
    record the scan gives for it. *)
Definition markup_file : pystr :=
  Eval cbv in py "<title><a href=" ++ q (py "x") ++ py "</title>".

Definition markup_tree : node :=
  Dir true
    [ (py "home",
       Dir true
         [ (py "book",
            Dir true
              [ (py "OEBPS",
                 Dir true
                   [ (py "Text",
                      Dir true
                        [ (py "ch000-a.xhtml", File true true (Text markup_file)) ]) ]) ]) ]) ].

Definition markup_chapters : list chapter :=
  Eval cbv in
  [ Chapter (py "ch000-a.xhtml") (py "a") (py "<a href=" ++ q (py "x")) 3 ].

(** A chapter file whose name holds double quotes, and the record the scan
    gives for it. *)
Definition quoted_name : pystr := Eval cbv in pyq "ch'><itemref idref='x-.xhtml".

Definition quoted_tree : node :=
  Dir true
    [ (py "home",
       Dir true
         [ (py "book",
            Dir true
              [ (py "OEBPS",
                 Dir true
                   [ (py "Text",
                      Dir true
                        [ (quoted_name,
                           File true true (Text (py "<title>T</title>"))) ]) ]) ]) ]) ].

Definition quoted_chapters : list chapter :=
  Eval cbv in [ Chapter quoted_name [] (py "T") 3 ].

(** A chapter file stored with carriage returns, and the record the scan
    gives for it. *)
Definition crlf_file : pystr :=
  Eval cbv in py "<title>A" ++ [13; 10] ++ py "B</title>" ++ [13] ++ py "<p/>".

Definition crlf_tree : node :=
  Dir true
    [ (py "home",
       Dir true
         [ (py "book",
            Dir true
              [ (py "OEBPS",
                 Dir true
                   [ (py "Text",
                      Dir true
                        [ (py "ch000-a.xhtml", File true false (Text crlf_file)) ]) ]) ]) ]) ].

Definition crlf_chapters : list chapter :=
  Eval cbv in [ Chapter (py "ch000-a.xhtml") (py "a") (py "A" ++ [10] ++ py "B") 3 ].
(** ** Facts about the string helpers *)

Lemma startswith_prefix p s : startswith p s = true ↔ p `prefix_of` s.
Proof.
  revert s. induction p as [|a p IH]; intros [|b s]; simpl.
  - split; [intros _; apply prefix_nil | done].
  - split; [intros _; apply prefix_nil | done].
  - split; [done | intros H; by apply prefix_nil_not in H].
  - rewrite andb_true_iff, N.eqb_eq, IH. split.
    + intros [-> H]. by apply prefix_cons.
    + intros H. split; [by eapply prefix_cons_inv_1 | by eapply prefix_cons_inv_2].
Qed.

Lemma endswith_suffix p s : endswith p s = true ↔ p `suffix_of` s.
Proof.
  unfold endswith. rewrite startswith_prefix. symmetry. apply suffix_prefix_reverse.
Qed.

Lemma endswith_app p s : endswith p s = true ↔ ∃ stem, s = stem ++ p.
Proof. by rewrite endswith_suffix. Qed.

Lemma drop_last_app stem p : drop_last (length p) (stem ++ p) = stem.
Proof.
  unfold drop_last. rewrite length_app.
  replace (length stem + length p - length p)%nat with (length stem) by lia.
  by rewrite take_app_length.
Qed.

Lemma partition_at_none c s : c ∉ s → partition_at c s = None.
Proof.
  induction s as [|x t IH]; [done|]. intros Hnin. simpl.
  apply not_elem_of_cons in Hnin as [Hne Hnin].
  destruct (N.eqb_spec x c); [congruence|]. by rewrite IH.
Qed.

Lemma partition_at_first c a b :
  c ∉ a → partition_at c (a ++ c :: b) = Some (a, b).
Proof.
  induction a as [|x a IH]; simpl; intros Hnin.
  - by rewrite N.eqb_refl.
  - apply not_elem_of_cons in Hnin as [Hne Hnin].
    destruct (N.eqb_spec x c); [congruence|]. by rewrite IH.
Qed.

Lemma partition_at_some c s a b :
  partition_at c s = Some (a, b) → s = a ++ c :: b ∧ c ∉ a.
Proof.
  revert a. induction s as [|x t IH]; [done|]. intros a. simpl.
  destruct (N.eqb_spec x c) as [->|Hne].
  - intros [= <- <-]. split; [done | apply not_elem_of_nil].
  - destruct (partition_at c t) as [[a' b']|] eqn:E; [|done].
    intros [= <- <-]. destruct (IH a' eq_refl) as [-> Hnin].
    split; [done|]. apply not_elem_of_cons. split; [congruence | done].
Qed.

Lemma partition_at_none_inv c s : partition_at c s = None → c ∉ s.
Proof.
  induction s as [|x t IH]; simpl; [intros _; apply not_elem_of_nil|].
  destruct (N.eqb_spec x c); [done|].
  destruct (partition_at c t) as [[a b]|]; [done|].
  intros _. apply not_elem_of_cons. split; [congruence | by apply IH].
Qed.

(** ** The record id (C6) *)

Lemma chapter_id_after_first_hyphen_aux (stem : pystr) :
  (hyphen ∉ stem → chapter_id (stem ++ ext) = stem) ∧
  (∀ a b, stem = a ++ hyphen :: b → hyphen ∉ a → chapter_id (stem ++ ext) = b).
Proof.
  unfold chapter_id. change 6%nat with (length ext). rewrite drop_last_app.
  unfold split_once. split.
  - intros Hnin. by rewrite partition_at_none.
  - intros a b -> Hnin. by rewrite partition_at_first.
Qed.

(** C6: for a filename [stem ++ ".xhtml"], the record id is the part of the
    stem after its first hyphen, and the whole stem when the stem has no
    hyphen. *)
Theorem chapter_id_after_first_hyphen (stem a b : pystr) :
  (hyphen ∉ stem → chapter_id (stem ++ ext) = stem) ∧
  (hyphen ∉ a → chapter_id (a ++ hyphen :: b ++ ext) = b).
Proof.
  split; intros Hnin.
  - by apply (proj1 (chapter_id_after_first_hyphen_aux stem)).
  - replace (a ++ hyphen :: b ++ ext) with ((a ++ hyphen :: b) ++ ext)
      by (by rewrite <- app_assoc).
    by apply (proj2 (chapter_id_after_first_hyphen_aux (a ++ hyphen :: b)) a b).
Qed.

(** The two filenames the specification names. *)
Lemma chapter_id_examples :
  chapter_id (py "ch000.xhtml") = py "ch000" ∧
  chapter_id (py "ch003-flow-in-love.xhtml") = py "flow-in-love".
Proof.
  split.
  - apply (proj1 (chapter_id_after_first_hyphen (py "ch000") [] [])).
    apply (bool_decide_unpack _). vm_compute. exact I.
  - apply (proj2 (chapter_id_after_first_hyphen [] (py "ch003") (py "flow-in-love"))).
    apply (bool_decide_unpack _). vm_compute. exact I.
Defined.

(** ** The manifest id of a filename without hyphen (C10) *)

Lemma qualifies_stem f : qualifies f = true → ∃ stem, f = stem ++ ext.
Proof.
  unfold qualifies. rewrite andb_true_iff. intros [_ H].
  by apply endswith_app in H.
Qed.

Lemma chapter_item_id_no_hyphen f : hyphen ∉ f → chapter_item_id f = f.
Proof.
  intros H. unfold chapter_item_id, split_once. by rewrite partition_at_none.
Qed.

Lemma chapter_item_id_hyphen a b : hyphen ∉ a → chapter_item_id (a ++ hyphen :: b) = a.
Proof.
  intros H. unfold chapter_item_id, split_once. by rewrite partition_at_first.
Qed.

Lemma ext_no_hyphen : hyphen ∉ ext.
Proof. apply (bool_decide_unpack _). vm_compute. exact I. Qed.

(** C10, as the code has it: a qualifying filename either has no hyphen, and
    then the manifest id is the whole filename, extension included, the
    record id is the filename without the extension, and the two differ; or
    it is [a-b.xhtml] with no hyphen in [a], and then the manifest id is [a],
    the record id is [b], and the two differ unless [a] and [b] are equal.
    So the ids differ for the filenames without hyphen, and not only for
    them. *)
Theorem item_id_keeps_extension (filename : pystr) :
  qualifies filename = true →
  (hyphen ∉ filename →
   chapter_item_id filename = filename ∧
   filename = chapter_id filename ++ ext ∧
   chapter_item_id filename ≠ chapter_id filename) ∧
  (hyphen ∈ filename →
   ∃ a b, filename = a ++ hyphen :: b ++ ext ∧ hyphen ∉ a) ∧
  (∀ a b, filename = a ++ hyphen :: b ++ ext → hyphen ∉ a →
          chapter_item_id filename = a ∧
          chapter_id filename = b ∧
          (chapter_item_id filename ≠ chapter_id filename ↔ a ≠ b)).
Proof.
  intros Hq. destruct (qualifies_stem _ Hq) as [stem ->]. split_and!.
  - intros Hnin.
    assert (Hstem : hyphen ∉ stem) by (intros H; apply Hnin, elem_of_app; by left).
    destruct (chapter_id_after_first_hyphen_aux stem) as [Hid _].
    rewrite (Hid Hstem), chapter_item_id_no_hyphen by done.
    split_and!; [done | done |].
    intros Heq. apply (f_equal length) in Heq. rewrite length_app in Heq.
    simpl in Heq. lia.
  - intros Hin. apply elem_of_app in Hin as [Hin|Hin]; [|by destruct ext_no_hyphen].
    destruct (partition_at hyphen stem) as [[a b]|] eqn:E.
    + apply partition_at_some in E as [-> Ha]. exists a, b.
      by rewrite <- app_assoc.
    + by apply partition_at_none_inv in E.
  - intros a b Heq Ha.
    assert (stem = a ++ hyphen :: b) as ->.
    { change (a ++ hyphen :: b ++ ext) with (a ++ (hyphen :: b) ++ ext) in Heq.
      rewrite app_assoc in Heq. by apply app_inv_tail in Heq. }
    destruct (chapter_id_after_first_hyphen_aux (a ++ hyphen :: b)) as [_ Hid].
    rewrite (Hid a b eq_refl Ha), <- app_assoc.
    change ((hyphen :: b) ++ ext) with (hyphen :: (b ++ ext)).
    by rewrite chapter_item_id_hyphen.
Qed.

Lemma item_id_keeps_extension_ch000 :
  chapter_item_id (py "ch000.xhtml") = py "ch000.xhtml" ∧
  py "ch000.xhtml" = chapter_id (py "ch000.xhtml") ++ ext ∧
  chapter_item_id (py "ch000.xhtml") ≠ chapter_id (py "ch000.xhtml").
Proof.
  apply (item_id_keeps_extension (py "ch000.xhtml")).
  - vm_compute. reflexivity.
  - apply (bool_decide_unpack _). vm_compute. exact I.
Defined.

(** The claim, as stated, fails: the ids differ for a filename with a
    hyphen too (the filename of the specification), so the filenames
    without hyphen are not exactly the ones whose ids differ; and a
    hyphen does not make them differ either. *)
Lemma item_ids_differ_with_hyphen :
  qualifies (py "ch003-flow-in-love.xhtml") = true ∧
  hyphen ∈ py "ch003-flow-in-love.xhtml" ∧
  chapter_item_id (py "ch003-flow-in-love.xhtml") = py "ch003" ∧
  chapter_id (py "ch003-flow-in-love.xhtml") = py "flow-in-love" ∧
  chapter_item_id (py "ch003-flow-in-love.xhtml")
  ≠ chapter_id (py "ch003-flow-in-love.xhtml") ∧
  qualifies (py "ch-ch.xhtml") = true ∧
  chapter_item_id (py "ch-ch.xhtml") = chapter_id (py "ch-ch.xhtml").
Proof.
  split_and!; try (vm_compute; reflexivity).
  - apply (bool_decide_unpack _). vm_compute. exact I.
  - vm_compute. intros [=].
Qed.

(** ** The order of [sorted] *)

Lemma str_leb_refl a : str_leb a a = true.
Proof.
  induction a as [|x a IH]; [done|]. simpl.
  rewrite N.eqb_refl, IH. by rewrite orb_true_r.
Qed.

#[global] Instance str_le_total : Total str_le.
Proof.
  unfold str_le. intros a. induction a as [|x a IH]; intros [|y b]; simpl; auto.
  destruct (N.ltb_spec x y); simpl; [by left|].
  destruct (N.ltb_spec y x); simpl; [by right|].
  assert (x = y) as -> by lia. rewrite N.eqb_refl. simpl. apply IH.
Qed.

#[global] Instance str_le_trans : Transitive str_le.
Proof.
  unfold str_le. intros a. induction a as [|x a IH]; intros [|y b] [|z c]; simpl; try done.
  rewrite !orb_true_iff, !andb_true_iff, !N.ltb_lt, !N.eqb_eq.
  intros [H1|[-> H1]] [H2|[-> H2]].
  - left. lia.
  - by left.
  - by left.
  - right. split; [done|]. by eapply IH.
Qed.

#[global] Instance str_le_antisymm : AntiSymm (=) str_le.
Proof.
  unfold str_le. intros a. induction a as [|x a IH]; intros [|y b]; simpl; try done.
  rewrite !orb_true_iff, !andb_true_iff, !N.ltb_lt, !N.eqb_eq.
  intros [H1|[-> H1]] [H2|[H2 H3]]; try lia.
  f_equal. by apply IH.
Qed.

(** Whatever algorithm [sorted] runs, its result is the one of the model:
    a sorted rearrangement of a list of strings is unique. *)
Lemma sorted_unique (l l' : list pystr) :
  Sorted str_le l' → l' ≡ₚ l → l' = sorted l.
Proof.
  intros Hs Hp. apply (Sorted_unique str_le); [done | |].
  - apply (Sorted_merge_sort str_le).
  - rewrite Hp. symmetry. apply (merge_sort_Permutation str_le).
Qed.

(** ** Chapter discovery (C5) *)

Section DiscoveryFacts.

Context (unicode_alnum : N → bool) (SCRIPT_DIR : path).

Lemma scan_files_ok t filenames :
  (∀ f, f ∈ filenames → ∃ s, read_text (TEXT_DIR SCRIPT_DIR ++ [f]) t = Ok s) →
  ∃ chapters, scan_files unicode_alnum SCRIPT_DIR t filenames = Ok chapters ∧
              ch_filename <$> chapters = filenames.
Proof.
  induction filenames as [|f fs IH]; intros Hread.
  - by exists [].
  - destruct (Hread f) as [s Hs]; [by left|].
    destruct IH as (chs & Hchs & Hnames).
    { intros g Hg. apply Hread. by right. }
    eexists. simpl. unfold scan_file. rewrite Hs. simpl. rewrite Hchs. simpl.
    split; [done|]. rewrite fmap_cons. by f_equal.
Qed.

Lemma scan_files_filenames t filenames chapters :
  scan_files unicode_alnum SCRIPT_DIR t filenames = Ok chapters →
  ch_filename <$> chapters = filenames.
Proof.
  revert chapters. induction filenames as [|f fs IH]; intros chapters; simpl.
  - by intros [= <-].
  - unfold scan_file. destruct (read_text _ t) as [s|e]; simpl; [|done].
    destruct (scan_files _ _ t fs) as [chs|e]; simpl; [|done].
    intros [= <-]. rewrite fmap_cons. f_equal. by apply IH.
Qed.

(** C5: when the directory can be listed and the qualifying files can be
    read, [discover_chapters] returns one record for each listed name that
    starts with [ch] and ends with [.xhtml], none for another name, and the
    records are in ascending order of filename. *)
Theorem discover_chapters_sorted (t : node) (names : list pystr) :
  listdir (TEXT_DIR SCRIPT_DIR) t = Ok names →
  (∀ f, f ∈ names → qualifies f = true →
        ∃ s, read_text (TEXT_DIR SCRIPT_DIR ++ [f]) t = Ok s) →
  ∃ chapters,
    discover_chapters unicode_alnum SCRIPT_DIR t = Ok chapters ∧
    ch_filename <$> chapters ≡ₚ filter (fun f => qualifies f = true) names ∧
    length chapters = length (filter (fun f => qualifies f = true) names) ∧
    StronglySorted str_le (ch_filename <$> chapters).
Proof.
  intros Hls Hread. unfold discover_chapters. rewrite Hls. simpl.
  destruct (scan_files_ok t (sorted (filter (fun f => qualifies f = true) names)))
    as (chs & Hchs & Hnames).
  { intros f Hf. unfold sorted in Hf.
    rewrite (merge_sort_Permutation str_le) in Hf.
    apply list_elem_of_filter in Hf as [Hq Hin]. by apply Hread. }
  exists chs. split; [done|].
  assert (Hperm : ch_filename <$> chs ≡ₚ filter (fun f => qualifies f = true) names).
  { rewrite Hnames. apply (merge_sort_Permutation str_le). }
  split_and!; [done | |].
  - apply Permutation_length in Hperm. by rewrite length_fmap in Hperm.
  - rewrite Hnames. apply (StronglySorted_merge_sort str_le).
Qed.

End DiscoveryFacts.

Lemma discover_chapters_sorted_book :
  ∃ chapters,
    discover_chapters no_unicode_alnum book_dir book_tree = Ok chapters ∧
    ch_filename <$> chapters ≡ₚ filter (fun f => qualifies f = true) text_files.*1 ∧
    length chapters = length (filter (fun f => qualifies f = true) text_files.*1) ∧
    StronglySorted str_le (ch_filename <$> chapters).
Proof.
  apply (discover_chapters_sorted no_unicode_alnum book_dir book_tree text_files.*1).
  - vm_compute. reflexivity.
  - apply (proj1 (Forall_forall
               (fun f => qualifies f = true →
                         ∃ s, read_text (TEXT_DIR book_dir ++ [f]) book_tree = Ok s)
               text_files.*1)).
    repeat constructor; vm_compute; intros; try discriminate; eexists; reflexivity.
Defined.

(** ** Joined lines *)

Lemma join_cons sep x y rest :
  join sep (x :: y :: rest) = x ++ sep ++ join sep (y :: rest).
Proof. done. Qed.

Lemma join_lookup sep (l : list pystr) i m :
  l !! i = Some m → ∃ pre post, join sep l = pre ++ m ++ post.
Proof.
  revert i. induction l as [|x l IH]; intros i Hi; [done|].
  destruct i as [|i]; simpl in Hi.
  - injection Hi as ->. destruct l as [|y l].
    + exists [], []. simpl. by rewrite app_nil_r.
    + exists [], (sep ++ join sep (y :: l)). by rewrite join_cons.
  - destruct l as [|y l]; [done|].
    destruct (IH i Hi) as (pre & post & Hj). rewrite join_cons, Hj.
    exists (x ++ sep ++ pre), post. by rewrite <- !app_assoc.
Qed.

Lemma join_lookup2 sep (l : list pystr) i j m n :
  (i < j)%nat → l !! i = Some m → l !! j = Some n →
  ∃ pre mid post, join sep l = pre ++ m ++ mid ++ n ++ post.
Proof.
  revert i j. induction l as [|x l IH]; intros i j Hlt Hi Hj; [done|].
  destruct j as [|j]; [lia|]. simpl in Hj.
  destruct l as [|y l]; [done|]. rewrite join_cons.
  destruct i as [|i]; simpl in Hi.
  - injection Hi as ->. destruct (join_lookup sep _ _ _ Hj) as (pre & post & ->).
    exists [], (sep ++ pre), post. by rewrite <- !app_assoc.
  - destruct (IH i j) as (pre & mid & post & ->); [lia | done | done |].
    exists (x ++ sep ++ pre), mid, post. by rewrite <- !app_assoc.
Qed.

(** The document holds the rendered manifest items and, after them, the
    rendered spine references. *)
Lemma build_content_opf_lines now chapters :
  ∃ pre mid post,
    build_content_opf now chapters =
    pre ++ join newline (render_item <$> manifest_items chapters) ++
    mid ++ join newline (render_itemref <$> spine_items chapters) ++ post.
Proof.
  unfold build_content_opf.
  by apply (join_lookup2 newline _ 10 13); [lia | |].
Qed.

(** ** The title (C3) *)

Lemma startswith_app p s : startswith p s = true ↔ ∃ post, s = p ++ post.
Proof. by rewrite startswith_prefix. Qed.

Lemma startswith_false p s : startswith p s = false → ∀ post, s ≠ p ++ post.
Proof.
  intros H post ->. assert (startswith p (p ++ post) = true) by (apply startswith_app; eauto).
  congruence.
Qed.

Lemma lazy_until_some close s g :
  lazy_until close s = Some g ↔
  (∃ post, s = g ++ close ++ post) ∧
  (∀ a b, s = a ++ close ++ b → (length g ≤ length a)%nat).
Proof.
  revert g. induction s as [|c t IH]; intros g.
  - simpl. destruct (startswith close []) eqn:E.
    + apply startswith_app in E as [post E]. split.
      * intros [= <-]. split; [by exists post | intros; simpl; lia].
      * intros [_ Hmin]. specialize (Hmin [] post E). destruct g; [done | simpl in Hmin; lia].
    + split; [done|]. intros [[post Hs] _].
      destruct g; [|done]. by eapply (startswith_false _ _ E) in Hs.
  - cbn [lazy_until]. destruct (startswith close (c :: t)) eqn:E.
    + apply startswith_app in E as [post E]. split.
      * intros [= <-]. split; [by exists post | intros; simpl; lia].
      * intros [_ Hmin]. specialize (Hmin [] post E). destruct g; [done | simpl in Hmin; lia].
    + pose proof (startswith_false _ _ E) as Hno. split.
      * destruct (lazy_until close t) as [g'|] eqn:Et; [|done].
        intros [= <-]. destruct (proj1 (IH g') eq_refl) as [[post ->] Hmin].
        split; [by exists post|].
        intros [|x a] b Hab; [by apply Hno in Hab|].
        injection Hab as -> Hab. apply Hmin in Hab. simpl. lia.
      * intros [[post Hs] Hmin]. destruct g as [|x g]; [by apply Hno in Hs|].
        injection Hs as <- Hs.
        assert (Ht : lazy_until close t = Some g).
        { apply IH. split; [by exists post|]. intros a b Hab.
          specialize (Hmin (c :: a) b). simpl in Hmin. rewrite Hab in Hmin.
          specialize (Hmin eq_refl). lia. }
        by rewrite Ht.
Qed.

Lemma lazy_until_none close s :
  lazy_until close s = None → ∀ a b, s ≠ a ++ close ++ b.
Proof.
  induction s as [|c t IH]; cbn [lazy_until];
    destruct (startswith close _) eqn:E; try done;
    pose proof (startswith_false _ _ E) as Hno.
  - intros _ [|x a] b Hab; [by apply Hno in Hab | done].
  - destruct (lazy_until close t) eqn:Et; [done|]. intros _ [|x a] b Hab.
    + by apply Hno in Hab.
    + injection Hab as -> Hab. by apply (IH eq_refl) in Hab.
Qed.

Lemma match_title_at_some s g :
  match_title_at s = Some g ↔
  ∃ post, s = title_open ++ g ++ title_close ++ post ∧
          (∀ a b, g ++ title_close ++ post = a ++ title_close ++ b →
                  (length g ≤ length a)%nat).
Proof.
  unfold match_title_at. destruct (startswith title_open s) eqn:E.
  - apply startswith_app in E as [rest ->].
    change 7%nat with (length title_open). rewrite drop_app_length.
    rewrite lazy_until_some. split.
    + intros [[post ->] Hmin]. by exists post.
    + intros (post & Hs & Hmin). apply app_inv_head in Hs as ->. eauto.
  - split; [done|]. intros (post & Hs & _). by apply (startswith_false _ _ E) in Hs.
Qed.

(** When the pattern fails at an opening tag, no closing tag follows it. *)
Lemma match_title_at_none s b :
  match_title_at s = None → s = title_open ++ b → ∀ x y, b ≠ x ++ title_close ++ y.
Proof.
  unfold match_title_at. intros H ->.
  assert (E : startswith title_open (title_open ++ b) = true)
    by (apply startswith_app; eauto).
  rewrite E in H. change 7%nat with (length title_open) in H.
  rewrite drop_app_length in H. by apply lazy_until_none.
Qed.

Lemma search_title_some s g : search_title s = Some g ↔ first_title_match s g.
Proof.
  unfold first_title_match. revert g. induction s as [|c t IH]; intros g.
  - cbn [search_title]. destruct (match_title_at []) as [g0|] eqn:E.
    + apply match_title_at_some in E as (post & Hs & _). done.
    + split; [done|]. intros (pre & post & Hs & _).
      destruct pre; discriminate Hs.
  - cbn [search_title]. destruct (match_title_at (c :: t)) as [g0|] eqn:E.
    + split.
      * intros [= <-]. apply match_title_at_some in E as (post & Hs & Hmin).
        exists [], post. split_and!; [done | intros; cbn [length]; lia | done].
      * intros (pre & post & Hs & Hfirst & Hmin).
        apply match_title_at_some in E as (post0 & Hs0 & Hmin0).
        specialize (Hfirst [] _ Hs0). destruct pre; [|cbn [length] in Hfirst; lia].
        rewrite app_nil_l in Hs. rewrite Hs0 in Hs. apply app_inv_head in Hs.
        f_equal.
        assert (Hle1 := Hmin0 g post Hs). symmetry in Hs.
        assert (Hle2 := Hmin g0 post0 Hs).
        apply (f_equal (take (length g))) in Hs.
        rewrite take_app_length in Hs.
        rewrite take_app_le in Hs by lia.
        rewrite Hs. symmetry. apply take_ge. lia.
    + rewrite IH. split.
      * intros (pre & post & -> & Hfirst & Hmin).
        exists (c :: pre), post. split_and!; [done | | done].
        intros [|x a] b Hab.
        -- exfalso. rewrite app_nil_l in Hab.
           apply (match_title_at_none _ b E Hab
                    (drop (length title_open - 1) (pre ++ title_open ++ g)) post).
           apply (f_equal (drop (length title_open))) in Hab.
           rewrite drop_app_length in Hab. rewrite <- Hab.
           change (length title_open) with (S (length title_open - 1)).
           cbn [drop]. rewrite (app_assoc pre), (app_assoc _ g).
           rewrite drop_app_le; [by rewrite <- !app_assoc|].
           rewrite !length_app. lia.
        -- injection Hab as <- Hab. apply Hfirst in Hab. cbn [length]. lia.
      * intros (pre & post & Hs & Hfirst & Hmin).
        destruct pre as [|x pre].
        -- exfalso. rewrite app_nil_l in Hs.
           by apply (match_title_at_none _ _ E Hs g post).
        -- injection Hs as <- Hs. exists pre, post. split_and!; [done | | done].
           intros a b Hab. specialize (Hfirst (c :: a) b). cbn [length] in Hfirst.
           rewrite Hab in Hfirst. specialize (Hfirst eq_refl). lia.
Qed.

Lemma search_title_none s :
  (∀ pre g post, s ≠ pre ++ title_open ++ g ++ title_close ++ post) →
  search_title s = None.
Proof.
  intros Hno. destruct (search_title s) as [g|] eqn:E; [|done].
  apply search_title_some in E as (pre & post & Hs & _). by apply Hno in Hs.
Qed.

Lemma tag_at_none c t : c ≠ lt_sign → tag_at (c :: t) = None.
Proof. intros H. simpl. by destruct (N.eqb_spec c lt_sign). Qed.

Lemma sub_tags_no_lt s : lt_sign ∉ s → sub_tags s = s.
Proof.
  unfold sub_tags. induction s as [|c t IH]; [done|]. intros Hnin.
  apply not_elem_of_cons in Hnin as [Hne Hnin].
  cbn [sub_tags_from]. rewrite tag_at_none by done. by rewrite IH.
Qed.

Lemma str_replace_absent c old new s : c ∉ s → str_replace (c :: old) new s = s.
Proof.
  unfold str_replace. induction s as [|x t IH]; [done|]. intros Hnin.
  apply not_elem_of_cons in Hnin as [Hne Hnin].
  cbn [replace_from startswith].
  destruct (N.eqb_spec c x); [congruence|]. simpl. by rewrite IH.
Qed.

Lemma decode_entities_no_amp s : 38 ∉ s → decode_entities s = s.
Proof.
  intros H. unfold decode_entities, ent_rsquo, ent_lsquo, ent_rdquo, ent_ldquo, ent_amp.
  by do 5 rewrite (str_replace_absent 38 _ _ s H).
Qed.

(** C3, as the code has it: the span of the first non-greedy match is
    trimmed first, then its tags are stripped and the five entities decoded;
    without a title element the same stripping and decoding is applied to
    the record id, which is left as it is when it holds neither [<] nor
    [&]. *)
Theorem extract_title_trims_first (content chapter_id : pystr) :
  (∀ g, first_title_match content g →
        extract_title content chapter_id = decode_entities (sub_tags (strip g))) ∧
  ((∀ pre g post, content ≠ pre ++ title_open ++ g ++ title_close ++ post) →
   extract_title content chapter_id = decode_entities (sub_tags chapter_id) ∧
   (lt_sign ∉ chapter_id → 38 ∉ chapter_id →
    extract_title content chapter_id = chapter_id)).
Proof.
  unfold extract_title. split.
  - intros g Hg. apply search_title_some in Hg. by rewrite Hg.
  - intros Hno. rewrite (search_title_none _ Hno). split; [done|].
    intros Hlt Hamp. rewrite sub_tags_no_lt by done. by apply decode_entities_no_amp.
Qed.

(** The file of the specification has the title [Flow's End], written with
    the right single quotation mark, and a file without title element gets
    its id. *)
Lemma extract_title_flow :
  extract_title flow_title_file (py "x") = py "Flow" ++ [8217] ++ py "s End" ∧
  extract_title (py "<html/>") (py "flow-in-love") = py "flow-in-love".
Proof.
  split.
  - rewrite (proj1 (extract_title_trims_first flow_title_file (py "x"))
               (py "Flow&rsquo;s <b>End</b>")).
    + vm_compute. reflexivity.
    + apply search_title_some. vm_compute. reflexivity.
  - apply (proj2 (extract_title_trims_first (py "<html/>") (py "flow-in-love"))).
    + intros pre g post Hs.
      assert (Hin : 105 ∈ py "<html/>").
      { rewrite Hs. apply elem_of_app. right. apply elem_of_app. left.
        unfold title_open. repeat constructor. }
      revert Hin. apply (bool_decide_unpack _). vm_compute. exact I.
    + apply (bool_decide_unpack _). vm_compute. exact I.
    + apply (bool_decide_unpack _). vm_compute. exact I.
Defined.

(** The claim, as stated, fails: white space that the removal of a tag
    exposes stays in the title, and an id that holds an entity is decoded. *)
Lemma extract_title_not_trimmed_last :
  extract_title (py "<title>Hi <br/></title>") (py "x") = py "Hi " ∧
  spec_title (py "<title>Hi <br/></title>") (py "x") = py "Hi" ∧
  chapter_id (py "ch001-a&amp;b.xhtml") = py "a&amp;b" ∧
  extract_title (py "<html/>") (chapter_id (py "ch001-a&amp;b.xhtml")) = py "a&b".
Proof. vm_compute. done. Qed.

(** ** The level (C4) *)

Lemma run_len_split p s :
  Forall (fun c => p c = true) (take (run_len p s) s) ∧
  match drop (run_len p s) s with
  | [] => True
  | c :: _ => p c = false
  end.
Proof.
  induction s as [|c t [IH1 IH2]]; simpl; [by split|].
  destruct (p c) eqn:E; simpl; [|by split].
  split; [by constructor | done].
Qed.

Lemma run_len_app p v c rest :
  Forall (fun x => p x = true) v → p c = false → run_len p (v ++ c :: rest) = length v.
Proof.
  induction v as [|x v IH]; simpl; intros Hall Hc.
  - by rewrite Hc.
  - apply Forall_cons in Hall as [Hx Hall]. rewrite Hx. by rewrite IH.
Qed.

Lemma not_quote_all v :
  quote ∉ v ↔ Forall (fun x => negb (x =? quote) = true) v.
Proof.
  rewrite Forall_forall. split.
  - intros Hnin x Hx. destruct (N.eqb_spec x quote); [by subst|done].
  - intros Hall Hin. specialize (Hall _ Hin). by rewrite N.eqb_refl in Hall.
Qed.

Lemma split_at_first c (v v' r r' : pystr) :
  v ++ c :: r = v' ++ c :: r' → c ∉ v → c ∉ v' → v = v'.
Proof.
  revert v'. induction v as [|x v IH]; intros [|y v']; simpl; intros Heq Hv Hv'.
  - done.
  - injection Heq as <- _. exfalso. apply Hv'. by left.
  - injection Heq as -> _. exfalso. apply Hv. by left.
  - injection Heq as -> Heq. f_equal. apply (IH v' Heq).
    + intros H. apply Hv. by right.
    + intros H. apply Hv'. by right.
Qed.

Lemma last_cp_cons prev c run : last_cp prev (c :: run) = last_cp c run.
Proof.
  unfold last_cp. destruct run as [|x r]; [done|].
  change (last (c :: x :: r)) with (last (x :: r)).
  destruct (last (x :: r)) eqn:E; [done|]. by apply last_None in E.
Qed.

Section LevelFacts.

Context (ua : N → bool).


Lemma word_boundary_attr prev rest :
  word_boundary ua prev (type_attr ++ rest) = negb (is_word ua prev).
Proof. unfold word_boundary. simpl. by destruct (is_word ua prev). Qed.

Lemma match_type_attr_some prev s v :
  match_type_attr ua prev s = Some v ↔ type_attr_at ua prev s v.
Proof.
  unfold match_type_attr, type_attr_at.
  destruct (startswith type_attr s) eqn:E.
  - apply startswith_app in E as [rest ->].
    rewrite word_boundary_attr, drop_app_length, andb_true_r.
    destruct (is_word ua prev); cbn [negb andb].
    { split; [done | by intros [? _]]. }
    pose proof (run_len_split (fun x => negb (x =? quote)) rest) as [Hall Hnext].
    set (n := run_len (fun x => negb (x =? quote)) rest) in *.
    split.
    + destruct n as [|n'] eqn:En; [done|].
      destruct (drop (S n') rest) as [|g tail] eqn:Ed; [done|].
      destruct (N.eqb_spec g quote) as [->|]; [|done].
      intros [= <-]. split_and!; [done | | |].
      * intros Hnil. apply (f_equal length) in Hnil.
        assert (S n' < length rest)%nat.
        { apply lookup_lt_is_Some. rewrite <- (Nat.add_0_r (S n')), <- lookup_drop, Ed. eauto. }
        rewrite length_take in Hnil. cbn [length] in Hnil. lia.
      * by apply not_quote_all.
      * exists tail. f_equal. rewrite <- (take_drop (S n') rest) at 1. by rewrite Ed.
    + intros (_ & Hne & Hq & rest' & Hs). apply app_inv_head in Hs. subst rest.
      assert (Hn : n = length v).
      { subst n. apply run_len_app; [by apply not_quote_all | by rewrite N.eqb_refl]. }
      rewrite Hn. destruct v as [|x v]; [done|].
      cbn [length]. rewrite <- (length_cons x v).
      rewrite drop_app_length, take_app_length. reflexivity.
  - rewrite andb_false_r. split; [done|].
    intros (_ & _ & _ & rest & Hs). by apply (startswith_false _ _ E) in Hs.
Qed.

Lemma match_type_attr_none prev s v :
  match_type_attr ua prev s = None → ¬ type_attr_at ua prev s v.
Proof. intros H Hv. apply match_type_attr_some in Hv. congruence. Qed.

Lemma type_attr_at_inj prev prev' s v v' :
  type_attr_at ua prev s v → type_attr_at ua prev' s v' → v = v'.
Proof.
  intros (_ & _ & Hq & rest & ->) (_ & _ & Hq' & rest' & Hs).
  apply app_inv_head in Hs. by eapply split_at_first.
Qed.

Lemma match_attrs_sound prev s :
  match match_attrs ua prev s with
  | Some v => attrs_match ua prev s v
  | None => ∀ run tail v, s = run ++ tail → gt_sign ∉ run →
                          ¬ type_attr_at ua (last_cp prev run) tail v
  end.
Proof.
  revert prev. induction s as [|c t IH]; intros prev.
  - cbn [match_attrs]. destruct (match_type_attr ua prev []) as [v|] eqn:E.
    + apply match_type_attr_some in E. exists [], []. split_and!; try done.
      * apply not_elem_of_nil.
      * intros run' tail' v' Hs _ _. symmetry in Hs.
        apply app_eq_nil in Hs as [-> _]. done.
    + intros run tail v Hs _. symmetry in Hs. apply app_eq_nil in Hs as [-> ->].
      by apply match_type_attr_none.
  - cbn [match_attrs]. destruct (N.eqb_spec c gt_sign) as [->|Hc]; simpl.
    + (* [>] cannot be taken into the run *)
      assert (Hrun : ∀ run tail, gt_sign :: t = run ++ tail → gt_sign ∉ run → run = []).
      { intros [|x run] tail Hs Hnin; [done|]. injection Hs as <- _.
        exfalso. apply Hnin. by left. }
      destruct (match_type_attr ua prev (gt_sign :: t)) as [v|] eqn:E.
      * apply match_type_attr_some in E. exists [], (gt_sign :: t).
        split_and!; try done; [apply not_elem_of_nil|].
        intros run' tail' v' Hs Hnin _. by rewrite (Hrun _ _ Hs Hnin).
      * intros run tail v Hs Hnin. pose proof (Hrun _ _ Hs Hnin) as ->.
        rewrite app_nil_l in Hs. subst tail. by apply match_type_attr_none.
    + specialize (IH c). destruct (match_attrs ua c t) as [v|] eqn:Et.
      * destruct IH as (run & tail & -> & Hnin & Hat & Hmax).
        exists (c :: run), tail. split_and!; [done | | by rewrite last_cp_cons |].
        { apply not_elem_of_cons. by split. }
        intros [|x run'] tail' v' Hs Hnin' Hat'; [simpl; lia|].
        injection Hs as <- Hs. rewrite last_cp_cons in Hat'.
        specialize (Hmax run' tail' v' Hs).
        apply not_elem_of_cons in Hnin' as [_ Hnin']. simpl.
        specialize (Hmax Hnin' Hat'). lia.
      * destruct (match_type_attr ua prev (c :: t)) as [v|] eqn:E.
        -- apply match_type_attr_some in E. exists [], (c :: t).
           split_and!; try done; [apply not_elem_of_nil|].
           intros [|x run'] tail' v' Hs Hnin' Hat'; [done|].
           injection Hs as <- Hs. rewrite last_cp_cons in Hat'.
           apply not_elem_of_cons in Hnin' as [_ Hnin'].
           by apply (IH run' tail' v' Hs Hnin') in Hat'.
        -- intros [|x run] tail v Hs Hnin.
           ++ simpl in Hs. subst tail. by apply match_type_attr_none.
           ++ injection Hs as <- Hs. rewrite last_cp_cons.
              apply not_elem_of_cons in Hnin as [_ Hnin]. by apply IH.
Qed.

Lemma attrs_match_unique prev s v v' :
  attrs_match ua prev s v → attrs_match ua prev s v' → v = v'.
Proof.
  intros (run & tail & Hs & Hnin & Hat & Hmax) (run' & tail' & Hs' & Hnin' & Hat' & Hmax').
  assert (Hlen : length run = length run').
  { apply Nat.le_antisymm.
    - by eapply (Hmax' run tail v).
    - by eapply (Hmax run' tail' v'). }
  rewrite Hs in Hs'. apply app_inj_1 in Hs' as [<- <-]; [|done].
  by eapply type_attr_at_inj.
Qed.

Lemma match_attrs_some prev s v : match_attrs ua prev s = Some v ↔ attrs_match ua prev s v.
Proof.
  pose proof (match_attrs_sound prev s) as H.
  destruct (match_attrs ua prev s) as [g|]; split.
  - by intros [= <-].
  - intros Hv. f_equal. by eapply attrs_match_unique.
  - done.
  - intros (run & tail & Hs & Hnin & Hat & _). by apply (H run tail v Hs Hnin) in Hat.
Qed.

Lemma match_section_at_some s v : match_section_at ua s = Some v ↔ section_match ua s v.
Proof.
  unfold match_section_at, section_match.
  destruct (startswith section_open s) eqn:E.
  - apply startswith_app in E as [rest ->].
    change 8%nat with (length section_open). rewrite drop_app_length.
    rewrite match_attrs_some. split.
    + intros H. by exists rest.
    + intros (rest' & Hs & H). by apply app_inv_head in Hs as <-.
  - split; [done|]. intros (rest & Hs & _). by apply (startswith_false _ _ E) in Hs.
Qed.

Lemma section_match_unique s v v' : section_match ua s v → section_match ua s v' → v = v'.
Proof.
  intros (rest & -> & H) (rest' & Hs & H'). apply app_inv_head in Hs as <-.
  by eapply attrs_match_unique.
Qed.

Lemma search_section_type_sound s :
  match search_section_type ua s with
  | Some v => first_section_match ua s v
  | None => ∀ pre s' v, s = pre ++ s' → ¬ section_match ua s' v
  end.
Proof.
  induction s as [|c t IH]; cbn [search_section_type].
  - destruct (match_section_at ua []) as [v|] eqn:E.
    + apply match_section_at_some in E. exists [], []. split_and!; try done.
      intros; simpl; lia.
    + intros pre s' v Hs Hm. symmetry in Hs. apply app_eq_nil in Hs as [-> ->].
      apply match_section_at_some in Hm. congruence.
  - destruct (match_section_at ua (c :: t)) as [v|] eqn:E.
    + apply match_section_at_some in E. exists [], (c :: t). split_and!; try done.
      intros; simpl; lia.
    + assert (Hhere : ∀ v, ¬ section_match ua (c :: t) v).
      { intros v Hm. apply match_section_at_some in Hm. congruence. }
      destruct (search_section_type ua t) as [v|].
      * destruct IH as (pre & s & -> & Hm & Hfirst).
        exists (c :: pre), s. split_and!; try done.
        intros [|x pre'] s' v' Hs Hm'.
        -- simpl in Hs. subst s'. by apply Hhere in Hm'.
        -- injection Hs as <- Hs. specialize (Hfirst pre' s' v' Hs Hm'). simpl. lia.
      * intros [|x pre] s' v Hs Hm.
        -- simpl in Hs. subst s'. by apply Hhere in Hm.
        -- injection Hs as <- Hs. by apply (IH pre s' v Hs).
Qed.

Lemma first_section_match_unique s v v' :
  first_section_match ua s v → first_section_match ua s v' → v = v'.
Proof.
  intros (pre & r & Hs & Hm & Hfirst) (pre' & r' & Hs' & Hm' & Hfirst').
  assert (Hlen : length pre = length pre').
  { apply Nat.le_antisymm.
    - by eapply (Hfirst pre' r' v').
    - by eapply (Hfirst' pre r v). }
  rewrite Hs in Hs'. apply app_inj_1 in Hs' as [<- <-]; [|done].
  by eapply section_match_unique.
Qed.

Lemma search_section_type_some s v :
  search_section_type ua s = Some v ↔ first_section_match ua s v.
Proof.
  pose proof (search_section_type_sound s) as H.
  destruct (search_section_type ua s) as [g|]; split.
  - by intros [= <-].
  - intros Hv. f_equal. by eapply first_section_match_unique.
  - done.
  - intros (pre & r & Hs & Hm & _). by apply (H pre r v Hs) in Hm.
Qed.

(** C4, as the code has it: the level is 2 exactly when the leftmost match
    of the section pattern has the group [part]: the text [<section], a run
    without [>], and after a code point that is not a word character the
    attribute [epub:type] with a non-empty value between double quotes, the
    last such attribute of the run. Every other file has level 3. *)
Theorem extract_level_leftmost_match (content : pystr) :
  (extract_level ua content = 2 ↔ first_section_match ua content part_type) ∧
  (extract_level ua content = 2 ∨ extract_level ua content = 3).
Proof.
  unfold extract_level. rewrite <- search_section_type_some.
  destruct (search_section_type ua content) as [g|].
  - destruct (decide (g = part_type)) as [->|Hne].
    + split; [done | by left].
    + split; [|by right]. split; [done | by intros [= ->]].
  - split; [|by right]. split; [|done]. by destruct (decide _).
Qed.

End LevelFacts.

(** The part of the small book has level 2 and its preface level 3. *)
Lemma extract_level_book :
  extract_level no_unicode_alnum part_xhtml = 2 ∧
  first_section_match no_unicode_alnum part_xhtml part_type ∧
  extract_level no_unicode_alnum preface_xhtml = 3.
Proof.
  split_and!.
  - vm_compute. reflexivity.
  - apply (proj1 (extract_level_leftmost_match no_unicode_alnum part_xhtml)).
    vm_compute. reflexivity.
  - vm_compute. reflexivity.
Defined.

(** The claim, as stated, fails: a section tag whose [epub:type] is [part]
    has level 3 when the value stands between apostrophes, and when a later
    attribute of the tag has a name that ends in [epub:type]. *)
Lemma extract_level_misses_part :
  tag_carries_type apostrophe_section part_type ∧
  (∀ unicode_alnum, extract_level unicode_alnum apostrophe_section = 3) ∧
  tag_carries_type two_attr_section part_type ∧
  (∀ unicode_alnum, extract_level unicode_alnum two_attr_section = 3).
Proof.
  split_and!.
  - exists [], 39, [gt_sign]. split_and!; [done | apply not_elem_of_nil | by right |].
    apply (bool_decide_unpack _). vm_compute. exact I.
  - intros ua. vm_compute. reflexivity.
  - exists [], 34, (py " data-epub:type=" ++ q (py "chapter") ++ [gt_sign]).
    split_and!; [done | apply not_elem_of_nil | by left |].
    apply (bool_decide_unpack _). vm_compute. exact I.
  - intros ua. vm_compute. reflexivity.
Qed.

(** ** Reading a document *)

Lemma compatible_startswith p s X :
  compatible p s = false → startswith p (s ++ X) = false.
Proof.
  revert s. induction p as [|a p IH]; intros [|b s]; simpl; try done.
  intros H. destruct (a =? b); [by apply IH | done].
Qed.

Lemma element_at_incompatible opener closers s X :
  compatible opener s = false → element_at opener closers (s ++ X) = None.
Proof. intros H. unfold element_at. by rewrite compatible_startswith. Qed.

(** A text in which no occurrence of the opener starts is passed over. *)
Lemma elements_from_clean opener closers Q X :
  clean opener Q = true →
  elements_from opener closers 0 (Q ++ X) = elements_from opener closers 0 X.
Proof.
  induction Q as [|a Q IH]; [done|]. cbn [clean].
  intros [Hc HQ]%andb_true_iff. apply negb_true_iff in Hc.
  cbn [app elements_from]. change (a :: Q ++ X) with ((a :: Q) ++ X).
  rewrite element_at_incompatible by done. by apply IH.
Qed.

(** So is a text without the first code point of the opener. *)
Lemma elements_from_hole opener closers d o h X :
  opener = d :: o → d ∉ h →
  elements_from opener closers 0 (h ++ X) = elements_from opener closers 0 X.
Proof.
  intros -> Hd. induction h as [|a h IH]; [done|].
  apply not_elem_of_cons in Hd as [Hne Hd]. cbn [app elements_from].
  unfold element_at. cbn [startswith].
  destruct (N.eqb_spec d a) as [->|_]; [done|]. cbn [andb]. by apply IH.
Qed.

Lemma elements_from_skip opener closers u X :
  elements_from opener closers (length u) (u ++ X) = elements_from opener closers 0 X.
Proof. induction u as [|a u IH]; [done|]. cbn [length app elements_from]. apply IH. Qed.

Lemma run_len_until d v X :
  d ∉ v → run_len (fun x => negb (x =? d)) (v ++ d :: X) = length v.
Proof.
  induction v as [|a v IH]; intros Hd; cbn [app run_len length].
  - by rewrite N.eqb_refl.
  - apply not_elem_of_cons in Hd as [Hne Hd].
    destruct (N.eqb_spec a d) as [->|_]; [done|]. cbn [negb]. by rewrite IH.
Qed.

Lemma startswith_self p X : startswith p (p ++ X) = true.
Proof. induction p as [|a p IH]; [done|]. cbn. by rewrite N.eqb_refl, IH. Qed.

Lemma fields_at_text closers : ∀ vs X,
  fields_ok closers vs →
  fields_at closers (fields_text closers vs ++ X)
  = Some (vs, length (fields_text closers vs)).
Proof.
  induction closers as [|c closers IH]; intros [|v vs] X Hok; try done.
  - by destruct c.
  - destruct c as [|d c]; [done|]. destruct Hok as [Hd Hok].
    cbn [fields_text fields_at].
    replace ((v ++ (d :: c) ++ fields_text closers vs) ++ X)
      with (v ++ d :: (c ++ fields_text closers vs ++ X))
      by (by rewrite <- !app_assoc).
    rewrite run_len_until by done. rewrite drop_app_length, take_app_length.
    change (d :: c ++ fields_text closers vs ++ X)
      with ((d :: c) ++ fields_text closers vs ++ X).
    rewrite startswith_self.
    change (S (length c)) with (length (d :: c)). rewrite drop_app_length.
    rewrite IH by done. rewrite !length_app. do 2 f_equal. lia.
Qed.

Lemma element_at_text opener closers vs X :
  fields_ok closers vs →
  element_at opener closers (opener ++ fields_text closers vs ++ X)
  = Some (vs, (length opener + length (fields_text closers vs))%nat).
Proof.
  intros Hok. unfold element_at.
  by rewrite startswith_self, drop_app_length, fields_at_text.
Qed.

(** An element is read with its fields, and the reading goes on behind
    it. *)
Lemma elements_from_hit opener closers vs X :
  opener ≠ [] → fields_ok closers vs →
  elements_from opener closers 0 (opener ++ fields_text closers vs ++ X)
  = vs :: elements_from opener closers 0 X.
Proof.
  intros Hne Hok. destruct opener as [|d o]; [done|].
  cbn [app elements_from].
  change (d :: o ++ fields_text closers vs ++ X)
    with ((d :: o) ++ fields_text closers vs ++ X).
  rewrite element_at_text by done. f_equal.
  cbn [length]. rewrite Nat.add_succ_l, Nat.sub_succ, Nat.sub_0_r.
  rewrite <- length_app, app_assoc. apply elements_from_skip.
Qed.

Lemma elements_from_hit1 opener c v X :
  opener ≠ [] → fields_ok [c] [v] →
  elements_from opener [c] 0 (opener ++ v ++ c ++ X)
  = [v] :: elements_from opener [c] 0 X.
Proof.
  intros Hne Hok. rewrite <- (elements_from_hit opener [c] [v] X) by done.
  cbn [fields_text]. by rewrite <- !app_assoc.
Qed.

Lemma elements_from_hit2 opener c1 c2 v1 v2 X :
  opener ≠ [] → fields_ok [c1; c2] [v1; v2] →
  elements_from opener [c1; c2] 0 (opener ++ v1 ++ c1 ++ v2 ++ c2 ++ X)
  = [v1; v2] :: elements_from opener [c1; c2] 0 X.
Proof.
  intros Hne Hok. rewrite <- (elements_from_hit opener [c1; c2] [v1; v2] X) by done.
  cbn [fields_text]. by rewrite <- !app_assoc.
Qed.

(** The lines of a list are read one after the other. *)
Lemma elements_from_join {A} opener closers (render : A → pystr)
    (reading : A → list (list pystr)) (ls : list A) :
  clean opener newline = true →
  (∀ l, l ∈ ls → ∀ X,
     elements_from opener closers 0 (render l ++ X)
     = reading l ++ elements_from opener closers 0 X) →
  ∀ X,
    elements_from opener closers 0 (join newline (render <$> ls) ++ X)
    = concat (reading <$> ls) ++ elements_from opener closers 0 X.
Proof.
  intros Hnl. induction ls as [|l ls IH]; intros Hl X; [done|].
  destruct ls as [|l2 ls].
  - cbn [fmap list_fmap join concat]. rewrite Hl by (by left). by rewrite app_nil_r.
  - rewrite !fmap_cons, join_cons, <- !app_assoc, Hl by (by left).
    rewrite elements_from_clean by done. rewrite <- fmap_cons, IH.
    + cbn [concat]. by rewrite <- app_assoc.
    + intros l' Hl'. apply Hl. by right.
Qed.

(** ** The package document as it is read (C2) *)

Lemma plain_app a b : plain a → plain b → plain (a ++ b).
Proof.
  unfold plain. intros [? ?] [? ?]. split; intros [?|?]%elem_of_app; done.
Qed.

Lemma plain_prefix a b : plain (a ++ b) → plain a.
Proof.
  unfold plain. intros [H1 H2]. split; intros H; [apply H1 | apply H2];
    apply elem_of_app; by left.
Qed.

Lemma chapter_item_id_prefix f : ∃ rest, f = chapter_item_id f ++ rest.
Proof.
  unfold chapter_item_id, split_once.
  destruct (partition_at hyphen f) as [[a b]|] eqn:E.
  - apply partition_at_some in E as [-> _]. by eexists.
  - exists []. by rewrite app_nil_r.
Qed.

Lemma chapter_item_ok ch : plain (ch_filename ch) → item_ok (chapter_item ch).
Proof.
  intros Hf. unfold item_ok, chapter_item. cbn [item_id item_href item_media_type
    item_properties]. split_and!; [| | | done].
  - destruct (chapter_item_id_prefix (ch_filename ch)) as [rest E].
    rewrite E in Hf. by apply plain_prefix in Hf.
  - apply plain_app; [|done]. apply (bool_decide_unpack _). vm_compute. exact I.
  - apply (bool_decide_unpack _). vm_compute. exact I.
Qed.

(** The line of an item is read by the reader of the items as the id and
    the href of the item, and by the reader of the spine as nothing. *)
Lemma items_in_render_item it X :
  item_ok it →
  elements_from item_open [href_between; [quote]] 0 (render_item it ++ X)
  = [[item_id it; item_href it]]
    ++ elements_from item_open [href_between; [quote]] 0 X.
Proof.
  intros ([Hid1 Hid2] & [Hh1 Hh2] & Hmt & Hp). unfold render_item.
  change (pyq "    <item id='") with (py "    " ++ item_open).
  change (pyq "' href='") with href_between.
  change (pyq "' media-type='") with ([quote] ++ pyq " media-type='").
  rewrite <- !app_assoc.
  rewrite elements_from_clean by (vm_compute; reflexivity).
  rewrite elements_from_hit2; [|done|by cbn].
  cbn [app]. f_equal.
  rewrite elements_from_clean by (vm_compute; reflexivity).
  rewrite (elements_from_hole item_open _ _ _ (item_media_type it)) by done.
  rewrite elements_from_clean by (vm_compute; reflexivity).
  destruct (item_properties it) as [p|].
  - rewrite <- !app_assoc.
    rewrite elements_from_clean by (vm_compute; reflexivity).
    rewrite (elements_from_hole item_open _ _ _ p) by done.
    rewrite elements_from_clean by (vm_compute; reflexivity).
    by rewrite elements_from_clean by (vm_compute; reflexivity).
  - cbn [app]. by rewrite elements_from_clean by (vm_compute; reflexivity).
Qed.

Lemma itemrefs_in_render_item it X :
  item_ok it →
  elements_from itemref_open [[quote]] 0 (render_item it ++ X)
  = [] ++ elements_from itemref_open [[quote]] 0 X.
Proof.
  intros ([Hid1 Hid2] & [Hh1 Hh2] & Hmt & Hp). unfold render_item.
  rewrite <- !app_assoc.
  rewrite elements_from_clean by (vm_compute; reflexivity).
  rewrite (elements_from_hole itemref_open _ _ _ (item_id it)) by done.
  rewrite elements_from_clean by (vm_compute; reflexivity).
  rewrite (elements_from_hole itemref_open _ _ _ (item_href it)) by done.
  rewrite elements_from_clean by (vm_compute; reflexivity).
  rewrite (elements_from_hole itemref_open _ _ _ (item_media_type it)) by done.
  rewrite elements_from_clean by (vm_compute; reflexivity).
  destruct (item_properties it) as [p|].
  - rewrite <- !app_assoc.
    rewrite elements_from_clean by (vm_compute; reflexivity).
    rewrite (elements_from_hole itemref_open _ _ _ p) by done.
    rewrite elements_from_clean by (vm_compute; reflexivity).
    by rewrite elements_from_clean by (vm_compute; reflexivity).
  - cbn [app]. by rewrite elements_from_clean by (vm_compute; reflexivity).
Qed.

(** The line of a reference of the spine is read by the reader of the spine
    as the idref, and by the reader of the items as nothing. *)
Lemma itemrefs_in_render_itemref idref X :
  plain idref →
  elements_from itemref_open [[quote]] 0 (render_itemref idref ++ X)
  = [[idref]] ++ elements_from itemref_open [[quote]] 0 X.
Proof.
  intros [H1 H2]. unfold render_itemref.
  change (pyq "    <itemref idref='") with (py "    " ++ itemref_open).
  change (pyq "' />") with ([quote] ++ py " />").
  rewrite <- !app_assoc.
  rewrite elements_from_clean by (vm_compute; reflexivity).
  rewrite elements_from_hit1; [|done|by cbn].
  cbn [app]. by f_equal.
Qed.

Lemma items_in_render_itemref idref X :
  plain idref →
  elements_from item_open [href_between; [quote]] 0 (render_itemref idref ++ X)
  = [] ++ elements_from item_open [href_between; [quote]] 0 X.
Proof.
  intros [H1 H2]. unfold render_itemref. rewrite <- !app_assoc.
  rewrite elements_from_clean by (vm_compute; reflexivity).
  rewrite (elements_from_hole item_open _ _ _ idref) by done.
  by rewrite elements_from_clean by (vm_compute; reflexivity).
Qed.

Lemma concat_singletons {A B} (f : A → B) (l : list A) :
  concat ((fun x => [f x]) <$> l) = f <$> l.
Proof. induction l as [|x l IH]; [done|]. cbn. by rewrite <- IH. Qed.

Lemma concat_nils {A B} (l : list A) : concat ((fun _ => @nil B) <$> l) = [].
Proof. by induction l. Qed.

Lemma manifest_items_ok chapters :
  Forall (fun ch => plain (ch_filename ch)) chapters →
  Forall item_ok (manifest_items chapters).
Proof.
  intros H. unfold manifest_items. apply Forall_app. split.
  - apply (bool_decide_unpack _). vm_compute. exact I.
  - apply Forall_fmap. eapply Forall_impl; [exact H|]. intros ch. apply chapter_item_ok.
Qed.

Lemma spine_items_ok chapters :
  Forall (fun ch => plain (ch_filename ch)) chapters →
  Forall plain (spine_items chapters).
Proof.
  intros H. unfold spine_items. apply Forall_app. split.
  - apply (bool_decide_unpack _). vm_compute. exact I.
  - apply Forall_fmap. eapply Forall_impl; [exact H|]. intros ch Hf. cbn in *.
    destruct (chapter_item_id_prefix (ch_filename ch)) as [rest E].
    rewrite E in Hf. by apply plain_prefix in Hf.
Qed.

Ltac pass_text := rewrite elements_from_clean by (vm_compute; reflexivity).

(** The items a reader finds in the document are those of [manifest_items],
    in their order. *)
Lemma items_in_opf now chapters :
  Forall (fun ch => plain (ch_filename ch)) chapters → lt_sign ∉ now →
  items_in (build_content_opf now chapters)
  = (fun it => [item_id it; item_href it]) <$> manifest_items chapters.
Proof.
  intros Hch Hnow. unfold items_in, elements, build_content_opf. cbn [join].
  rewrite <- !app_assoc. repeat pass_text.
  rewrite (elements_from_hole item_open _ _ _ now) by done.
  repeat pass_text.
  rewrite (elements_from_join item_open _ render_item
             (fun it => [[item_id it; item_href it]])); [|done|].
  2:{ intros it Hit X. apply items_in_render_item.
      by apply (proj1 (Forall_forall _ _) (manifest_items_ok chapters Hch)). }
  repeat pass_text.
  rewrite (elements_from_join item_open _ render_itemref (fun _ => [])); [|done|].
  2:{ intros r Hr X. apply items_in_render_itemref.
      by apply (proj1 (Forall_forall _ _) (spine_items_ok chapters Hch)). }
  repeat pass_text. cbn [elements_from].
  by rewrite concat_singletons, concat_nils, !app_nil_r.
Qed.

(** The idrefs a reader finds in the document are those of [spine_items],
    in their order. *)
Lemma itemrefs_in_opf now chapters :
  Forall (fun ch => plain (ch_filename ch)) chapters → lt_sign ∉ now →
  itemrefs_in (build_content_opf now chapters)
  = (fun r => [r]) <$> spine_items chapters.
Proof.
  intros Hch Hnow. unfold itemrefs_in, elements, build_content_opf. cbn [join].
  rewrite <- !app_assoc. repeat pass_text.
  rewrite (elements_from_hole itemref_open _ _ _ now) by done.
  repeat pass_text.
  rewrite (elements_from_join itemref_open _ render_item (fun _ => [])); [|done|].
  2:{ intros it Hit X. apply itemrefs_in_render_item.
      by apply (proj1 (Forall_forall _ _) (manifest_items_ok chapters Hch)). }
  repeat pass_text.
  rewrite (elements_from_join itemref_open _ render_itemref (fun r => [[r]])); [|done|].
  2:{ intros r Hr X. apply itemrefs_in_render_itemref.
      by apply (proj1 (Forall_forall _ _) (spine_items_ok chapters Hch)). }
  repeat pass_text. cbn [elements_from].
  by rewrite concat_singletons, concat_nils, !app_nil_r.
Qed.

(** C2, as the code has it: when no filename holds a double quote or [<]
    (the time stamp holds no [<]), the items that are read in the document
    are the five static ones followed by one for each chapter in scan
    order, with the part of the filename before its first hyphen as id and
    [Text/<filename>] as href; the idrefs that are read in its spine are
    the three static ones followed by the ids of the chapters in scan order;
    and every idref that is read is the id of an item that is read. *)
Theorem opf_manifest_spine_order (now : pystr) (chapters : list chapter) :
  Forall (fun ch => plain (ch_filename ch)) chapters →
  lt_sign ∉ now →
  items_in (build_content_opf now chapters)
  = [ [py "cover-image"; py "Images/cover.jpg"];
      [py "style"; py "Styles/style.css"];
      [py "nav"; py "toc.xhtml"];
      [py "cover"; py "Text/cover.xhtml"];
      [py "title-page"; py "Text/title-page.xhtml"] ] ++
    ((fun ch => [chapter_item_id (ch_filename ch); py "Text/" ++ ch_filename ch])
       <$> chapters) ∧
  itemrefs_in (build_content_opf now chapters)
  = [ [py "cover"]; [py "title-page"]; [py "nav"] ] ++
    ((fun ch => [chapter_item_id (ch_filename ch)]) <$> chapters) ∧
  ∀ idref, [idref] ∈ itemrefs_in (build_content_opf now chapters) →
           ∃ href, [idref; href] ∈ items_in (build_content_opf now chapters).
Proof.
  intros Hch Hnow.
  rewrite items_in_opf, itemrefs_in_opf by done.
  unfold manifest_items, spine_items. rewrite !fmap_app, <- !list_fmap_compose.
  split_and!; [done | done |].
  intros idref [Hin|Hin]%elem_of_app.
  - assert (idref ∈ [py "cover"; py "title-page"; py "nav"]) as Hs.
    { apply list_elem_of_fmap in Hin as (r & [= ->] & Hr). exact Hr. }
    unfold static_manifest. cbn [fmap list_fmap item_id item_href].
    repeat (apply elem_of_cons in Hs as [->|Hs];
            [eexists; apply elem_of_app; left;
             repeat first [apply list_elem_of_here | apply list_elem_of_further]|]).
    by apply elem_of_nil in Hs.
  - apply list_elem_of_fmap in Hin as (ch & [= ->] & Hch').
    exists (text_href (ch_filename ch)). apply elem_of_app. right.
    apply list_elem_of_fmap. by exists ch.
Qed.

(** The three records of the small book. *)
Lemma opf_manifest_spine_order_book :
  items_in (build_content_opf stamp book_chapters)
  = [ [py "cover-image"; py "Images/cover.jpg"];
      [py "style"; py "Styles/style.css"];
      [py "nav"; py "toc.xhtml"];
      [py "cover"; py "Text/cover.xhtml"];
      [py "title-page"; py "Text/title-page.xhtml"] ] ++
    ((fun ch => [chapter_item_id (ch_filename ch); py "Text/" ++ ch_filename ch])
       <$> book_chapters) ∧
  itemrefs_in (build_content_opf stamp book_chapters)
  = [ [py "cover"]; [py "title-page"]; [py "nav"] ] ++
    ((fun ch => [chapter_item_id (ch_filename ch)]) <$> book_chapters) ∧
  ∀ idref, [idref] ∈ itemrefs_in (build_content_opf stamp book_chapters) →
           ∃ href, [idref; href] ∈ items_in (build_content_opf stamp book_chapters).
Proof.
  apply (opf_manifest_spine_order stamp book_chapters).
  - apply (bool_decide_unpack _). vm_compute. exact I.
  - apply (bool_decide_unpack _). vm_compute. exact I.
Defined.

(** The claim, as stated, fails: the name of a chapter file is written into
    the document as it is. For a name that holds double quotes the spine
    that is read holds the idref [x], and no item that is read has that
    id; the item of the chapter itself cannot be read. *)
Lemma opf_idref_without_item :
  discover_chapters no_unicode_alnum book_dir quoted_tree = Ok quoted_chapters ∧
  itemrefs_in (build_content_opf stamp quoted_chapters)
  = [ [py "x"]; [py "x-.xhtml"]; [py "cover"]; [py "title-page"]; [py "nav"];
      [py "ch"]; [py "x"] ] ∧
  items_in (build_content_opf stamp quoted_chapters)
  = [ [py "cover-image"; py "Images/cover.jpg"];
      [py "style"; py "Styles/style.css"];
      [py "nav"; py "toc.xhtml"];
      [py "cover"; py "Text/cover.xhtml"];
      [py "title-page"; py "Text/title-page.xhtml"] ] ∧
  ¬ (∀ idref, [idref] ∈ itemrefs_in (build_content_opf stamp quoted_chapters) →
              ∃ href, [idref; href] ∈ items_in (build_content_opf stamp quoted_chapters)).
Proof.
  assert (Hrefs : itemrefs_in (build_content_opf stamp quoted_chapters)
                  = [ [py "x"]; [py "x-.xhtml"]; [py "cover"]; [py "title-page"];
                      [py "nav"]; [py "ch"]; [py "x"] ])
    by (vm_compute; reflexivity).
  assert (Hitems : items_in (build_content_opf stamp quoted_chapters)
                   = [ [py "cover-image"; py "Images/cover.jpg"];
                       [py "style"; py "Styles/style.css"];
                       [py "nav"; py "toc.xhtml"];
                       [py "cover"; py "Text/cover.xhtml"];
                       [py "title-page"; py "Text/title-page.xhtml"] ])
    by (vm_compute; reflexivity).
  split_and!; [vm_compute; reflexivity | done | done |].
  intros H. destruct (H (py "x")) as [href Hin].
  - rewrite Hrefs. by left.
  - rewrite Hitems in Hin.
    repeat (apply elem_of_cons in Hin as [Hin|Hin]; [by vm_compute in Hin|]).
    by apply elem_of_nil in Hin.
Qed.

(** ** The navigation document (C1) *)

Section DictFacts.

Context {V : Type}.
Implicit Types (d : list (pystr * V)) (k : pystr) (v : V).

Lemma dict_get_app_last k v d :
  k ∉ d.*1 → dict_get k (d ++ [(k, v)]) = Some v.
Proof.
  induction d as [|[k' v'] d IH]; simpl; intros Hnin.
  - by rewrite decide_True.
  - apply not_elem_of_cons in Hnin as [Hne Hnin].
    rewrite decide_False by done. by apply IH.
Qed.

Lemma dict_set_app_last k v v' d :
  k ∉ d.*1 → dict_set k v' (d ++ [(k, v)]) = d ++ [(k, v')].
Proof.
  induction d as [|[k0 v0] d IH]; simpl; intros Hnin.
  - by rewrite decide_True.
  - apply not_elem_of_cons in Hnin as [Hne Hnin].
    rewrite decide_False by done. by rewrite IH.
Qed.

Lemma dict_set_fresh k v d : k ∉ d.*1 → dict_set k v d = d ++ [(k, v)].
Proof.
  induction d as [|[k0 v0] d IH]; simpl; intros Hnin; [done|].
  apply not_elem_of_cons in Hnin as [Hne Hnin].
  rewrite decide_False by done. by rewrite IH.
Qed.

Lemma dict_get_None k d : dict_get k d = None ↔ k ∉ d.*1.
Proof.
  induction d as [|[k0 v0] d IH]; simpl.
  - split; [intros _; apply not_elem_of_nil | done].
  - rewrite not_elem_of_cons. destruct (decide (k0 = k)) as [->|Hne].
    + split; [done | by intros [? _]].
    + rewrite IH. split; [by intros ?; split | by intros [_ ?]].
Qed.

Lemma dict_get_Some k v d : NoDup d.*1 → dict_get k d = Some v ↔ (k, v) ∈ d.
Proof.
  induction d as [|[k0 v0] d IH]; simpl; intros Hnd.
  - split; [done | by intros ?%elem_of_nil].
  - apply NoDup_cons in Hnd as [Hnin Hnd]. rewrite elem_of_cons.
    destruct (decide (k0 = k)) as [->|Hne].
    + split.
      * intros [= ->]. by left.
      * intros [[= ->]|Hin]; [done|]. exfalso. apply Hnin.
        apply list_elem_of_fmap. by exists (k, v).
    + rewrite IH by done. split; [by right|].
      intros [[= -> ->]|Hin]; [done | done].
Qed.

End DictFacts.

Lemma part_nodes_fst chapters :
  (part_nodes chapters).*1 = filter (fun ch => ch_level ch = 2) chapters.
Proof.
  induction chapters as [|ch l IH]; [done|]. cbn [part_nodes].
  unfold is_part. destruct (N.eqb_spec (ch_level ch) 2) as [E|E].
  - rewrite filter_cons_True by done. cbn. by rewrite IH.
  - by rewrite filter_cons_False.
Qed.

Lemma chapters_outline chapters :
  chapters =
  front_matter chapters ++ concat ((fun n => n.1 :: n.2) <$> part_nodes chapters).
Proof.
  induction chapters as [|ch l IH]; [done|]. cbn [part_nodes front_matter].
  destruct (is_part ch).
  - cbn. by rewrite <- IH.
  - cbn. by rewrite <- IH.
Qed.

Lemma outline_part ch l :
  is_part ch = true →
  part_nodes (ch :: l) = (ch, front_matter l) :: part_nodes l ∧
  front_matter (ch :: l) = [].
Proof. intros E. cbn. by rewrite E. Qed.

Lemma outline_chapter ch l :
  is_part ch = false →
  part_nodes (ch :: l) = part_nodes l ∧
  front_matter (ch :: l) = ch :: front_matter l.
Proof. intros E. cbn. by rewrite E. Qed.

Lemma toc_step_part st ch :
  is_part ch = true →
  toc_step st ch =
  Ok (TocState (front_items st)
        (dict_set (ch_id ch) (Part (ch_title ch) (text_href (ch_filename ch)) [])
           (parts_by_id st))
        (Some (ch_id ch))).
Proof. unfold toc_step, is_part. by intros ->. Qed.

Lemma toc_step_chapter st ch :
  is_part ch = false →
  toc_step st ch =
  match current_part_id st with
  | Some pid =>
      match dict_get pid (parts_by_id st) with
      | Some p =>
          Ok (TocState (front_items st)
                (dict_set pid
                   (Part (p_title p) (p_href p)
                      (p_children p ++ [entry_of ch]))
                   (parts_by_id st))
                (Some pid))
      | None => Raise KeyError
      end
  | None => Ok (TocState (front_items st ++ [entry_of ch]) (parts_by_id st) None)
  end.
Proof. unfold toc_step, is_part. by intros ->. Qed.

Lemma toc_scan_cons st ch l :
  toc_scan st (ch :: l) = toc_step st ch ≫= fun st' => toc_scan st' l.
Proof. done. Qed.

Lemma toc_scan_current d k t h cs front l :
  NoDup (d.*1 ++ k :: (ch_id <$> (part_nodes l).*1)) →
  ∃ cur,
    toc_scan (TocState front (d ++ [(k, Part t h cs)]) (Some k)) l =
    Ok (TocState front
          (d ++ (k, Part t h (cs ++ (entry_of <$> front_matter l)))
             :: (node_part <$> part_nodes l))
          cur).
Proof.
  revert d k t h cs. induction l as [|ch l IH]; intros d k t h cs Hnd.
  - exists (Some k). cbn. by rewrite app_nil_r.
  - assert (Hk : k ∉ d.*1).
    { apply NoDup_app in Hnd as (_ & Hdis & _). intros Hin.
      apply (Hdis _ Hin). by left. }
    rewrite toc_scan_cons. destruct (is_part ch) eqn:Ep.
    + destruct (outline_part ch l Ep) as [Hpn ->]. rewrite Hpn in *.
      rewrite toc_step_part by done.
      cbn [mbind result_bind front_items parts_by_id current_part_id].
      rewrite !fmap_cons in Hnd. cbn [fst] in Hnd.
      assert (Hfresh : ch_id ch ∉ (d ++ [(k, Part t h cs)]).*1).
      { rewrite fmap_app. cbn. intros Hin.
        apply NoDup_app in Hnd as (_ & Hdis & Hnd').
        apply NoDup_cons in Hnd' as [Hk' _].
        apply elem_of_app in Hin as [Hin|Hin].
        - apply (Hdis _ Hin). right. by left.
        - apply list_elem_of_singleton in Hin. apply Hk'. rewrite <- Hin. by left. }
      rewrite dict_set_fresh by done.
      destruct (IH (d ++ [(k, Part t h cs)]) (ch_id ch) (ch_title ch)
                  (text_href (ch_filename ch)) []) as [cur Hscan].
      { rewrite fmap_app. cbn. by rewrite <- app_assoc. }
      exists cur. rewrite Hscan. cbn. by rewrite app_nil_r, <- app_assoc.
    + destruct (outline_chapter ch l Ep) as [Hpn ->]. rewrite Hpn in *.
      rewrite toc_step_chapter by done.
      cbn [current_part_id parts_by_id front_items].
      rewrite dict_get_app_last by done.
      cbn [p_title p_href p_children]. rewrite dict_set_app_last by done.
      cbn [mbind result_bind].
      destruct (IH d k t h (cs ++ [entry_of ch])) as [cur Hscan]; [done|].
      exists cur. rewrite Hscan. cbn. by rewrite <- app_assoc.
Qed.

Lemma toc_scan_front front l :
  NoDup (ch_id <$> (part_nodes l).*1) →
  ∃ cur,
    toc_scan (TocState front [] None) l =
    Ok (TocState (front ++ (entry_of <$> front_matter l))
          (node_part <$> part_nodes l) cur).
Proof.
  revert front. induction l as [|ch l IH]; intros front Hnd.
  - exists None. cbn. by rewrite app_nil_r.
  - rewrite toc_scan_cons. destruct (is_part ch) eqn:Ep.
    + destruct (outline_part ch l Ep) as [Hpn ->]. rewrite Hpn in *.
      rewrite toc_step_part by done.
      cbn [mbind result_bind front_items parts_by_id current_part_id dict_set].
      destruct (toc_scan_current [] (ch_id ch) (ch_title ch)
                  (text_href (ch_filename ch)) [] front l) as [cur Hscan]; [done|].
      exists cur. cbn [app] in Hscan. rewrite Hscan. cbn. by rewrite app_nil_r.
    + destruct (outline_chapter ch l Ep) as [Hpn ->]. rewrite Hpn in *.
      rewrite toc_step_chapter by done.
      cbn [mbind result_bind front_items parts_by_id current_part_id].
      destruct (IH (front ++ [entry_of ch]) Hnd) as [cur Hscan].
      exists cur. rewrite Hscan. cbn. by rewrite <- app_assoc.
Qed.

(** The links of the rendered lines. *)

Lemma toc_links_app l1 l2 : toc_links (l1 ++ l2) = toc_links l1 ++ toc_links l2.
Proof. apply omap_app. Qed.

Lemma toc_links_skip l rest :
  link_of_line l = None → toc_links (l :: rest) = toc_links rest.
Proof. unfold toc_links. cbn. by intros ->. Qed.

Lemma toc_links_children cs : toc_links (LiChapter <$> cs) = ChildLinkOf <$> cs.
Proof. induction cs as [|c cs IH]; [done|]. cbn. f_equal. apply IH. Qed.

Lemma toc_links_front es : toc_links (LiFront <$> es) = FrontMatterLink <$> es.
Proof. induction es as [|e es IH]; [done|]. cbn. f_equal. apply IH. Qed.

Lemma toc_links_part_lines p : toc_links (part_lines p) = group_links (part_group p).
Proof.
  unfold part_lines, group_links, part_group. cbn [fst snd].
  destruct (p_children p) as [|c cs] eqn:E; [done|].
  rewrite !toc_links_app, toc_links_children.
  cbn [toc_links omap list_omap link_of_line app]. by rewrite ?app_nil_r.
Qed.

Lemma toc_links_parts ps :
  toc_links (concat (part_lines <$> ps)) = concat (group_links <$> (part_group <$> ps)).
Proof.
  induction ps as [|p ps IH]; [done|]. rewrite !fmap_cons. cbn [concat].
  by rewrite toc_links_app, toc_links_part_lines, IH.
Qed.

Lemma section_parts_spec parts pids used lines :
  ∃ used',
    section_parts parts pids used lines =
    (used', lines ++ concat (part_lines <$> selected parts pids)) ∧
    ∀ x, x ∈ used' ↔ x ∈ used ∨ (x ∈ pids ∧ x ∈ parts.*1).
Proof.
  revert used lines. induction pids as [|pid pids IH]; intros used lines.
  - exists used. cbn. rewrite app_nil_r. split; [done|].
    intros x. split; [by left|]. intros [?|[?%elem_of_nil _]]; done.
  - cbn [section_parts selected omap list_omap].
    destruct (dict_get pid parts) as [p|] eqn:E.
    + destruct (IH ({[pid]} ∪ used) (lines ++ part_lines p)) as (used' & -> & Hused).
      exists used'. split; [cbn; by rewrite <- app_assoc|].
      intros x. rewrite Hused, elem_of_union, elem_of_singleton, elem_of_cons.
      assert (pid ∈ parts.*1).
      { destruct (decide (pid ∈ parts.*1)); [done|].
        apply dict_get_None in n. congruence. }
      split; [|intros [?|[[->|?] ?]]; auto].
      intros [[->|?]|[? ?]]; auto.
    + destruct (IH used lines) as (used' & -> & Hused).
      exists used'. split; [done|].
      intros x. rewrite Hused, elem_of_cons. apply dict_get_None in E.
      split; [intros [?|[? ?]]; auto|].
      intros [?|[[->|?] ?]]; auto. done.
Qed.

Lemma major_sections_spec parts sections used lines :
  ∃ used' lines',
    major_sections parts sections used lines = (used', lines') ∧
    toc_links lines' =
      toc_links lines ++
      concat (group_links <$> (part_group <$> selected parts (concat sections.*2))) ∧
    ∀ x, x ∈ used' ↔ x ∈ used ∨ (x ∈ concat sections.*2 ∧ x ∈ parts.*1).
Proof.
  revert used lines. induction sections as [|[title pids] sections IH]; intros used lines.
  - exists used, lines. cbn. rewrite app_nil_r. split_and!; [done | done |].
    intros x. split; [by left|]. intros [?|[?%elem_of_nil _]]; done.
  - cbn [major_sections].
    destruct (section_parts_spec parts pids used
                (lines ++ [H2Section title; OlPartsOpen])) as (used1 & -> & Hused1).
    destruct (IH used1
                (((lines ++ [H2Section title; OlPartsOpen]) ++
                  concat (part_lines <$> selected parts pids)) ++ [OlClose]))
      as (used' & lines' & Hms & Hlinks & Hused).
    exists used', lines'. split; [exact Hms|].
    rewrite fmap_cons. cbn [snd concat]. split.
    + rewrite Hlinks. rewrite !toc_links_app, toc_links_parts.
      unfold selected. rewrite omap_app, !fmap_app, concat_app.
      cbn [toc_links omap list_omap link_of_line].
      by rewrite !app_nil_r, <- !app_assoc.
    + intros x. rewrite Hused, Hused1, elem_of_app. tauto.
Qed.

Lemma selected_orphans_perm (parts : list (pystr * part)) (pids : list pystr)
    (used : gset pystr) :
  NoDup parts.*1 → NoDup pids →
  (∀ x, x ∈ used ↔ x ∈ pids ∧ x ∈ parts.*1) →
  selected parts pids ++ (orphan_parts parts used).*2 ≡ₚ parts.*2.
Proof.
  intros Hnd Hpids Hused.
  assert (Hsel : omap (fun pid => (fun p => (pid, p)) <$> dict_get pid parts) pids
                 ≡ₚ filter (fun kv => kv.1 ∈ used) parts).
  { apply NoDup_Permutation.
    - clear Hused. induction pids as [|pid pids IH]; [constructor|].
      apply NoDup_cons in Hpids as [Hnin Hpids]. cbn.
      destruct (dict_get pid parts) as [p|]; cbn; [|by apply IH].
      apply NoDup_cons. split; [|by apply IH].
      intros Hin. apply list_elem_of_omap in Hin as (pid' & Hin' & Heq).
      destruct (dict_get pid' parts); [|done]. injection Heq as <- _. done.
    - apply NoDup_filter. by eapply NoDup_fmap_1.
    - intros [k p]. rewrite list_elem_of_omap, list_elem_of_filter. cbn. split.
      + intros (pid & Hin & Heq).
        destruct (dict_get pid parts) as [p'|] eqn:E; [|done].
        injection Heq as -> ->. apply dict_get_Some in E; [|done].
        split; [|done]. apply Hused. split; [done|].
        apply list_elem_of_fmap. by exists (k, p).
      + intros [Hk Hin]. apply Hused in Hk as [Hk _]. exists k. split; [done|].
        apply dict_get_Some in Hin; [|done]. by rewrite Hin. }
  assert (Hsel2 : selected parts pids
                  = (omap (fun pid => (fun p => (pid, p)) <$> dict_get pid parts) pids).*2).
  { unfold selected. clear. induction pids as [|pid pids IH]; [done|]. cbn.
    destruct (dict_get pid parts); cbn; by rewrite IH. }
  rewrite Hsel2, Hsel. unfold orphan_parts. rewrite <- fmap_app.
  apply fmap_Permutation. clear.
  induction parts as [|kv parts IH]; [done|].
  destruct (decide (kv.1 ∈ used)).
  - rewrite filter_cons_True, (filter_cons_False (fun kv => kv.1 ∉ used)) by auto.
    cbn. by rewrite IH.
  - rewrite filter_cons_False, (filter_cons_True (fun kv => kv.1 ∉ used)) by auto.
    rewrite <- Permutation_middle. by rewrite IH.
Qed.

Lemma node_part_keys nodes : (node_part <$> nodes).*1 = ch_id <$> nodes.*1.
Proof. rewrite <- !list_fmap_compose. by apply list_fmap_ext. Qed.

Lemma node_part_groups nodes :
  part_group <$> (node_part <$> nodes).*2 = node_group <$> nodes.
Proof. rewrite <- !list_fmap_compose. by apply list_fmap_ext. Qed.

Lemma links_of_groups (fronts : list chapter) (nodes : list (chapter * list chapter)) gs :
  gs ≡ₚ node_group <$> nodes →
  link_entry <$> ((fun ch => FrontMatterLink (entry_of ch)) <$> fronts) ++
                 concat (group_links <$> gs)
  ≡ₚ entry_of <$> (fronts ++ concat ((fun n => n.1 :: n.2) <$> nodes)).
Proof.
  intros Hgs. rewrite !fmap_app. apply Permutation_app.
  - rewrite <- list_fmap_compose. reflexivity.
  - rewrite Hgs. clear. induction nodes as [|[p cs] nodes IH]; [done|].
    cbn. rewrite !fmap_app, IH. cbn. rewrite <- !list_fmap_compose. done.
Qed.

(** The outline of the lines: when the level-2 records have pairwise
    distinct ids and the configuration names no part id twice, the links of
    the lines are the front-matter links of the records before the first
    level-2 record, in scan order, followed by the part nodes in some order,
    each as its part link followed by the links of its children in scan
    order. *)
Lemma toc_lines_outline
    (sections : list (pystr * list pystr)) (chapters : list chapter) :
  NoDup (ch_id <$> filter (fun ch => ch_level ch = 2) chapters) →
  NoDup (concat sections.*2) →
  ∃ lines gs,
    toc_lines sections chapters = Ok lines ∧
    build_toc_xhtml_for sections chapters = Ok (toc_document lines) ∧
    toc_links lines =
      ((fun ch => FrontMatterLink (entry_of ch)) <$> front_matter chapters) ++
      concat (group_links <$> gs) ∧
    gs ≡ₚ node_group <$> part_nodes chapters ∧
    link_entry <$> toc_links lines ≡ₚ entry_of <$> chapters.
Proof.
  intros Hids Hcfg. rewrite <- part_nodes_fst in Hids.
  destruct (toc_scan_front [] chapters Hids) as [cur Hscan].
  set (parts := node_part <$> part_nodes chapters) in *.
  destruct (major_sections_spec parts sections ∅
              ([OlFrontOpen] ++ (LiFront <$> (entry_of <$> front_matter chapters)) ++ [OlClose]))
    as (used & lines1 & Hms & Hlinks & Hused).
  set (orphans := orphan_parts parts used).
  set (lines := lines1 ++ match orphans with
                          | [] => []
                          | _ :: _ => [OlPartsOpen] ++ concat (part_lines <$> orphans.*2) ++ [OlClose]
                          end).
  assert (Hlines : toc_lines sections chapters = Ok lines).
  { unfold toc_lines. rewrite Hscan.
    cbn [mbind result_bind front_items parts_by_id app]. cbn [app] in Hms.
    fold parts. by rewrite Hms. }
  set (gs := part_group <$> (selected parts (concat sections.*2) ++ orphans.*2)).
  assert (Hgs : gs ≡ₚ node_group <$> part_nodes chapters).
  { unfold gs. rewrite <- node_part_groups. fold parts. apply fmap_Permutation.
    apply selected_orphans_perm; [by unfold parts; rewrite node_part_keys | done |].
    intros x. rewrite Hused. split; [intros [?%elem_of_empty|?]; done | by right]. }
  assert (Hl : toc_links lines =
               ((fun ch => FrontMatterLink (entry_of ch)) <$> front_matter chapters) ++
               concat (group_links <$> gs)).
  { unfold lines, gs. rewrite toc_links_app, Hlinks, !toc_links_app, toc_links_front.
    cbn [toc_links omap list_omap link_of_line app]. rewrite app_nil_r.
    rewrite <- list_fmap_compose, <- app_assoc. f_equal.
    rewrite fmap_app, fmap_app, concat_app. f_equal.
    destruct orphans as [|o os] eqn:Eo; [done|].
    rewrite toc_links_skip by done. rewrite toc_links_app, toc_links_parts.
    change (toc_links [OlClose]) with (@nil toc_link). by rewrite app_nil_r. }
  exists lines, gs. split_and!; try done.
  - unfold build_toc_xhtml_for. by rewrite Hlines.
  - rewrite Hl.
    etransitivity;
      [apply (links_of_groups (front_matter chapters) (part_nodes chapters) gs Hgs)|].
    by rewrite <- chapters_outline.
Qed.


(** ** The navigation document as it is read (C1) *)

Lemma h2_children cs : omap h2_title (LiChapter <$> cs) = [].
Proof. by induction cs. Qed.

Lemma h2_fronts es : omap h2_title (LiFront <$> es) = [].
Proof. by induction es. Qed.

Lemma h2_part_lines p : omap h2_title (part_lines p) = [].
Proof.
  unfold part_lines. destruct (p_children p) as [|c cs]; [done|].
  rewrite !omap_app, h2_children. done.
Qed.

Lemma h2_parts ps : omap h2_title (concat (part_lines <$> ps)) = [].
Proof.
  induction ps as [|p ps IH]; [done|]. rewrite fmap_cons. cbn [concat].
  by rewrite omap_app, h2_part_lines, IH.
Qed.

Lemma major_sections_h2 parts sections used lines :
  omap h2_title (major_sections parts sections used lines).2
  = omap h2_title lines ++ sections.*1.
Proof.
  revert used lines. induction sections as [|[title pids] sections IH]; intros used lines.
  - cbn. by rewrite app_nil_r.
  - cbn [major_sections].
    destruct (section_parts_spec parts pids used
                (lines ++ [H2Section title; OlPartsOpen])) as (used1 & -> & _).
    rewrite IH, !omap_app, h2_parts. cbn. by rewrite !app_nil_r, <- app_assoc.
Qed.

(** The headings of the lines are the titles of the configuration. *)
Lemma toc_lines_h2 sections chapters lines :
  toc_lines sections chapters = Ok lines → omap h2_title lines = sections.*1.
Proof.
  unfold toc_lines. destruct (toc_scan _ chapters) as [st|e]; [|done].
  cbn [mbind result_bind].
  pose proof (major_sections_h2 (parts_by_id st) sections ∅
                ([OlFrontOpen] ++ (LiFront <$> front_items st) ++ [OlClose])) as H.
  destruct (major_sections _ _ _ _) as [used lines1]. cbn [snd] in H.
  intros [= <-]. rewrite omap_app, H, !omap_app, h2_fronts. cbn [omap list_omap h2_title app].
  destruct (orphan_parts (parts_by_id st) used) as [|o os]; [by rewrite app_nil_r|].
  change (OlPartsOpen :: concat (part_lines <$> (o :: os).*2) ++ [OlClose])
    with ([OlPartsOpen] ++ concat (part_lines <$> (o :: os).*2) ++ [OlClose]).
  rewrite !omap_app, h2_parts. cbn. by rewrite app_nil_r.
Qed.

Ltac pass_line := rewrite elements_from_clean by (vm_compute; reflexivity).

Ltac pass_hole h :=
  rewrite (elements_from_hole _ _ _ _ h) by (reflexivity || assumption).

Ltac pass_entry e :=
  rewrite <- !app_assoc; pass_line; pass_hole (e_href e); pass_line;
  pass_hole (e_title e); by pass_line.

(** What each reader finds in a line. *)
Lemma links_render_line l X :
  line_ok l →
  elements_from a_open [a_href_end; a_end] 0 (render_line l ++ X)
  = line_links l ++ elements_from a_open [a_href_end; a_end] 0 X.
Proof.
  destruct l as [|e| |title| | |href title| |e| |];
    cbn [render_line line_links line_ok]; intros H; try by pass_line.
  - destruct H as (Ht & Hh1 & Hh2).
    change (pyq "      <li class='toc-front'><a href='")
      with (pyq "      <li class='toc-front'>" ++ a_open).
    change (pyq "'>") with a_href_end.
    change (py "</a></li>") with (a_end ++ py "</li>").
    rewrite <- !app_assoc. pass_line.
    rewrite elements_from_hit2; [|done|by cbn]. cbn [app]. by f_equal.
  - rewrite <- !app_assoc. pass_line. pass_hole title. by pass_line.
  - destruct H as (Ht & Hh1 & Hh2). cbn [e_title e_href] in *.
    change (pyq "        <a href='") with (py "        " ++ a_open).
    change (pyq "'>") with a_href_end. change (py "</a>") with a_end.
    rewrite <- !app_assoc. pass_line.
    by rewrite elements_from_hit2; [|done|by cbn].
  - destruct H as (Ht & Hh1 & Hh2).
    change (pyq "          <li><a href='") with (py "          <li>" ++ a_open).
    change (pyq "'>") with a_href_end.
    change (py "</a></li>") with (a_end ++ py "</li>").
    rewrite <- !app_assoc. pass_line.
    rewrite elements_from_hit2; [|done|by cbn]. cbn [app]. by f_equal.
Qed.

Lemma front_links_render_line l X :
  line_ok l →
  elements_from front_open [a_href_end; a_end] 0 (render_line l ++ X)
  = line_front_links l ++ elements_from front_open [a_href_end; a_end] 0 X.
Proof.
  destruct l as [|e| |title| | |href title| |e| |];
    cbn [render_line line_front_links line_ok]; intros H; try by pass_line.
  - destruct H as (Ht & Hh1 & Hh2).
    change (pyq "      <li class='toc-front'><a href='") with (py "      " ++ front_open).
    change (pyq "'>") with a_href_end.
    change (py "</a></li>") with (a_end ++ py "</li>").
    rewrite <- !app_assoc. pass_line.
    rewrite elements_from_hit2; [|done|by cbn]. cbn [app]. by f_equal.
  - rewrite <- !app_assoc. pass_line. pass_hole title. by pass_line.
  - destruct H as (Ht & Hh1 & Hh2). cbn [e_title e_href] in *.
    rewrite <- !app_assoc. pass_line. pass_hole href. pass_line. pass_hole title.
    by pass_line.
  - destruct H as (Ht & Hh1 & Hh2). pass_entry e.
Qed.

Lemma child_links_render_line l X :
  line_ok l →
  elements_from child_open [a_href_end; a_end] 0 (render_line l ++ X)
  = line_child_links l ++ elements_from child_open [a_href_end; a_end] 0 X.
Proof.
  destruct l as [|e| |title| | |href title| |e| |];
    cbn [render_line line_child_links line_ok]; intros H; try by pass_line.
  - destruct H as (Ht & Hh1 & Hh2). pass_entry e.
  - rewrite <- !app_assoc. pass_line. pass_hole title. by pass_line.
  - destruct H as (Ht & Hh1 & Hh2). cbn [e_title e_href] in *.
    rewrite <- !app_assoc. pass_line. pass_hole href. pass_line. pass_hole title.
    by pass_line.
  - destruct H as (Ht & Hh1 & Hh2).
    change (pyq "          <li><a href='") with (py "          " ++ child_open).
    change (pyq "'>") with a_href_end.
    change (py "</a></li>") with (a_end ++ py "</li>").
    rewrite <- !app_assoc. pass_line.
    rewrite elements_from_hit2; [|done|by cbn]. cbn [app]. by f_equal.
Qed.

(** What each reader finds in the document is what it finds in the lines of
    the body, one after the other. *)
Lemma links_in_document lines :
  Forall line_ok lines →
  elements a_open [a_href_end; a_end] (toc_document lines)
  = concat (line_links <$> lines).
Proof.
  intros Hok. unfold elements, toc_document. cbn [join]. repeat pass_line.
  rewrite (elements_from_join a_open _ render_line line_links); [|done|].
  2:{ intros l Hl X. apply links_render_line.
      by apply (proj1 (Forall_forall _ _) Hok). }
  repeat pass_line. cbn [elements_from]. by rewrite app_nil_r.
Qed.

Lemma front_links_in_document lines :
  Forall line_ok lines →
  elements front_open [a_href_end; a_end] (toc_document lines)
  = concat (line_front_links <$> lines).
Proof.
  intros Hok. unfold elements, toc_document. cbn [join]. repeat pass_line.
  rewrite (elements_from_join front_open _ render_line line_front_links); [|done|].
  2:{ intros l Hl X. apply front_links_render_line.
      by apply (proj1 (Forall_forall _ _) Hok). }
  repeat pass_line. cbn [elements_from]. by rewrite app_nil_r.
Qed.

Lemma child_links_in_document lines :
  Forall line_ok lines →
  elements child_open [a_href_end; a_end] (toc_document lines)
  = concat (line_child_links <$> lines).
Proof.
  intros Hok. unfold elements, toc_document. cbn [join]. repeat pass_line.
  rewrite (elements_from_join child_open _ render_line line_child_links); [|done|].
  2:{ intros l Hl X. apply child_links_render_line.
      by apply (proj1 (Forall_forall _ _) Hok). }
  repeat pass_line. cbn [elements_from]. by rewrite app_nil_r.
Qed.

Lemma line_links_entries lines :
  entry_of_fields <$> concat (line_links <$> lines) = link_entry <$> toc_links lines.
Proof.
  induction lines as [|l lines IH]; [done|]. rewrite fmap_cons. cbn [concat].
  rewrite fmap_app, IH. by destruct l as [|[]| | | | | | |[]| |].
Qed.

Lemma line_front_links_entries lines :
  entry_of_fields <$> concat (line_front_links <$> lines)
  = omap front_entry (toc_links lines).
Proof.
  induction lines as [|l lines IH]; [done|]. rewrite fmap_cons. cbn [concat].
  rewrite fmap_app, IH. by destruct l as [|[]| | | | | | |[]| |].
Qed.

Lemma line_child_links_entries lines :
  entry_of_fields <$> concat (line_child_links <$> lines)
  = omap child_entry (toc_links lines).
Proof.
  induction lines as [|l lines IH]; [done|]. rewrite fmap_cons. cbn [concat].
  rewrite fmap_app, IH. by destruct l as [|[]| | | | | | |[]| |].
Qed.

Lemma front_entries_fronts (es : list entry) :
  omap front_entry (FrontMatterLink <$> es) = es.
Proof. induction es as [|e es IH]; [done|]. cbn. by rewrite IH. Qed.

Lemma child_entries_fronts (es : list entry) :
  omap child_entry (FrontMatterLink <$> es) = [].
Proof. by induction es. Qed.

Lemma front_entries_groups gs : omap front_entry (concat (group_links <$> gs)) = [].
Proof.
  induction gs as [|[p cs] gs IH]; [done|]. rewrite fmap_cons. cbn [concat].
  rewrite omap_app, IH, app_nil_r. unfold group_links. cbn. clear.
  by induction cs.
Qed.

Lemma child_entries_groups gs :
  omap child_entry (concat (group_links <$> gs)) = concat (snd <$> gs).
Proof.
  induction gs as [|[p cs] gs IH]; [done|]. rewrite !fmap_cons. cbn [concat].
  rewrite omap_app, IH. f_equal. unfold group_links. cbn. clear.
  induction cs as [|c cs IH]; [done|]. cbn. by rewrite IH.
Qed.

Lemma link_entries_groups gs :
  link_entry <$> concat (group_links <$> gs)
  = concat ((fun g : entry * list entry => g.1 :: g.2) <$> gs).
Proof.
  induction gs as [|[p cs] gs IH]; [done|]. rewrite !fmap_cons. cbn [concat].
  rewrite fmap_app, IH. f_equal. unfold group_links. cbn. f_equal.
  rewrite <- list_fmap_compose. by rewrite list_fmap_id.
Qed.

Lemma text_href_plain f : plain f → plain (text_href f).
Proof.
  intros H. apply plain_app; [|done]. apply (bool_decide_unpack _). vm_compute. exact I.
Qed.

(** Every field of the lines can be read back when the titles hold no [<],
    the filenames neither [<] nor a double quote, and the headings of the
    configuration no [<]. *)
Lemma toc_lines_ok sections chapters lines :
  toc_lines sections chapters = Ok lines →
  link_entry <$> toc_links lines ≡ₚ entry_of <$> chapters →
  Forall (fun ch => (lt_sign ∉ ch_title ch) ∧ plain (ch_filename ch)) chapters →
  Forall (fun s => lt_sign ∉ s.1) sections →
  Forall line_ok lines.
Proof.
  intros Hlines Hperm Hch Hsec.
  assert (Hentry : ∀ k, k ∈ toc_links lines → entry_ok (link_entry k)).
  { intros k Hk.
    assert (link_entry k ∈ entry_of <$> chapters) as Hin.
    { rewrite <- Hperm. apply list_elem_of_fmap. by exists k. }
    apply list_elem_of_fmap in Hin as (ch & -> & Hin).
    destruct (proj1 (Forall_forall _ _) Hch _ Hin) as [Ht Hf].
    split; [done|]. by apply text_href_plain. }
  apply Forall_forall. intros l Hl.
  destruct l as [|e| |title| | |href title| |e| |]; cbn [line_ok]; try done.
  - apply (Hentry (FrontMatterLink e)). apply list_elem_of_omap. by exists (LiFront e).
  - assert (title ∈ sections.*1) as Hin.
    { rewrite <- (toc_lines_h2 _ _ _ Hlines). apply list_elem_of_omap.
      by exists (H2Section title). }
    apply list_elem_of_fmap in Hin as (sec & -> & Hin).
    by apply (proj1 (Forall_forall _ _) Hsec).
  - apply (Hentry (PartLinkOf (Entry title href))). apply list_elem_of_omap.
    by exists (PartLink href title).
  - apply (Hentry (ChildLinkOf e)). apply list_elem_of_omap. by exists (LiChapter e).
Qed.

(** C1, as the code has it: when the level-2 records have pairwise distinct
    ids, the configuration names no part id twice, no title and no heading
    of the configuration holds [<] and no filename holds [<] or a double
    quote, the links that are read in the navigation document are the
    links of the records before the first level-2 record, in scan order,
    each in an item of the front-matter list, followed by the part nodes in
    some order, each as the link of the level-2 record followed by the links
    of the records up to the next level-2 record, in scan order, each in an
    item of the chapter list of the part; so every record has exactly one
    link, with its title as text, and the link points at
    [Text/<filename>]. *)
Theorem toc_links_exactly_once
    (sections : list (pystr * list pystr)) (chapters : list chapter) :
  NoDup (ch_id <$> filter (fun ch => ch_level ch = 2) chapters) →
  NoDup (concat sections.*2) →
  Forall (fun ch => (lt_sign ∉ ch_title ch) ∧ plain (ch_filename ch)) chapters →
  Forall (fun s => lt_sign ∉ s.1) sections →
  ∃ doc gs,
    build_toc_xhtml_for sections chapters = Ok doc ∧
    links_in doc =
      (entry_of <$> front_matter chapters) ++
      concat ((fun g : entry * list entry => g.1 :: g.2) <$> gs) ∧
    gs ≡ₚ node_group <$> part_nodes chapters ∧
    front_links_in doc = entry_of <$> front_matter chapters ∧
    child_links_in doc = concat (snd <$> gs) ∧
    links_in doc ≡ₚ entry_of <$> chapters.
Proof.
  intros Hids Hcfg Hch Hsec.
  destruct (toc_lines_outline sections chapters Hids Hcfg)
    as (lines & gs & Hlines & Hdoc & Hlinks & Hgs & Hperm).
  pose proof (toc_lines_ok _ _ _ Hlines Hperm Hch Hsec) as Hok.
  exists (toc_document lines), gs.
  assert (Hall : links_in (toc_document lines) = link_entry <$> toc_links lines).
  { unfold links_in. by rewrite links_in_document, line_links_entries. }
  split_and!; [done | | done | | | by rewrite Hall].
  - rewrite Hall, Hlinks, fmap_app, link_entries_groups, <- list_fmap_compose. done.
  - unfold front_links_in.
    rewrite front_links_in_document, line_front_links_entries, Hlinks by done.
    rewrite omap_app, front_entries_groups, app_nil_r.
    rewrite (list_fmap_compose entry_of FrontMatterLink). apply front_entries_fronts.
  - unfold child_links_in.
    rewrite child_links_in_document, line_child_links_entries, Hlinks by done.
    rewrite omap_app, child_entries_groups.
    rewrite (list_fmap_compose entry_of FrontMatterLink). by rewrite child_entries_fronts.
Qed.

(** The small book: one front-matter link, and one part with one child. *)
Lemma toc_links_exactly_once_book :
  ∃ doc gs,
    build_toc_xhtml_for MAJOR_SECTIONS book_chapters = Ok doc ∧
    links_in doc =
      (entry_of <$> front_matter book_chapters) ++
      concat ((fun g : entry * list entry => g.1 :: g.2) <$> gs) ∧
    gs ≡ₚ node_group <$> part_nodes book_chapters ∧
    front_links_in doc = entry_of <$> front_matter book_chapters ∧
    child_links_in doc = concat (snd <$> gs) ∧
    links_in doc ≡ₚ entry_of <$> book_chapters.
Proof.
  apply (toc_links_exactly_once MAJOR_SECTIONS book_chapters).
  - apply (bool_decide_unpack _). vm_compute. exact I.
  - apply (bool_decide_unpack _). vm_compute. exact I.
  - apply (bool_decide_unpack _). vm_compute. exact I.
  - apply (bool_decide_unpack _). vm_compute. exact I.
Defined.

(** The claim, as stated, fails. Two parts with the same slug are scanned
    from a directory; the second replaces the first in the dict, and neither
    the first part nor its chapter has a link. A configuration that names a
    part twice gives the part two links. A title that holds a tag that is
    not closed is written into the document as it is: the text [<a href=]
    and a quote occur twice in the document and no link can be read. *)
Lemma toc_links_lost_or_doubled :
  discover_chapters no_unicode_alnum book_dir twin_tree = Ok twin_chapters ∧
  links_in <$> build_toc_xhtml_for MAJOR_SECTIONS twin_chapters =
    Ok [Entry (py "Flow in Love") (py "Text/ch003-flow.xhtml")] ∧
  links_in <$> build_toc_xhtml_for twice_sections (take 1 twin_chapters) =
    Ok [Entry (py "Flow in Love") (py "Text/ch001-flow.xhtml");
        Entry (py "Flow in Love") (py "Text/ch001-flow.xhtml")] ∧
  discover_chapters no_unicode_alnum book_dir markup_tree = Ok markup_chapters ∧
  links_in <$> build_toc_xhtml_for MAJOR_SECTIONS markup_chapters = Ok [] ∧
  (fun doc => length (elements a_open [] doc))
    <$> build_toc_xhtml_for MAJOR_SECTIONS markup_chapters = Ok 2%nat.
Proof. split_and!; vm_compute; reflexivity. Qed.

(** ** The stages of the build (C8, C9) *)

Lemma M_bind_raise {A B} (m : M A) (f : A → M B) w e w' :
  m w = (Raise e, w') → (m ≫= f) w = (Raise e, w').
Proof. unfold mbind, M_bind. by intros ->. Qed.

Lemma M_bind_ok {A B} (m : M A) (f : A → M B) w a w' :
  m w = (Ok a, w') → (m ≫= f) w = f a w'.
Proof. unfold mbind, M_bind. by intros ->. Qed.

Section BuildFacts.

Context (ua : N → bool) (SCRIPT_DIR : path) (now : pystr)
        (prettier : list path → node → proc_outcome * node)
        (file_size : node → N).

Lemma scan_files_raises t filenames f e :
  f ∈ filenames →
  read_text (TEXT_DIR SCRIPT_DIR ++ [f]) t = Raise e →
  ∃ e', scan_files ua SCRIPT_DIR t filenames = Raise e'.
Proof.
  intros Hin Hread. induction filenames as [|g rest IH]; [by apply elem_of_nil in Hin|].
  cbn [scan_files]. unfold scan_file.
  apply elem_of_cons in Hin as [<-|Hin].
  - rewrite Hread. by exists e.
  - destruct (read_text (TEXT_DIR SCRIPT_DIR ++ [g]) t) as [s|e1];
      cbn [mbind result_bind]; [|by exists e1].
    destruct (IH Hin) as [e' ->]. by exists e'.
Qed.

Lemma discover_chapters_raises t :
  (∃ e, listdir (TEXT_DIR SCRIPT_DIR) t = Raise e) ∨
  (∃ names f e,
     listdir (TEXT_DIR SCRIPT_DIR) t = Ok names ∧ f ∈ names ∧ qualifies f = true ∧
     read_text (TEXT_DIR SCRIPT_DIR ++ [f]) t = Raise e) →
  ∃ e, discover_chapters ua SCRIPT_DIR t = Raise e.
Proof.
  unfold discover_chapters. intros [[e ->]|(names & f & e & -> & Hin & Hq & Hread)].
  - by exists e.
  - cbn [mbind result_bind]. apply (scan_files_raises t _ f e); [|done].
    unfold sorted. rewrite (merge_sort_Permutation str_le).
    by apply list_elem_of_filter.
Qed.

Lemma discover_step_raises w e :
  discover_chapters ua SCRIPT_DIR (tree w) = Raise e →
  discover_step ua SCRIPT_DIR w =
  (Raise e, World (tree w) (stdout w ++ [MsgSource; MsgDiscovering])).
Proof.
  intros H. unfold discover_step, mbind, M_bind, print, reading. cbn [tree stdout].
  rewrite H. by rewrite <- app_assoc.
Qed.

(** C8: when the chapter directory cannot be listed, or a chapter file
    cannot be read, [discover_chapters] raises, [build_epub] raises the same
    exception, and the file system is the one the run started with: two
    lines were printed, no file was written and no archive made. *)
Theorem discovery_failure_aborts (w : world) :
  (∃ e, listdir (TEXT_DIR SCRIPT_DIR) (tree w) = Raise e) ∨
  (∃ names f e,
     listdir (TEXT_DIR SCRIPT_DIR) (tree w) = Ok names ∧ f ∈ names ∧
     qualifies f = true ∧
     read_text (TEXT_DIR SCRIPT_DIR ++ [f]) (tree w) = Raise e) →
  ∃ e,
    discover_chapters ua SCRIPT_DIR (tree w) = Raise e ∧
    build_epub ua SCRIPT_DIR now prettier file_size w =
    (Raise e, World (tree w) (stdout w ++ [MsgSource; MsgDiscovering])).
Proof.
  intros H. destruct (discover_chapters_raises (tree w) H) as [e He].
  exists e. split; [done|]. unfold build_epub.
  apply M_bind_raise. by apply discover_step_raises.
Qed.

Lemma format_step_recovers chapters w :
  formatter_failed (prettier (generated_files SCRIPT_DIR chapters) (tree w)).1 →
  format_step SCRIPT_DIR prettier chapters w =
  (Ok tt,
   World (prettier (generated_files SCRIPT_DIR chapters) (tree w)).2
         (stdout w ++ [MsgFormatting; MsgPrettierSkipped])).
Proof.
  intros Hfail. unfold format_step, try_except, run_prettier, mbind, M_bind, print.
  cbn [tree stdout].
  destruct (prettier (generated_files SCRIPT_DIR chapters) (tree w)) as [outcome t].
  cbn [fst snd] in *. destruct Hfail as [->|(n & Hn & ->)].
  - cbn. by rewrite <- app_assoc.
  - destruct n as [|p]; [done|]. cbn. by rewrite <- app_assoc.
Qed.

Lemma format_step_undecodable chapters w n :
  (prettier (generated_files SCRIPT_DIR chapters) (tree w)).1 = Exited n false →
  format_step SCRIPT_DIR prettier chapters w =
  (Raise UnicodeDecodeError,
   World (prettier (generated_files SCRIPT_DIR chapters) (tree w)).2
         (stdout w ++ [MsgFormatting])).
Proof.
  intros Hout. unfold format_step, try_except, run_prettier, mbind, M_bind, print.
  cbn [tree stdout].
  destruct (prettier (generated_files SCRIPT_DIR chapters) (tree w)) as [outcome t].
  simpl in Hout. subst outcome. by destruct n.
Qed.

(** C9, as the code has it: when the formatter cannot be found, or exits
    with a failure status after writing output that is text, step 3 returns
    normally with the warning printed, and [build_epub] goes on with the
    packaging step; when the output of the formatter is not text, step 3
    raises [UnicodeDecodeError], whatever the status; an exception of the
    discovery, of the writing of either document or of the packaging ends
    [build_epub] with that exception. *)
Theorem formatter_failure_is_recovered (w : world) (chapters : list chapter) :
  (formatter_failed (prettier (generated_files SCRIPT_DIR chapters) (tree w)).1 →
   format_step SCRIPT_DIR prettier chapters w =
   (Ok tt,
    World (prettier (generated_files SCRIPT_DIR chapters) (tree w)).2
          (stdout w ++ [MsgFormatting; MsgPrettierSkipped]))) ∧
  (∀ n, (prettier (generated_files SCRIPT_DIR chapters) (tree w)).1 = Exited n false →
        format_step SCRIPT_DIR prettier chapters w =
        (Raise UnicodeDecodeError,
         World (prettier (generated_files SCRIPT_DIR chapters) (tree w)).2
               (stdout w ++ [MsgFormatting]))) ∧
  (∀ w0 w1 w2,
     discover_step ua SCRIPT_DIR w = (Ok chapters, w0) →
     write_toc_step SCRIPT_DIR chapters w0 = (Ok tt, w1) →
     write_opf_step SCRIPT_DIR now chapters w1 = (Ok tt, w2) →
     (formatter_failed (prettier (generated_files SCRIPT_DIR chapters) (tree w2)).1 →
      build_epub ua SCRIPT_DIR now prettier file_size w =
      (package_epub SCRIPT_DIR;; report_step SCRIPT_DIR file_size chapters)
        (World (prettier (generated_files SCRIPT_DIR chapters) (tree w2)).2
               (stdout w2 ++ [MsgFormatting; MsgPrettierSkipped]))) ∧
     (∀ w3 e w', format_step SCRIPT_DIR prettier chapters w2 = (Ok tt, w3) →
                 package_epub SCRIPT_DIR w3 = (Raise e, w') →
                 build_epub ua SCRIPT_DIR now prettier file_size w = (Raise e, w'))) ∧
  (∀ e w', discover_step ua SCRIPT_DIR w = (Raise e, w') →
           build_epub ua SCRIPT_DIR now prettier file_size w = (Raise e, w')) ∧
  (∀ w0 e w',
     discover_step ua SCRIPT_DIR w = (Ok chapters, w0) →
     write_toc_step SCRIPT_DIR chapters w0 = (Raise e, w') →
     build_epub ua SCRIPT_DIR now prettier file_size w = (Raise e, w')) ∧
  (∀ w0 w1 e w',
     discover_step ua SCRIPT_DIR w = (Ok chapters, w0) →
     write_toc_step SCRIPT_DIR chapters w0 = (Ok tt, w1) →
     write_opf_step SCRIPT_DIR now chapters w1 = (Raise e, w') →
     build_epub ua SCRIPT_DIR now prettier file_size w = (Raise e, w')).
Proof.
  split_and!.
  - apply format_step_recovers.
  - intros n. apply format_step_undecodable.
  - intros w0 w1 w2 H0 H1 H2. unfold build_epub.
    rewrite (M_bind_ok _ _ _ _ _ H0), (M_bind_ok _ _ _ _ _ H1), (M_bind_ok _ _ _ _ _ H2).
    split.
    + intros Hfail. by rewrite (M_bind_ok _ _ _ _ _ (format_step_recovers chapters w2 Hfail)).
    + intros w3 e w' H3 H4. rewrite (M_bind_ok _ _ _ _ _ H3). by apply M_bind_raise.
  - intros e w' H0. by apply M_bind_raise.
  - intros w0 e w' H0 H1. unfold build_epub.
    rewrite (M_bind_ok _ _ _ _ _ H0). by apply M_bind_raise.
  - intros w0 w1 e w' H0 H1 H2. unfold build_epub.
    rewrite (M_bind_ok _ _ _ _ _ H0), (M_bind_ok _ _ _ _ _ H1). by apply M_bind_raise.
Qed.

End BuildFacts.

(** ** The file system *)

Lemma node_ind2 (P : node → Prop) :
  (∀ r x d, P (File r x d)) →
  (∀ l cs, Forall (fun c => P c.2) cs → P (Dir l cs)) →
  ∀ t, P t.
Proof.
  intros HF HD. fix IH 1. intros [r x d|l cs]; [apply HF|]. apply HD.
  induction cs as [|[k c] cs IHcs]; constructor; [apply IH | apply IHcs].
Qed.

Lemma wf_tree_dir l cs :
  wf_tree (Dir l cs) ↔ NoDup cs.*1 ∧ Forall (fun c => wf_tree c.2) cs.
Proof.
  cbn [wf_tree]. apply and_iff_compat_l.
  induction cs as [|[k c] cs IH]; [by split|].
  rewrite Forall_cons, <- IH. done.
Qed.

Lemma lookup_child_set_child name n cs name' :
  lookup_child name' (set_child name n cs) =
  if decide (name = name') then Some n else lookup_child name' cs.
Proof.
  induction cs as [|[k m] cs IH]; cbn [set_child lookup_child].
  - by destruct (decide (name = name')).
  - destruct (decide (k = name)) as [->|Hk]; cbn [lookup_child].
    + by destruct (decide (name = name')).
    + rewrite IH. destruct (decide (k = name')) as [->|]; [|done].
      by rewrite decide_False by done.
Qed.

Lemma lookup_child_remove_child name cs name' :
  name ≠ name' → lookup_child name' (remove_child name cs) = lookup_child name' cs.
Proof.
  intros Hne. induction cs as [|[k m] cs IH]; [done|]. cbn [remove_child lookup_child].
  destruct (decide (k = name)) as [->|Hk].
  - by rewrite decide_False by done.
  - cbn [lookup_child]. by rewrite IH.
Qed.

Lemma lookup_child_elem name sub cs :
  NoDup cs.*1 → (name, sub) ∈ cs → lookup_child name cs = Some sub.
Proof.
  induction cs as [|[k m] cs IH]; intros Hnd Hin; [by apply elem_of_nil in Hin|].
  rewrite fmap_cons in Hnd. apply NoDup_cons in Hnd as [Hk Hnd]. cbn [lookup_child].
  apply elem_of_cons in Hin as [[= -> ->]|Hin].
  - by rewrite decide_True.
  - rewrite decide_False; [by apply IH|]. intros ->. apply Hk.
    apply list_elem_of_fmap. by exists (name, sub).
Qed.

Lemma lookup_child_Some name sub cs :
  lookup_child name cs = Some sub → (name, sub) ∈ cs.
Proof.
  induction cs as [|[k m] cs IH]; [done|]. cbn [lookup_child].
  destruct (decide (k = name)) as [->|]; [intros [= ->]; by left|].
  intros H. right. by apply IH.
Qed.

Lemma set_child_names name n cs :
  (set_child name n cs).*1 = cs.*1 ∨
  ((name ∉ cs.*1) ∧ (set_child name n cs).*1 = cs.*1 ++ [name]).
Proof.
  induction cs as [|[k m] cs IH]; cbn [set_child].
  - right. split; [apply not_elem_of_nil | done].
  - destruct (decide (k = name)) as [->|Hk]; [by left|].
    rewrite !fmap_cons. cbn [fst]. destruct IH as [->|[Hnin ->]]; [by left|].
    right. split; [|done]. apply not_elem_of_cons. by split.
Qed.

Lemma set_child_elem name n cs c :
  c ∈ set_child name n cs → c = (name, n) ∨ c ∈ cs.
Proof.
  induction cs as [|[k m] cs IH]; cbn [set_child].
  - intros ->%list_elem_of_singleton. by left.
  - destruct (decide (k = name)) as [->|Hk].
    + intros [->|Hin]%elem_of_cons; [by left|]. right. by right.
    + intros [->|Hin]%elem_of_cons; [right; by left|].
      destruct (IH Hin) as [->|?]; [by left|]. right. by right.
Qed.

Lemma wf_set_child l l' name n cs :
  wf_tree (Dir l cs) → wf_tree n → wf_tree (Dir l' (set_child name n cs)).
Proof.
  rewrite !wf_tree_dir. intros [Hnd Hall] Hn. split.
  - destruct (set_child_names name n cs) as [->|[Hnin ->]]; [done|].
    apply NoDup_app. split_and!; [done | | apply NoDup_singleton].
    intros x Hx ->%list_elem_of_singleton. done.
  - apply Forall_forall. intros c Hc. apply set_child_elem in Hc as [->|Hc]; [done|].
    by apply (proj1 (Forall_forall _ _) Hall).
Qed.

Lemma remove_child_sub name cs c : c ∈ remove_child name cs → c ∈ cs.
Proof.
  induction cs as [|[k m] cs IH]; [done|]. cbn [remove_child].
  destruct (decide (k = name)); [by right|].
  intros [->|Hin]%elem_of_cons; [by left|]. right. by apply IH.
Qed.

Lemma wf_remove_child l l' name cs :
  wf_tree (Dir l cs) → wf_tree (Dir l' (remove_child name cs)).
Proof.
  rewrite !wf_tree_dir. intros [Hnd Hall]. split.
  - clear Hall. induction cs as [|[k m] cs IH]; [done|].
    rewrite fmap_cons in Hnd. apply NoDup_cons in Hnd as [Hk Hnd]. cbn [remove_child].
    destruct (decide (k = name)); [done|].
    rewrite fmap_cons. apply NoDup_cons. split; [|by apply IH].
    intros Hin. apply Hk. apply list_elem_of_fmap in Hin as ([k' m'] & -> & Hin).
    apply remove_child_sub in Hin. apply list_elem_of_fmap. by exists (k', m').
  - apply Forall_forall. intros c Hc. apply remove_child_sub in Hc.
    by apply (proj1 (Forall_forall _ _) Hall).
Qed.

Lemma wf_child l name sub cs :
  wf_tree (Dir l cs) → lookup_child name cs = Some sub → wf_tree sub.
Proof.
  rewrite wf_tree_dir. intros [_ Hall] Hl. apply lookup_child_Some in Hl.
  by apply (proj1 (Forall_forall _ _) Hall (name, sub)).
Qed.

Lemma fs_lookup_app p q t :
  fs_lookup (p ++ q) t =
  match fs_lookup p t with Some sub => fs_lookup q sub | None => None end.
Proof.
  revert t. induction p as [|name p IH]; intros t; [done|]. cbn [app fs_lookup].
  destruct t as [r x d|l cs]; [done|]. by destruct (lookup_child name cs).
Qed.

Lemma fs_write_cons2 name r rest data l cs :
  fs_write (name :: r :: rest) data (Dir l cs) =
  match lookup_child name cs with
  | Some sub => sub' ← fs_write (r :: rest) data sub; Ok (Dir l (set_child name sub' cs))
  | None => Raise FileNotFoundError
  end.
Proof. done. Qed.

Lemma fs_remove_cons2 name r rest l cs :
  fs_remove (name :: r :: rest) (Dir l cs) =
  match lookup_child name cs with
  | Some sub => sub' ← fs_remove (r :: rest) sub; Ok (Dir l (set_child name sub' cs))
  | None => Raise FileNotFoundError
  end.
Proof. done. Qed.

(** Writing a file leaves what lies beside it. *)
Lemma fs_write_sibling dir a data t t' b rest :
  fs_write (dir ++ [a]) data t = Ok t' → b ≠ a →
  fs_lookup (dir ++ b :: rest) t' = fs_lookup (dir ++ b :: rest) t.
Proof.
  revert t t'. induction dir as [|x dir IH]; intros t t' Hw Hne.
  - destruct t as [r x d|l cs]; [done|]. cbn [app fs_write] in Hw.
    assert (∃ n, t' = Dir l (set_child a n cs)) as [n ->].
    { destruct (lookup_child a cs) as [[r [|] d|l' cs']|]; [|done|done|];
        injection Hw as <-; eauto. }
    cbn [app fs_lookup]. rewrite lookup_child_set_child. by rewrite decide_False.
  - destruct t as [r x0 d|l cs]; [by destruct dir|].
    cbn [app] in Hw. revert Hw.
    destruct (dir ++ [a]) as [|y ys] eqn:Ed; [by destruct dir|].
    rewrite fs_write_cons2. intros Hw.
    destruct (lookup_child x cs) as [sub|] eqn:El; [|done].
    destruct (fs_write (y :: ys) data sub) as [sub'|e] eqn:Es; [|done].
    injection Hw as <-. cbn [app fs_lookup].
    rewrite lookup_child_set_child, decide_True, El by done.
    apply IH; [|done]. first [done | by rewrite Ed].
Qed.

Lemma fs_remove_sibling dir a t t' b rest :
  fs_remove (dir ++ [a]) t = Ok t' → b ≠ a →
  fs_lookup (dir ++ b :: rest) t' = fs_lookup (dir ++ b :: rest) t.
Proof.
  revert t t'. induction dir as [|x dir IH]; intros t t' Hw Hne.
  - destruct t as [r x d|l cs]; [done|]. cbn [app fs_remove] in Hw.
    assert (t' = Dir l (remove_child a cs)) as ->.
    { destruct (lookup_child a cs) as [[r x d|l' cs']|]; [|done|done].
      by injection Hw as <-. }
    cbn [app fs_lookup]. by rewrite lookup_child_remove_child.
  - destruct t as [r x0 d|l cs]; [by destruct dir|].
    cbn [app] in Hw. revert Hw.
    destruct (dir ++ [a]) as [|y ys] eqn:Ed; [by destruct dir|].
    rewrite fs_remove_cons2. intros Hw.
    destruct (lookup_child x cs) as [sub|] eqn:El; [|done].
    destruct (fs_remove (y :: ys) sub) as [sub'|e] eqn:Es; [|done].
    injection Hw as <-. cbn [app fs_lookup].
    rewrite lookup_child_set_child, decide_True, El by done.
    apply IH; [|done]. first [done | by rewrite Ed].
Qed.

(** A file that was written is there. *)
Lemma fs_write_lookup p data t t' :
  fs_write p data t = Ok t' → ∃ r, fs_lookup p t' = Some (File r true data).
Proof.
  revert t t'. induction p as [|x p IH]; intros t t' Hw; [by destruct t|].
  destruct t as [r x0 d|l cs]; [by destruct p|]. destruct p as [|y ys].
  - cbn [fs_write] in Hw. cbn [fs_lookup].
    destruct (lookup_child x cs) as [[r [|] d|l' cs']|]; [|done|done|];
      injection Hw as <-;
      rewrite lookup_child_set_child, decide_True by done; eauto.
  - rewrite fs_write_cons2 in Hw.
    destruct (lookup_child x cs) as [sub|] eqn:El; [|done].
    destruct (fs_write (y :: ys) data sub) as [sub'|e] eqn:Es; [|done].
    injection Hw as <-. cbn [fs_lookup].
    rewrite lookup_child_set_child, decide_True by done. by eapply IH.
Qed.

Lemma fs_write_wf p data t t' : wf_tree t → fs_write p data t = Ok t' → wf_tree t'.
Proof.
  revert t t'. induction p as [|x p IH]; intros t t' Hwf Hw; [by destruct t|].
  destruct t as [r x0 d|l cs]; [by destruct p|]. destruct p as [|y ys].
  - cbn [fs_write] in Hw.
    destruct (lookup_child x cs) as [[r [|] d|l' cs']|]; [|done|done|];
      injection Hw as <-; by eapply wf_set_child.
  - rewrite fs_write_cons2 in Hw.
    destruct (lookup_child x cs) as [sub|] eqn:El; [|done].
    destruct (fs_write (y :: ys) data sub) as [sub'|e] eqn:Es; [|done].
    injection Hw as <-. eapply wf_set_child; [done|].
    eapply IH; [|done]. by eapply wf_child.
Qed.

Lemma fs_remove_wf p t t' : wf_tree t → fs_remove p t = Ok t' → wf_tree t'.
Proof.
  revert t t'. induction p as [|x p IH]; intros t t' Hwf Hw; [by destruct t|].
  destruct t as [r x0 d|l cs]; [by destruct p|]. destruct p as [|y ys].
  - cbn [fs_remove] in Hw.
    destruct (lookup_child x cs) as [[r x1 d|l' cs']|]; [|done|done]. injection Hw as <-.
    by eapply wf_remove_child.
  - rewrite fs_remove_cons2 in Hw.
    destruct (lookup_child x cs) as [sub|] eqn:El; [|done].
    destruct (fs_remove (y :: ys) sub) as [sub'|e] eqn:Es; [|done].
    injection Hw as <-. eapply wf_set_child; [done|].
    eapply IH; [|done]. by eapply wf_child.
Qed.

(** ** The archive (C7) *)

Lemma walk_dir keep dp cs :
  walk keep dp (Dir true cs) =
  (dp, (filter (fun c => is_dir c.2 = false) cs).*1) ::
  (cs ≫= fun c => if is_dir c.2 && keep c.1 then walk keep (dp ++ [c.1]) c.2 else []).
Proof.
  cbn [walk]. f_equal. induction cs as [|[d sub] cs IH]; [done|].
  cbn [mbind list_bind fst snd]. by rewrite <- IH.
Qed.

(** Every file name [os.walk] yields names a file of the tree, below the
    directory the walk started from. *)
Lemma walk_files_lookup keep t :
  wf_tree t →
  ∀ top dp fs f,
    (dp, fs) ∈ walk keep top t → f ∈ fs →
    ∃ rel r x d,
      dp ++ [f] = top ++ rel ∧ last rel = Some f ∧
      fs_lookup rel t = Some (File r x d).
Proof.
  induction t as [r0 x0 d0|[|] cs IH] using node_ind2; intros Hwf top dp fs f Hin Hf;
    [by apply elem_of_nil in Hin | | by apply elem_of_nil in Hin].
  - pose proof Hwf as Hwf'. apply wf_tree_dir in Hwf' as [Hnd Hall].
    rewrite walk_dir in Hin. apply elem_of_cons in Hin as [[= -> ->]|Hin].
    + apply list_elem_of_fmap in Hf as ([k c] & -> & Hc).
      apply list_elem_of_filter in Hc as [Hfile Hc]. cbn [fst snd] in *.
      destruct c as [r0 x0 d0|l' cs']; [|done].
      exists [k], r0, x0, d0. split_and!; [done | done |].
      cbn [fs_lookup]. by rewrite (lookup_child_elem k (File r0 x0 d0) cs).
    + apply list_elem_of_bind in Hin as ([k c] & Hin & Hc). cbn [fst snd] in Hin.
      destruct (is_dir c && keep k) eqn:E; [|by apply elem_of_nil in Hin].
      pose proof (proj1 (Forall_forall _ _) IH _ Hc) as IHc.
      pose proof (proj1 (Forall_forall _ _) Hall _ Hc) as Hwfc.
      destruct (IHc Hwfc _ _ _ _ Hin Hf) as (rel & r0 & x0 & d0 & Hrel & Hlast & Hl).
      exists (k :: rel), r0, x0, d0. split_and!.
      * by rewrite Hrel, <- app_assoc.
      * destruct rel as [|x rel]; [done|]. by rewrite last_cons_cons.
      * cbn [fs_lookup]. by rewrite (lookup_child_elem k c cs).
Qed.

Lemma common_prefix_len_app (a b : path) : common_prefix_len a (a ++ b) = length a.
Proof.
  induction a as [|x a IH]; [by destruct b|]. cbn. by rewrite decide_True, IH.
Qed.

Lemma relpath_below (start rel : path) :
  rel ≠ [] → relpath (start ++ rel) start = join slash rel.
Proof.
  intros Hne. unfold relpath. rewrite common_prefix_len_app, Nat.sub_diag.
  rewrite drop_app_length. cbn [replicate app]. by destruct rel.
Qed.

Lemma zip_write_entries t p arc ct entries entries' :
  zip_write t p arc ct entries = Ok entries' →
  ∃ e, entries' = entries ++ [e] ∧ zip_write t p arc ct [] = Ok [e].
Proof.
  unfold zip_write. destruct (fs_lookup p t) as [[[|] x d|l cs]|]; try done;
    [destruct (encodable arc) | destruct (encodable (arc ++ slash))]; try done;
    intros [= <-]; eauto.
Qed.

Section ArchiveFacts.

Context (SCRIPT_DIR : path).

Lemma add_files_ok t dp fs entries entries' :
  add_files SCRIPT_DIR t dp fs entries = (Ok tt, entries') →
  ∃ new, entries' = entries ++ new ∧
         Forall (fun e => ∃ f, f ∈ fs ∧ written_from SCRIPT_DIR t dp f e) new.
Proof.
  revert entries. induction fs as [|f fs IH]; intros entries; cbn [add_files].
  - intros [= <-]. exists []. by rewrite app_nil_r.
  - assert (Hweak : ∀ new : list zip_entry,
              Forall (fun e => ∃ g, g ∈ fs ∧ written_from SCRIPT_DIR t dp g e) new →
              Forall (fun e => ∃ g, g ∈ f :: fs ∧ written_from SCRIPT_DIR t dp g e) new).
    { intros new Hnew. eapply Forall_impl; [exact Hnew|].
      intros e (g & Hg & He). exists g. split; [by right | done]. }
    destruct (decide _) as [_|_].
    { intros H. destruct (IH _ H) as (new & -> & Hnew). exists new. auto. }
    destruct (skipped_file f) eqn:Es.
    { intros H. destruct (IH _ H) as (new & -> & Hnew). exists new. auto. }
    destruct (zip_write t (dp ++ [f]) _ ZIP_DEFLATED entries) as [entries1|e1] eqn:Ez;
      [|done].
    intros H. destruct (IH _ H) as (new & -> & Hnew).
    apply zip_write_entries in Ez as (e & -> & Hz).
    exists (e :: new). split; [by rewrite <- app_assoc|].
    constructor; [|auto]. exists f. split; [by left | done].
Qed.

Lemma add_dirs_ok t dirs entries entries' :
  add_dirs SCRIPT_DIR t dirs entries = (Ok tt, entries') →
  ∃ new, entries' = entries ++ new ∧
         Forall (fun e => ∃ dp fs f, (dp, fs) ∈ dirs ∧ f ∈ fs ∧ written_from SCRIPT_DIR t dp f e) new.
Proof.
  revert entries. induction dirs as [|[dp fs] dirs IH]; intros entries; cbn [add_dirs].
  - intros [= <-]. exists []. by rewrite app_nil_r.
  - destruct (add_files SCRIPT_DIR t dp (sorted fs) entries) as [[[]|e1] entries1] eqn:Ef;
      [|done].
    intros H. destruct (IH _ H) as (new2 & -> & Hnew2).
    apply add_files_ok in Ef as (new1 & -> & Hnew1).
    exists (new1 ++ new2). split; [by rewrite <- app_assoc|].
    apply Forall_app. split.
    + eapply Forall_impl; [exact Hnew1|]. intros e (f & Hf & He).
      exists dp, fs, f. split_and!; [by left | | done].
      unfold sorted in Hf. by rewrite (merge_sort_Permutation str_le) in Hf.
    + eapply Forall_impl; [exact Hnew2|]. intros e (dp' & fs' & f & Hd & Hf & He).
      exists dp', fs', f. split_and!; [by right | done | done].
Qed.

Lemma package_epub_ok w w' :
  package_epub SCRIPT_DIR w = (Ok tt, w') →
  ∃ t0 t1 entries,
    (t0 = tree w ∨ fs_remove (OUTPUT_EPUB SCRIPT_DIR) (tree w) = Ok t0) ∧
    fs_write (OUTPUT_EPUB SCRIPT_DIR) (Archive []) t0 = Ok t1 ∧
    zip_body SCRIPT_DIR t1 = (Ok tt, entries) ∧
    fs_write (OUTPUT_EPUB SCRIPT_DIR) (Archive entries) t1 = Ok (tree w').
Proof.
  unfold package_epub, mbind, M_bind, print, remove_old_archive, fill_archive, updating.
  cbn [tree stdout].
  destruct (fs_exists (OUTPUT_EPUB SCRIPT_DIR) (tree w)).
  - destruct (fs_remove (OUTPUT_EPUB SCRIPT_DIR) (tree w)) as [t0|e] eqn:Er; [|done].
    cbn [tree stdout].
    destruct (fs_write (OUTPUT_EPUB SCRIPT_DIR) (Archive []) t0) as [t1|e] eqn:Ew; [|done].
    cbn [tree stdout].
    destruct (zip_body SCRIPT_DIR t1) as [r entries] eqn:Ez.
    destruct (fs_write (OUTPUT_EPUB SCRIPT_DIR) (Archive entries) t1) as [t2|e] eqn:Ew2;
      [|done].
    intros [= -> <-]. exists t0, t1, entries. split_and!; auto.
  - cbn [tree stdout].
    destruct (fs_write (OUTPUT_EPUB SCRIPT_DIR) (Archive []) (tree w)) as [t1|e] eqn:Ew;
      [|done].
    cbn [tree stdout].
    destruct (zip_body SCRIPT_DIR t1) as [r entries] eqn:Ez.
    destruct (fs_write (OUTPUT_EPUB SCRIPT_DIR) (Archive entries) t1) as [t2|e] eqn:Ew2;
      [|done].
    intros [= -> <-]. exists (tree w), t1, entries. split_and!; auto.
Qed.

(** What lies beside the archive is the same before and after the archive
    is removed and opened. *)
Lemma beside_archive t t0 t1 b rest :
  (t0 = t ∨ fs_remove (OUTPUT_EPUB SCRIPT_DIR) t = Ok t0) →
  fs_write (OUTPUT_EPUB SCRIPT_DIR) (Archive []) t0 = Ok t1 →
  b ≠ epub_name →
  fs_lookup (SCRIPT_DIR ++ b :: rest) t1 = fs_lookup (SCRIPT_DIR ++ b :: rest) t.
Proof.
  intros H0 H1 Hb. rewrite (fs_write_sibling _ _ _ _ _ b rest H1 Hb).
  destruct H0 as [->|H0]; [done|]. by apply (fs_remove_sibling _ _ _ _ b rest H0).
Qed.

(** C7: on a file system with one entry per name in which [mimetype] is a
    file, the archive a successful packaging step leaves starts with the
    entry [mimetype], stored without compression, and every other entry is
    deflated and named by the path, relative to the directory of the
    script, of the file it holds. *)
Theorem archive_mimetype_first (w w' : world) :
  wf_tree (tree w) →
  (∃ r x data,
     fs_lookup (SCRIPT_DIR ++ [mimetype]) (tree w) = Some (File r x data)) →
  package_epub SCRIPT_DIR w = (Ok tt, w') →
  ∃ r x first rest,
    fs_lookup (OUTPUT_EPUB SCRIPT_DIR) (tree w')
    = Some (File r x (Archive (first :: rest))) ∧
    arcname first = mimetype ∧
    compress_type first = ZIP_STORED ∧
    (∃ x data, entry_data first = Some data ∧
               fs_lookup (SCRIPT_DIR ++ [mimetype]) (tree w)
               = Some (File true x data)) ∧
    Forall (fun e =>
              compress_type e = ZIP_DEFLATED ∧
              ∃ rel x data,
                rel ≠ [] ∧ arcname e = join slash rel ∧ entry_data e = Some data ∧
                fs_lookup (SCRIPT_DIR ++ rel) (tree w) = Some (File true x data)) rest.
Proof.
  intros Hwf (rm & xm & dm & Hm) Hpkg.
  apply package_epub_ok in Hpkg as (t0 & t1 & entries & H0 & H1 & Hz & H2).
  assert (H0' : t0 = tree w ∨ fs_remove (OUTPUT_EPUB SCRIPT_DIR) (tree w) = Ok t0)
    by (destruct H0; auto).
  assert (Hwf1 : wf_tree t1).
  { eapply fs_write_wf; [|exact H1]. destruct H0 as [->|H0]; [done|].
    by eapply fs_remove_wf. }
  assert (Hm1 : fs_lookup (SCRIPT_DIR ++ [mimetype]) t1 = Some (File rm xm dm)).
  { rewrite (beside_archive (tree w) t0 t1 mimetype []); done. }
  destruct (fs_write_lookup _ _ _ _ H1) as [r1 Ha1].
  destruct (fs_write_lookup _ _ _ _ H2) as [r2 Ha2].
  unfold zip_body, zip_write in Hz. rewrite Hm1 in Hz.
  destruct rm; [|done]. destruct (encodable mimetype); [|done].
  apply add_dirs_ok in Hz as (new & -> & Hnew).
  exists r2, true, (ZipEntry mimetype ZIP_STORED (Some dm)), new.
  split_and!; [done | done | done | by exists xm, dm |].
  eapply Forall_impl; [exact Hnew|]. intros e (dp & fs & f & Hd & Hf & Hskip & Hw).
  unfold walk_script_dir in Hd.
  destruct (fs_lookup SCRIPT_DIR t1) as [top|] eqn:Etop; [|by apply elem_of_nil in Hd].
  assert (Hwftop : wf_tree top).
  { clear -Hwf1 Etop. revert t1 Hwf1 Etop.
    induction SCRIPT_DIR as [|x p IH]; intros t1 Hwf1 Etop; [by injection Etop as <-|].
    destruct t1 as [|l cs]; [done|]. cbn [fs_lookup] in Etop.
    destruct (lookup_child x cs) as [sub|] eqn:El; [|done].
    eapply IH; [|done]. by eapply wf_child. }
  destruct (walk_files_lookup keep_dir top Hwftop _ _ _ _ Hd Hf)
    as (rel & r & x & d & Hrel & Hlast & Hl).
  assert (Hl1 : fs_lookup (SCRIPT_DIR ++ rel) t1 = Some (File r x d)).
  { by rewrite fs_lookup_app, Etop. }
  assert (Hne : rel ≠ []) by (by intros ->).
  rewrite Hrel, relpath_below in Hw by done.
  unfold zip_write in Hw. rewrite Hl1 in Hw. destruct r; [|done].
  destruct (encodable (join slash rel)); [|done].
  injection Hw as <-. split; [done|]. exists rel, x, d.
  split_and!; [done | done | done |].
  destruct rel as [|b rest]; [done|]. rewrite <- Hl1.
  symmetry. apply (beside_archive (tree w) t0 t1); [done | done |].
  intros ->. destruct rest as [|y rest].
  - injection Hlast as <-. by vm_compute in Hskip.
  - unfold OUTPUT_EPUB in Ha1. fold epub_name in Ha1.
    rewrite (fs_lookup_app SCRIPT_DIR (epub_name :: y :: rest)) in Hl1.
    rewrite (fs_lookup_app SCRIPT_DIR [epub_name]) in Ha1.
    rewrite Etop in Hl1, Ha1. destruct top as [|l cs]; [done|].
    cbn [fs_lookup] in Hl1, Ha1.
    destruct (lookup_child epub_name cs) as [sub|]; [|done].
    injection Ha1 as ->. done.
Qed.

End ArchiveFacts.

(** ** The small book, built *)

Ltac wf_tree_by_computation :=
  cbn [wf_tree];
  repeat match goal with
         | |- _ ∧ _ => split
         | |- True => exact I
         | |- NoDup _ => apply (bool_decide_unpack _); vm_compute; exact I
         end.

Lemma book_tree_wf : wf_tree book_tree.
Proof. unfold book_tree, book_files, text_files. wf_tree_by_computation. Qed.

(** The archive of the small book. *)
Lemma archive_mimetype_first_book :
  ∃ r x first rest,
    fs_lookup (OUTPUT_EPUB book_dir) (tree (package_epub book_dir book_world).2)
    = Some (File r x (Archive (first :: rest))) ∧
    arcname first = mimetype ∧
    compress_type first = ZIP_STORED ∧
    (∃ x data, entry_data first = Some data ∧
               fs_lookup (book_dir ++ [mimetype]) (tree book_world)
               = Some (File true x data)) ∧
    Forall (fun e =>
              compress_type e = ZIP_DEFLATED ∧
              ∃ rel x data,
                rel ≠ [] ∧ arcname e = join slash rel ∧ entry_data e = Some data ∧
                fs_lookup (book_dir ++ rel) (tree book_world)
                = Some (File true x data)) rest.
Proof.
  apply (archive_mimetype_first book_dir book_world (package_epub book_dir book_world).2).
  - apply book_tree_wf.
  - eexists _, _, _. vm_compute. reflexivity.
  - vm_compute. reflexivity.
Defined.

(** A run in an empty file system, and a run on a chapter file that cannot
    be read. *)
Lemma discovery_failure_aborts_examples :
  (∃ e,
     discover_chapters no_unicode_alnum book_dir (Dir true []) = Raise e ∧
     build_epub no_unicode_alnum book_dir stamp prettier_fine size_zero (World (Dir true []) [])
     = (Raise e, World (Dir true []) ([] ++ [MsgSource; MsgDiscovering]))) ∧
  (∃ e,
     discover_chapters no_unicode_alnum book_dir locked_tree = Raise e ∧
     build_epub no_unicode_alnum book_dir stamp prettier_fine size_zero (World locked_tree [])
     = (Raise e, World locked_tree ([] ++ [MsgSource; MsgDiscovering]))).
Proof.
  split.
  - apply (discovery_failure_aborts no_unicode_alnum book_dir stamp prettier_fine
             size_zero (World (Dir true []) [])).
    left. exists FileNotFoundError. vm_compute. reflexivity.
  - apply (discovery_failure_aborts no_unicode_alnum book_dir stamp prettier_fine
             size_zero (World locked_tree [])).
    right. exists [py "ch000-preface.xhtml"], (py "ch000-preface.xhtml"), PermissionError.
    split_and!; [vm_compute; reflexivity | by left | vm_compute; reflexivity
                | vm_compute; reflexivity].
Defined.

(** The small book with a formatter that is not installed and with one that
    fails: both builds end normally, with the warning printed. *)
Lemma formatter_failure_is_recovered_book :
  (∃ w', build_epub no_unicode_alnum book_dir stamp prettier_absent size_zero book_world
         = (Ok tt, w') ∧ MsgPrettierSkipped ∈ stdout w') ∧
  (∃ w', build_epub no_unicode_alnum book_dir stamp prettier_failing size_zero book_world
         = (Ok tt, w') ∧ MsgPrettierSkipped ∈ stdout w').
Proof.
  split.
  - destruct (formatter_failure_is_recovered no_unicode_alnum book_dir stamp
                prettier_absent size_zero book_world book_chapters) as (_ & _ & H & _).
    edestruct H as [Hgo _]; [vm_compute; reflexivity ..|].
    eexists. split.
    { etransitivity; [apply Hgo; left; reflexivity | vm_compute; reflexivity]. }
    cbn [stdout]. repeat first [apply list_elem_of_here | apply list_elem_of_further].
  - destruct (formatter_failure_is_recovered no_unicode_alnum book_dir stamp
                prettier_failing size_zero book_world book_chapters) as (_ & _ & H & _).
    edestruct H as [Hgo _]; [vm_compute; reflexivity ..|].
    eexists. split.
    { etransitivity;
        [apply Hgo; right; exists 2; split; [done | reflexivity]
        | vm_compute; reflexivity]. }
    cbn [stdout]. repeat first [apply list_elem_of_here | apply list_elem_of_further].
Defined.

(** The claim, as stated, fails: a formatter that exits with a failure
    status after writing bytes that are not text ends the build with
    [UnicodeDecodeError]; both documents are written and no archive is
    made. *)
Lemma formatter_failure_can_be_fatal :
  (prettier_garbled (generated_files book_dir book_chapters) book_tree).1
  = Exited 2 false ∧
  ∃ w',
    build_epub no_unicode_alnum book_dir stamp prettier_garbled size_zero book_world
    = (Raise UnicodeDecodeError, w') ∧
    stdout w' = [MsgSource; MsgDiscovering; MsgFound 3;
                 MsgChapter 0 3 (py "ch000-preface.xhtml");
                 MsgChapter 1 2 (py "ch001-flow-in-love.xhtml");
                 MsgChapter 2 3 (py "ch002-chapter-one.xhtml");
                 MsgWroteToc; MsgWroteOpf; MsgFormatting] ∧
    fs_lookup (OUTPUT_EPUB book_dir) (tree w') = None.
Proof.
  split; [reflexivity|]. eexists. split_and!; vm_compute; reflexivity.
Qed.

(** ** More about the navigation document *)

Lemma dict_set_key {V} (k : pystr) (v : V) d : k ∈ (dict_set k v d).*1.
Proof.
  induction d as [|[k0 v0] d IH]; cbn [dict_set].
  - by left.
  - destruct (decide (k0 = k)) as [->|]; [by left|]. rewrite fmap_cons. by right.
Qed.

Lemma dict_set_keys_mono {V} (k k' : pystr) (v : V) d :
  k' ∈ d.*1 → k' ∈ (dict_set k v d).*1.
Proof.
  induction d as [|[k0 v0] d IH]; cbn [dict_set]; [by intros ?%elem_of_nil|].
  rewrite fmap_cons. cbn [fst].
  destruct (decide (k0 = k)) as [->|]; [done|].
  rewrite fmap_cons. cbn [fst]. intros [->|Hin]%elem_of_cons; [by left|].
  right. by apply IH.
Qed.

Lemma toc_step_keeps_current st ch :
  current_in_dict st →
  ∃ st', toc_step st ch = Ok st' ∧ current_in_dict st'.
Proof.
  intros Hinv. destruct (is_part ch) eqn:Ep.
  - rewrite toc_step_part by done. eexists. split; [done|].
    intros k [= <-]. apply dict_set_key.
  - rewrite toc_step_chapter by done.
    destruct (current_part_id st) as [pid|] eqn:Ec.
    + specialize (Hinv pid Ec).
      destruct (dict_get pid (parts_by_id st)) as [p|] eqn:Eg.
      * eexists. split; [done|]. intros k [= <-]. apply dict_set_key.
      * apply dict_get_None in Eg. done.
    + eexists. split; [done|]. intros k Hk. cbn in Hk. done.
Qed.

Lemma toc_scan_total st chapters :
  current_in_dict st → ∃ st', toc_scan st chapters = Ok st'.
Proof.
  revert st. induction chapters as [|ch l IH]; intros st Hinv; [by exists st|].
  rewrite toc_scan_cons.
  destruct (toc_step_keeps_current st ch Hinv) as (st1 & -> & Hinv1).
  by apply IH.
Qed.

(** X1: [build_toc_xhtml] returns a document for every chapter list and
    every configuration: the lookup of the current part in the dict never
    raises [KeyError], whatever ids repeat. *)
Theorem build_toc_xhtml_never_raises
    (sections : list (pystr * list pystr)) (chapters : list chapter) :
  ∃ lines,
    toc_lines sections chapters = Ok lines ∧
    build_toc_xhtml_for sections chapters = Ok (toc_document lines).
Proof.
  destruct (toc_scan_total (TocState [] [] None) chapters) as [st Hst]; [by intros k|].
  unfold build_toc_xhtml_for, toc_lines. rewrite Hst. cbn [mbind result_bind].
  destruct (major_sections _ _ _ _) as [used lines]. eexists. by split.
Qed.








(** ** More about ids, records and the manifest *)

(** X3: the manifest id of a filename is the part of the filename before
    its first hyphen: it is a prefix of the filename and holds no hyphen. *)
Theorem chapter_item_id_before_hyphen (filename : pystr) :
  (hyphen ∉ chapter_item_id filename) ∧
  chapter_item_id filename `prefix_of` filename ∧
  (∀ a b, filename = a ++ hyphen :: b → hyphen ∉ a → chapter_item_id filename = a).
Proof.
  unfold chapter_item_id, split_once.
  destruct (partition_at hyphen filename) as [[a0 b0]|] eqn:E.
  - apply partition_at_some in E as [-> Hnin]. split_and!; [done | by eexists |].
    intros a b Heq Ha. symmetry. by eapply split_at_first.
  - apply partition_at_none_inv in E. split_and!; [done | done |].
    intros a b -> _. exfalso. apply E. apply elem_of_app. right. by left.
Qed.





Section RecordFacts.

Context (ua : N → bool) (SCRIPT_DIR : path).

Lemma read_text_stored p t content :
  read_text p t = Ok content →
  ∃ x stored,
    fs_lookup p t = Some (File true x (Text stored)) ∧
    content = universal_newlines stored.
Proof.
  unfold read_text.
  destruct (fs_lookup p t) as [[[|] x [s|b|es]|l cs]|]; try done.
  intros [= <-]. eauto.
Qed.

(** The text a file opened for reading hands over holds no carriage
    return. *)
Lemma universal_newlines_no_cr s : 13 ∉ universal_newlines s.
Proof.
  assert (H : ∀ n s, (length s ≤ n)%nat → 13 ∉ universal_newlines s).
  { clear s. induction n as [|n IH]; intros [|c s] Hlen; cbn [length] in Hlen;
      try apply not_elem_of_nil; [lia|].
    cbn [universal_newlines]. destruct (N.eqb_spec c 13) as [->|Hc].
    - apply not_elem_of_cons. split; [done|].
      destruct s as [|d s]; [apply not_elem_of_nil|].
      destruct (d =? 10); apply IH; cbn [length] in *; lia.
    - apply not_elem_of_cons. split; [congruence|]. apply IH. lia. }
  by apply (H (length s)).
Qed.

Lemma scan_files_records t filenames chapters :
  scan_files ua SCRIPT_DIR t filenames = Ok chapters →
  Forall (fun ch =>
            ch_filename ch ∈ filenames ∧
            ch_id ch = chapter_id (ch_filename ch) ∧
            ∃ content,
              read_text (TEXT_DIR SCRIPT_DIR ++ [ch_filename ch]) t = Ok content ∧
              ch_title ch = extract_title content (ch_id ch) ∧
              ch_level ch = extract_level ua content) chapters.
Proof.
  revert chapters. induction filenames as [|f fs IH]; intros chapters; cbn [scan_files].
  - intros [= <-]. constructor.
  - unfold scan_file.
    destruct (read_text (TEXT_DIR SCRIPT_DIR ++ [f]) t) as [content|e] eqn:Er; [|done].
    cbn [mbind result_bind].
    destruct (scan_files ua SCRIPT_DIR t fs) as [chs|e]; [|done].
    cbn [mbind result_bind]. intros [= <-]. constructor.
    + cbn. split_and!; [by left | done |]. by exists content.
    + eapply Forall_impl; [by apply IH|]. intros ch (Hin & Hid & Hc).
      split_and!; [by right | done | done].
Qed.

(** X5: every record [discover_chapters] returns belongs to a file of the
    directory whose name starts with [ch] and ends with [.xhtml] and that is
    a readable text file; its id is taken from that name, its level is 2 or
    3, and its title and level are scraped from the stored text with every
    carriage return and line feed pair, and every carriage return alone,
    read as one line feed: the text that is scraped holds no carriage
    return. *)
Theorem discover_chapters_records (t : node) (chapters : list chapter) :
  discover_chapters ua SCRIPT_DIR t = Ok chapters →
  Forall (fun ch =>
            qualifies (ch_filename ch) = true ∧
            (∃ names, listdir (TEXT_DIR SCRIPT_DIR) t = Ok names ∧ ch_filename ch ∈ names) ∧
            ch_id ch = chapter_id (ch_filename ch) ∧
            (ch_level ch = 2 ∨ ch_level ch = 3) ∧
            ∃ x stored content,
              fs_lookup (TEXT_DIR SCRIPT_DIR ++ [ch_filename ch]) t
              = Some (File true x (Text stored)) ∧
              content = universal_newlines stored ∧
              (13 ∉ content) ∧
              ch_title ch = extract_title content (ch_id ch) ∧
              ch_level ch = extract_level ua content) chapters.
Proof.
  unfold discover_chapters.
  destruct (listdir (TEXT_DIR SCRIPT_DIR) t) as [names|e]; [|done].
  cbn [mbind result_bind]. intros Hscan. apply scan_files_records in Hscan.
  eapply Forall_impl; [exact Hscan|]. intros ch (Hin & Hid & content & Hr & Ht & Hl).
  unfold sorted in Hin. rewrite (merge_sort_Permutation str_le) in Hin.
  apply list_elem_of_filter in Hin as [Hq Hin].
  apply read_text_stored in Hr as (x & stored & Hs & ->).
  split_and!; [done | by exists names | done | |].
  - rewrite Hl. unfold extract_level. destruct (decide _); auto.
  - exists x, stored, (universal_newlines stored).
    split_and!; [done | done | apply universal_newlines_no_cr | done | done].
Qed.

End RecordFacts.

(** A chapter file with the line ends of another system: the title that
    spans two lines is read with a line feed between them. *)
Lemma discover_chapters_records_crlf :
  Forall (fun ch =>
            qualifies (ch_filename ch) = true ∧
            (∃ names, listdir (TEXT_DIR book_dir) crlf_tree = Ok names ∧
                      ch_filename ch ∈ names) ∧
            ch_id ch = chapter_id (ch_filename ch) ∧
            (ch_level ch = 2 ∨ ch_level ch = 3) ∧
            ∃ x stored content,
              fs_lookup (TEXT_DIR book_dir ++ [ch_filename ch]) crlf_tree
              = Some (File true x (Text stored)) ∧
              content = universal_newlines stored ∧
              (13 ∉ content) ∧
              ch_title ch = extract_title content (ch_id ch) ∧
              ch_level ch = extract_level no_unicode_alnum content) crlf_chapters.
Proof.
  apply (discover_chapters_records no_unicode_alnum book_dir crlf_tree crlf_chapters).
  vm_compute. reflexivity.
Defined.

(** ** More about the stripping of tags *)

Lemma not_gt_all v :
  gt_sign ∉ v ↔ Forall (fun x => negb (x =? gt_sign) = true) v.
Proof.
  rewrite Forall_forall. split.
  - intros Hnin x Hx. destruct (N.eqb_spec x gt_sign); [by subst|done].
  - intros Hall Hin. specialize (Hall _ Hin). by rewrite N.eqb_refl in Hall.
Qed.

Lemma run_len_all p v : Forall (fun x => p x = true) v → run_len p v = length v.
Proof.
  induction v as [|x v IH]; [done|]. intros [Hx Hv]%Forall_cons. cbn. by rewrite Hx, IH.
Qed.

Lemma tag_at_unclosed u : gt_sign ∉ u → tag_at (lt_sign :: u) = None.
Proof.
  intros Hnin. cbn [tag_at]. rewrite N.eqb_refl. cbv zeta.
  rewrite (run_len_all _ u) by (by apply not_gt_all).
  destruct (length u) as [|n] eqn:E; [done|]. by rewrite <- E, drop_all.
Qed.

Lemma tag_at_lt_none t :
  tag_at (lt_sign :: t) = None → (∃ t', t = gt_sign :: t') ∨ gt_sign ∉ t.
Proof.
  cbn [tag_at]. rewrite N.eqb_refl. cbv zeta.
  pose proof (run_len_split (fun x => negb (x =? gt_sign)) t) as [Hall Hnext].
  set (n := run_len (fun x => negb (x =? gt_sign)) t) in *.
  assert (Hhead : ∀ g tl, drop n t = g :: tl → g = gt_sign).
  { intros g tl Hd. rewrite Hd in Hnext. by destruct (N.eqb_spec g gt_sign). }
  destruct n as [|n'].
  - intros _. destruct t as [|g tl]; [right; apply not_elem_of_nil|].
    left. exists tl. by rewrite (Hhead g tl eq_refl).
  - destruct (drop (S n') t) as [|g tl] eqn:Ed.
    + intros _. right. apply not_gt_all.
      rewrite <- (take_drop (S n') t), Ed, app_nil_r. exact Hall.
    + rewrite (Hhead g tl eq_refl), N.eqb_refl. done.
Qed.

Lemma sub_tags_from_sub k s x : x ∈ sub_tags_from k s → x ∈ s.
Proof.
  revert k. induction s as [|c t IH]; intros k; [done|]. cbn [sub_tags_from].
  destruct k as [|k]; [|intros H; right; by eapply IH].
  destruct (tag_at (c :: t)); [intros H; right; by eapply IH|].
  intros [->|H]%elem_of_cons; [by left|]. right. by eapply IH.
Qed.

Lemma tag_free_cons c s : tag_free (c :: s) ↔ tag_at (c :: s) = None ∧ tag_free s.
Proof.
  unfold tag_free. split.
  - intros H. split; [by apply (H [])|]. intros pre rest ->. by apply (H (c :: pre)).
  - intros [Hc Hs] [|x pre] rest Heq.
    + simpl in Heq. by subst rest.
    + injection Heq as -> ->. by apply (Hs pre).
Qed.

Lemma tag_free_nil : tag_free [].
Proof. intros pre rest Heq. symmetry in Heq. by apply app_eq_nil in Heq as [_ ->]. Qed.

Lemma sub_tags_from_tag_free k s : tag_free (sub_tags_from k s).
Proof.
  revert k. induction s as [|c t IH]; intros k; [apply tag_free_nil|].
  cbn [sub_tags_from]. destruct k as [|k]; [|apply IH].
  destruct (tag_at (c :: t)) as [n|] eqn:E; [apply IH|].
  apply tag_free_cons. split; [|apply IH].
  destruct (decide (c = lt_sign)) as [->|Hc]; [|by apply tag_at_none].
  apply tag_at_lt_none in E as [[t' ->]|Hnin].
  - cbn [sub_tags_from]. rewrite (tag_at_none gt_sign t') by (by intros [=]).
    reflexivity.
  - apply tag_at_unclosed. intros Hin. by apply sub_tags_from_sub in Hin.
Qed.

Lemma sub_tags_fixed s : tag_free s → sub_tags s = s.
Proof.
  unfold sub_tags. induction s as [|c t IH]; [done|].
  intros [Hc Ht]%tag_free_cons. cbn [sub_tags_from]. rewrite Hc. by rewrite IH.
Qed.

(** X6: after the substitution of line 80 no markup tag is left: the tag
    pattern matches nowhere in the result, so a second pass changes nothing
    and every code point of the result was in the text. *)
Theorem sub_tags_leaves_no_tag (s : pystr) :
  tag_free (sub_tags s) ∧
  sub_tags (sub_tags s) = sub_tags s ∧
  sub_tags s ⊆ s.
Proof.
  split_and!.
  - apply sub_tags_from_tag_free.
  - apply sub_tags_fixed, sub_tags_from_tag_free.
  - intros x. apply sub_tags_from_sub.
Qed.

(** ** More about the archive *)

(** What [os.walk] yields, read both ways: the files it names lie below
    kept directories, and every file below kept directories is named. *)
Lemma walk_files_sound keep t :
  wf_tree t →
  ∀ top dp fs f,
    (dp, fs) ∈ walk keep top t → f ∈ fs →
    ∃ dirs r x d,
      dp = top ++ dirs ∧ Forall (fun x => keep x = true) dirs ∧
      fs_lookup (dirs ++ [f]) t = Some (File r x d).
Proof.
  induction t as [r0 x0 d0|[|] cs IH] using node_ind2; intros Hwf top dp fs f Hin Hf;
    [by apply elem_of_nil in Hin | | by apply elem_of_nil in Hin].
  - pose proof Hwf as Hwf'. apply wf_tree_dir in Hwf' as [Hnd Hall].
    rewrite walk_dir in Hin. apply elem_of_cons in Hin as [[= -> ->]|Hin].
    + apply list_elem_of_fmap in Hf as ([k c] & -> & Hc).
      apply list_elem_of_filter in Hc as [Hfile Hc]. cbn [fst snd] in *.
      destruct c as [r x d|l' cs']; [|done].
      exists [], r, x, d. split_and!; [by rewrite app_nil_r | constructor |].
      cbn [app fs_lookup]. by rewrite (lookup_child_elem k (File r x d) cs).
    + apply list_elem_of_bind in Hin as ([k c] & Hin & Hc). cbn [fst snd] in Hin.
      destruct (is_dir c && keep k) eqn:E; [|by apply elem_of_nil in Hin].
      apply andb_true_iff in E as [_ Hk].
      pose proof (proj1 (Forall_forall _ _) IH _ Hc) as IHc.
      pose proof (proj1 (Forall_forall _ _) Hall _ Hc) as Hwfc.
      destruct (IHc Hwfc _ _ _ _ Hin Hf) as (dirs & r & x & d & -> & Hdirs & Hl).
      exists (k :: dirs), r, x, d. split_and!.
      * by rewrite <- app_assoc.
      * by constructor.
      * cbn [app fs_lookup]. by rewrite (lookup_child_elem k c cs).
Qed.

Lemma fs_lookup_file_below p r x d : p ≠ [] → fs_lookup p (File r x d) = None.
Proof. by destruct p. Qed.

Lemma walk_files_complete keep t :
  ∀ top dirs f r x d,
    Forall (fun x => keep x = true) dirs →
    listable_along dirs t = true →
    fs_lookup (dirs ++ [f]) t = Some (File r x d) →
    ∃ fs, (top ++ dirs, fs) ∈ walk keep top t ∧ f ∈ fs.
Proof.
  induction t as [r0 x0 d0|l cs IH] using node_ind2;
    intros top dirs f r x d Hdirs Hlist Hl.
  - rewrite fs_lookup_file_below in Hl; [done | by destruct dirs].
  - assert (l = true) as ->.
    { destruct dirs; cbn [listable_along] in Hlist; by apply andb_true_iff in Hlist as [? _]. }
    rewrite walk_dir. destruct dirs as [|y dirs].
    + cbn [app fs_lookup] in Hl.
      destruct (lookup_child f cs) as [sub|] eqn:El; [|done]. injection Hl as ->.
      apply lookup_child_Some in El. eexists. split; [rewrite app_nil_r; by left|].
      apply list_elem_of_fmap. exists (f, File r x d). split; [done|].
      by apply list_elem_of_filter.
    + cbn [app fs_lookup] in Hl. cbn [listable_along andb] in Hlist.
      apply Forall_cons in Hdirs as [Hy Hdirs].
      destruct (lookup_child y cs) as [sub|] eqn:El; [|done].
      apply lookup_child_Some in El.
      assert (Hd : is_dir sub = true).
      { destruct sub as [r1 x1 d1|]; [|done].
        rewrite fs_lookup_file_below in Hl; [done | by destruct dirs]. }
      pose proof (proj1 (Forall_forall _ _) IH _ El) as IHsub. cbn [snd] in IHsub.
      destruct (IHsub (top ++ [y]) dirs f r x d Hdirs Hlist Hl) as (fs & Hin & Hf).
      exists fs. split; [|done]. right. apply list_elem_of_bind.
      exists (y, sub). split; [|done]. cbn [fst snd]. rewrite Hd, Hy. cbn.
      by rewrite <- app_assoc in Hin.
Qed.

Section ArchiveMore.

Context (SCRIPT_DIR : path).

Lemma add_files_sound t dp fs entries entries' :
  add_files SCRIPT_DIR t dp fs entries = (Ok tt, entries') →
  ∃ new, entries' = entries ++ new ∧
         Forall (fun e => ∃ f, f ∈ fs ∧ relpath (dp ++ [f]) SCRIPT_DIR ≠ mimetype ∧
                               written_from SCRIPT_DIR t dp f e) new.
Proof.
  revert entries. induction fs as [|f fs IH]; intros entries; cbn [add_files].
  - intros [= <-]. exists []. by rewrite app_nil_r.
  - assert (Hweak : ∀ new : list zip_entry,
              Forall (fun e => ∃ g, g ∈ fs ∧ relpath (dp ++ [g]) SCRIPT_DIR ≠ mimetype ∧
                                    written_from SCRIPT_DIR t dp g e) new →
              Forall (fun e => ∃ g, g ∈ f :: fs ∧
                                    relpath (dp ++ [g]) SCRIPT_DIR ≠ mimetype ∧
                                    written_from SCRIPT_DIR t dp g e) new).
    { intros new Hnew. eapply Forall_impl; [exact Hnew|].
      intros e (g & Hg & He). exists g. split; [by right | done]. }
    destruct (decide (relpath (dp ++ [f]) SCRIPT_DIR = mimetype)) as [_|Hm].
    { intros H. destruct (IH _ H) as (new & -> & Hnew). exists new. auto. }
    destruct (skipped_file f) eqn:Es.
    { intros H. destruct (IH _ H) as (new & -> & Hnew). exists new. auto. }
    destruct (zip_write t (dp ++ [f]) _ ZIP_DEFLATED entries) as [entries1|e1] eqn:Ez;
      [|done].
    intros H. destruct (IH _ H) as (new & -> & Hnew).
    apply zip_write_entries in Ez as (e & -> & Hz).
    exists (e :: new). split; [by rewrite <- app_assoc|].
    constructor; [|auto]. exists f. split_and!; [by left | done | done].
Qed.

Lemma add_files_complete t dp fs entries entries' f :
  add_files SCRIPT_DIR t dp fs entries = (Ok tt, entries') →
  f ∈ fs → relpath (dp ++ [f]) SCRIPT_DIR ≠ mimetype → skipped_file f = false →
  ∃ e, e ∈ entries' ∧
       zip_write t (dp ++ [f]) (relpath (dp ++ [f]) SCRIPT_DIR) ZIP_DEFLATED [] = Ok [e].
Proof.
  intros Hadd Hf Hm Hs. revert entries Hadd.
  induction fs as [|g fs IH]; intros entries Hadd; [by apply elem_of_nil in Hf|].
  cbn [add_files] in Hadd. apply elem_of_cons in Hf as [<-|Hf].
  - rewrite decide_False, Hs in Hadd by done.
    destruct (zip_write t (dp ++ [f]) _ ZIP_DEFLATED entries) as [entries1|e1] eqn:Ez;
      [|done].
    apply zip_write_entries in Ez as (e & -> & Hz).
    apply add_files_sound in Hadd as (new & -> & _).
    exists e. split; [|done]. apply elem_of_app. left. apply elem_of_app. right. by left.
  - destruct (decide (relpath (dp ++ [g]) SCRIPT_DIR = mimetype)); [by eapply IH|].
    destruct (skipped_file g); [by eapply IH|].
    destruct (zip_write t (dp ++ [g]) _ ZIP_DEFLATED entries) as [entries1|e1]; [|done].
    by eapply IH.
Qed.

Lemma add_dirs_sound t dirs entries entries' :
  add_dirs SCRIPT_DIR t dirs entries = (Ok tt, entries') →
  ∃ new, entries' = entries ++ new ∧
         Forall (fun e => ∃ dp fs f,
                     (dp, fs) ∈ dirs ∧ f ∈ fs ∧
                     relpath (dp ++ [f]) SCRIPT_DIR ≠ mimetype ∧
                     written_from SCRIPT_DIR t dp f e) new.
Proof.
  revert entries. induction dirs as [|[dp fs] dirs IH]; intros entries; cbn [add_dirs].
  - intros [= <-]. exists []. by rewrite app_nil_r.
  - destruct (add_files SCRIPT_DIR t dp (sorted fs) entries) as [[[]|e1] entries1] eqn:Ef;
      [|done].
    intros H. destruct (IH _ H) as (new2 & -> & Hnew2).
    apply add_files_sound in Ef as (new1 & -> & Hnew1).
    exists (new1 ++ new2). split; [by rewrite <- app_assoc|].
    apply Forall_app. split.
    + eapply Forall_impl; [exact Hnew1|]. intros e (f & Hf & Hm & He).
      exists dp, fs, f. split_and!; [by left | | done | done].
      unfold sorted in Hf. by rewrite (merge_sort_Permutation str_le) in Hf.
    + eapply Forall_impl; [exact Hnew2|]. intros e (dp' & fs' & f & Hd & Hf & He).
      exists dp', fs', f. split_and!; [by right | done | by destruct He | by destruct He].
Qed.

Lemma add_dirs_complete t dirs entries entries' dp fs f :
  add_dirs SCRIPT_DIR t dirs entries = (Ok tt, entries') →
  (dp, fs) ∈ dirs → f ∈ fs →
  relpath (dp ++ [f]) SCRIPT_DIR ≠ mimetype → skipped_file f = false →
  ∃ e, e ∈ entries' ∧
       zip_write t (dp ++ [f]) (relpath (dp ++ [f]) SCRIPT_DIR) ZIP_DEFLATED [] = Ok [e].
Proof.
  intros Hadd Hd Hf Hm Hs. revert entries Hadd.
  induction dirs as [|[dp' fs'] dirs IH]; intros entries Hadd; [by apply elem_of_nil in Hd|].
  cbn [add_dirs] in Hadd.
  destruct (add_files SCRIPT_DIR t dp' (sorted fs') entries) as [[[]|e1] entries1] eqn:Ef;
    [|done].
  apply elem_of_cons in Hd as [[= <- <-]|Hd]; [|by eapply IH].
  destruct (add_files_complete t dp (sorted fs) entries entries1 f Ef) as (e & He & Hz);
    [|done|done|].
  { unfold sorted. by rewrite (merge_sort_Permutation str_le). }
  apply add_dirs_sound in Hadd as (new & -> & _).
  exists e. split; [|done]. apply elem_of_app. by left.
Qed.

Lemma fs_write_over_dir p data t l cs :
  fs_lookup p t = Some (Dir l cs) → ∃ e, fs_write p data t = Raise e.
Proof.
  revert t. induction p as [|x p IH]; intros t Hl.
  - destruct t; eexists; reflexivity.
  - destruct t as [r x0 d|l0 cs0]; [done|]. cbn [fs_lookup] in Hl.
    destruct (lookup_child x cs0) as [sub|] eqn:El; [|done].
    destruct p as [|y ys].
    + cbn [fs_lookup] in Hl. injection Hl as ->. cbn [fs_write]. rewrite El. eauto.
    + rewrite fs_write_cons2, El. destruct (IH sub Hl) as [e ->]. eauto.
Qed.

Lemma fs_remove_dir p t l cs :
  fs_lookup p t = Some (Dir l cs) → ∃ e, fs_remove p t = Raise e.
Proof.
  revert t. induction p as [|x p IH]; intros t Hl.
  - destruct t; eexists; reflexivity.
  - destruct t as [r x0 d|l0 cs0]; [done|]. cbn [fs_lookup] in Hl.
    destruct (lookup_child x cs0) as [sub|] eqn:El; [|done].
    destruct p as [|y ys].
    + cbn [fs_lookup] in Hl. injection Hl as ->. cbn [fs_remove]. rewrite El. eauto.
    + rewrite fs_remove_cons2, El. destruct (IH sub Hl) as [e ->]. eauto.
Qed.

(** Writing or removing a file leaves the directory that holds it a
    directory, listable or not as it was. *)
Lemma fs_write_keeps_dir dir a data t t' l cs :
  fs_write (dir ++ [a]) data t = Ok t' → fs_lookup dir t = Some (Dir l cs) →
  ∃ cs', fs_lookup dir t' = Some (Dir l cs').
Proof.
  revert t t'. induction dir as [|x dir IH]; intros t t' Hw Hl.
  - injection Hl as ->. cbn [app fs_write] in Hw.
    destruct (lookup_child a cs) as [[r [|] d|l' cs']|]; [|done|done|];
      injection Hw as <-; eauto.
  - destruct t as [|l0 cs0]; [done|]. cbn [fs_lookup] in Hl.
    destruct (lookup_child x cs0) as [sub|] eqn:El; [|done].
    assert (∃ sub', fs_write (dir ++ [a]) data sub = Ok sub' ∧
                    t' = Dir l0 (set_child x sub' cs0)) as (sub' & Hs & ->).
    { destruct dir; cbn [app] in *; rewrite fs_write_cons2, El in Hw;
        (destruct (fs_write _ data sub) as [sub'|e]; [|done]);
        injection Hw as <-; eauto. }
    cbn [fs_lookup]. rewrite lookup_child_set_child, decide_True by done. by eapply IH.
Qed.

Lemma fs_remove_keeps_dir dir a t t' l cs :
  fs_remove (dir ++ [a]) t = Ok t' → fs_lookup dir t = Some (Dir l cs) →
  ∃ cs', fs_lookup dir t' = Some (Dir l cs').
Proof.
  revert t t'. induction dir as [|x dir IH]; intros t t' Hw Hl.
  - injection Hl as ->. cbn [app fs_remove] in Hw.
    destruct (lookup_child a cs) as [[r x d|l' cs']|]; [|done|done].
    injection Hw as <-. eauto.
  - destruct t as [|l0 cs0]; [done|]. cbn [fs_lookup] in Hl.
    destruct (lookup_child x cs0) as [sub|] eqn:El; [|done].
    assert (∃ sub', fs_remove (dir ++ [a]) sub = Ok sub' ∧
                    t' = Dir l0 (set_child x sub' cs0)) as (sub' & Hs & ->).
    { destruct dir; cbn [app] in *; rewrite fs_remove_cons2, El in Hw;
        (destruct (fs_remove _ sub) as [sub'|e]; [|done]);
        injection Hw as <-; eauto. }
    cbn [fs_lookup]. rewrite lookup_child_set_child, decide_True by done. by eapply IH.
Qed.

Lemma fs_write_parent_dir dir a data t t' :
  fs_write (dir ++ [a]) data t = Ok t' → ∃ l cs, fs_lookup dir t = Some (Dir l cs).
Proof.
  revert t t'. induction dir as [|x dir IH]; intros t t' Hw.
  - destruct t as [|l cs]; [done|]. cbn [fs_lookup]. eauto.
  - destruct t as [|l0 cs0]; [by destruct dir|]. cbn [fs_lookup].
    assert (∃ sub sub', lookup_child x cs0 = Some sub ∧
                        fs_write (dir ++ [a]) data sub = Ok sub') as (sub & sub' & -> & Hs).
    { destruct dir; cbn [app] in *; rewrite fs_write_cons2 in Hw;
        (destruct (lookup_child x cs0) as [sub|]; [|done]);
        (destruct (fs_write _ data sub) as [sub'|e] eqn:E; [|done]); eauto. }
    by eapply IH.
Qed.

Lemma fs_remove_parent_dir dir a t t' :
  fs_remove (dir ++ [a]) t = Ok t' → ∃ l cs, fs_lookup dir t = Some (Dir l cs).
Proof.
  revert t t'. induction dir as [|x dir IH]; intros t t' Hw.
  - destruct t as [|l cs]; [done|]. cbn [fs_lookup]. eauto.
  - destruct t as [|l0 cs0]; [by destruct dir|]. cbn [fs_lookup].
    assert (∃ sub sub', lookup_child x cs0 = Some sub ∧
                        fs_remove (dir ++ [a]) sub = Ok sub') as (sub & sub' & -> & Hs).
    { destruct dir; cbn [app] in *; rewrite fs_remove_cons2 in Hw;
        (destruct (lookup_child x cs0) as [sub|]; [|done]);
        (destruct (fs_remove _ sub) as [sub'|e] eqn:E; [|done]); eauto. }
    by eapply IH.
Qed.

(** A successful packaging step did not find a directory in the place of
    the archive. *)
Lemma archive_place_not_dir t t0 t1 l cs :
  (t0 = t ∨ fs_remove (OUTPUT_EPUB SCRIPT_DIR) t = Ok t0) →
  fs_write (OUTPUT_EPUB SCRIPT_DIR) (Archive []) t0 = Ok t1 →
  fs_lookup (OUTPUT_EPUB SCRIPT_DIR) t ≠ Some (Dir l cs).
Proof.
  intros [->|Hr] Hw Hl.
  - destruct (fs_write_over_dir _ (Archive []) _ _ _ Hl) as [e He]. congruence.
  - destruct (fs_remove_dir _ _ _ _ Hl) as [e He]. congruence.
Qed.

(** The first component of the path of a file the loop does not skip is not
    the name of the archive. *)
Lemma beside_archive_file t t0 t1 dirs f r x d :
  (t0 = t ∨ fs_remove (OUTPUT_EPUB SCRIPT_DIR) t = Ok t0) →
  fs_write (OUTPUT_EPUB SCRIPT_DIR) (Archive []) t0 = Ok t1 →
  skipped_file f = false →
  fs_lookup (SCRIPT_DIR ++ dirs ++ [f]) t = Some (File r x d) ∨
  fs_lookup (SCRIPT_DIR ++ dirs ++ [f]) t1 = Some (File r x d) →
  fs_lookup (SCRIPT_DIR ++ dirs ++ [f]) t1 = fs_lookup (SCRIPT_DIR ++ dirs ++ [f]) t.
Proof.
  intros H0 H1 Hs Hl. destruct dirs as [|y dirs].
  - apply (beside_archive SCRIPT_DIR t t0 t1 f []); [done | done |].
    intros ->. by vm_compute in Hs.
  - cbn [app]. apply (beside_archive SCRIPT_DIR t t0 t1 y (dirs ++ [f])); [done | done |].
    intros ->. cbn [app] in Hl.
    assert (Hbelow : ∀ u, fs_lookup (SCRIPT_DIR ++ epub_name :: dirs ++ [f]) u
                           = Some (File r x d) →
                          ∃ l cs, fs_lookup (OUTPUT_EPUB SCRIPT_DIR) u = Some (Dir l cs)).
    { intros u Hu. change (OUTPUT_EPUB SCRIPT_DIR) with (SCRIPT_DIR ++ [epub_name]).
      rewrite fs_lookup_app in Hu. rewrite fs_lookup_app.
      destruct (fs_lookup SCRIPT_DIR u) as [[|l cs]|]; [done| |done].
      cbn [fs_lookup] in *. destruct (lookup_child epub_name cs) as [[r1 x1 d1|l1 cs1]|];
        [|eauto|done].
      rewrite fs_lookup_file_below in Hu; [done | by destruct dirs]. }
    destruct Hl as [Hl|Hl].
    + destruct (Hbelow _ Hl) as (l & cs & Hcs). by eapply archive_place_not_dir.
    + destruct (Hbelow _ Hl) as (l & cs & Hcs).
      destruct (fs_write_lookup _ _ _ _ H1) as [r1 Hf]. congruence.
Qed.

(** The directories below the directory of the script that can be listed
    before the archive is opened can be listed after. *)
Lemma listable_beside_archive t t0 t1 top dirs f r x d :
  (t0 = t ∨ fs_remove (OUTPUT_EPUB SCRIPT_DIR) t = Ok t0) →
  fs_write (OUTPUT_EPUB SCRIPT_DIR) (Archive []) t0 = Ok t1 →
  fs_lookup SCRIPT_DIR t = Some top →
  listable_along dirs top = true →
  fs_lookup (SCRIPT_DIR ++ dirs ++ [f]) t1 = Some (File r x d) →
  ∃ top1, fs_lookup SCRIPT_DIR t1 = Some top1 ∧ listable_along dirs top1 = true.
Proof.
  intros H0 H1 Htop Hlist Hl1.
  rewrite fs_lookup_app in Hl1.
  destruct (fs_lookup SCRIPT_DIR t1) as [top1|] eqn:Etop1; [|done].
  exists top1. split; [done|].
  destruct top as [r0 x0 d0|l cs].
  { exfalso. change (OUTPUT_EPUB SCRIPT_DIR) with (SCRIPT_DIR ++ [epub_name]) in H0, H1.
    destruct H0 as [->|H0].
    - destruct (fs_write_parent_dir _ _ _ _ _ H1) as (l & cs & E). congruence.
    - destruct (fs_remove_parent_dir _ _ _ _ H0) as (l & cs & E). congruence. }
  assert (∃ cs1, top1 = Dir l cs1) as [cs1 ->].
  { change (OUTPUT_EPUB SCRIPT_DIR) with (SCRIPT_DIR ++ [epub_name]) in H0, H1.
    destruct H0 as [->|H0].
    - destruct (fs_write_keeps_dir _ _ _ _ _ _ _ H1 Htop) as [cs1 E]. rewrite Etop1 in E.
      injection E as ->. eauto.
    - destruct (fs_remove_keeps_dir _ _ _ _ _ _ H0 Htop) as [cs0 E0].
      destruct (fs_write_keeps_dir _ _ _ _ _ _ _ H1 E0) as [cs1 E]. rewrite Etop1 in E.
      injection E as ->. eauto. }
  destruct dirs as [|y dirs]; [done|]. cbn [listable_along] in *.
  apply andb_true_iff in Hlist as [-> Hlist]. cbn [andb]. cbn [app fs_lookup] in Hl1.
  destruct (lookup_child y cs1) as [sub1|] eqn:El1; [|done].
  assert (Hy : y ≠ epub_name).
  { intros ->. destruct (fs_write_lookup _ _ _ _ H1) as [r1 Hf].
    change (OUTPUT_EPUB SCRIPT_DIR) with (SCRIPT_DIR ++ [epub_name]) in Hf.
    rewrite fs_lookup_app, Etop1 in Hf. cbn [fs_lookup] in Hf. rewrite El1 in Hf.
    injection Hf as ->. rewrite fs_lookup_file_below in Hl1; [done | by destruct dirs]. }
  pose proof (beside_archive SCRIPT_DIR t t0 t1 y [] H0 H1 Hy) as Hb.
  rewrite !fs_lookup_app, Etop1, Htop in Hb. cbn [fs_lookup] in Hb. rewrite El1 in Hb.
  destruct (lookup_child y cs) as [sub|]; [|done]. by injection Hb as ->.
Qed.

(** X7: on a file system with one entry per name, every entry a successful
    packaging step writes after the first holds a file that lies below
    directories whose names neither start with a dot nor are
    [__pycache__], whose own name ends in none of [.py], [.epub] and
    [.DS_Store], and whose archive name is not [mimetype]. *)
Theorem archive_skips_excluded (w w' : world) :
  wf_tree (tree w) →
  (∃ r x data,
     fs_lookup (SCRIPT_DIR ++ [mimetype]) (tree w) = Some (File r x data)) →
  package_epub SCRIPT_DIR w = (Ok tt, w') →
  ∃ r x first rest,
    fs_lookup (OUTPUT_EPUB SCRIPT_DIR) (tree w')
    = Some (File r x (Archive (first :: rest))) ∧
    Forall (fun e =>
              ∃ dirs f x data,
                arcname e = join slash (dirs ++ [f]) ∧
                Forall (fun x => keep_dir x = true) dirs ∧
                skipped_file f = false ∧
                arcname e ≠ mimetype ∧
                fs_lookup (SCRIPT_DIR ++ dirs ++ [f]) (tree w)
                = Some (File true x data)) rest.
Proof.
  intros Hwf (rm & xm & dm & Hm) Hpkg.
  apply package_epub_ok in Hpkg as (t0 & t1 & entries & H0 & H1 & Hz & H2).
  assert (H0' : t0 = tree w ∨ fs_remove (OUTPUT_EPUB SCRIPT_DIR) (tree w) = Ok t0)
    by (destruct H0; auto).
  assert (Hwf1 : wf_tree t1).
  { eapply fs_write_wf; [|exact H1]. destruct H0 as [->|H0]; [done|].
    by eapply fs_remove_wf. }
  assert (Hm1 : fs_lookup (SCRIPT_DIR ++ [mimetype]) t1 = Some (File rm xm dm)).
  { rewrite (beside_archive SCRIPT_DIR (tree w) t0 t1 mimetype []); done. }
  destruct (fs_write_lookup _ _ _ _ H2) as [r2 Ha2].
  unfold zip_body, zip_write in Hz. rewrite Hm1 in Hz. destruct rm; [|done].
  destruct (encodable mimetype); [|done].
  apply add_dirs_sound in Hz as (new & -> & Hnew).
  exists r2, true, (ZipEntry mimetype ZIP_STORED (Some dm)), new. split; [done|].
  eapply Forall_impl; [exact Hnew|].
  intros e (dp & fs & f & Hd & Hf & Hnm & Hskip & Hw).
  unfold walk_script_dir in Hd.
  destruct (fs_lookup SCRIPT_DIR t1) as [top|] eqn:Etop; [|by apply elem_of_nil in Hd].
  assert (Hwftop : wf_tree top).
  { clear -Hwf1 Etop. revert t1 Hwf1 Etop.
    induction SCRIPT_DIR as [|y p IH]; intros t1 Hwf1 Etop; [by injection Etop as <-|].
    destruct t1 as [|l cs]; [done|]. cbn [fs_lookup] in Etop.
    destruct (lookup_child y cs) as [sub|] eqn:El; [|done].
    eapply IH; [|done]. by eapply wf_child. }
  destruct (walk_files_sound keep_dir top Hwftop _ _ _ _ Hd Hf)
    as (dirs & r & x & d & -> & Hdirs & Hl).
  assert (Hl1 : fs_lookup (SCRIPT_DIR ++ dirs ++ [f]) t1 = Some (File r x d)).
  { by rewrite fs_lookup_app, Etop. }
  rewrite <- (app_assoc SCRIPT_DIR dirs [f]) in Hw, Hnm.
  rewrite relpath_below in Hw, Hnm by (by destruct dirs).
  unfold zip_write in Hw. rewrite Hl1 in Hw. destruct r; [|done].
  destruct (encodable (join slash (dirs ++ [f]))); [|done].
  injection Hw as <-. exists dirs, f, x, d. split_and!; [done | done | done | done |].
  rewrite <- Hl1. symmetry. eapply beside_archive_file; eauto.
Qed.

(** X8: a successful packaging step leaves out no file it is meant to
    hold: every file below the directory of the script that is reached
    through directories that can be listed and that the exclusions of the
    loop do not name is an entry of the archive, deflated, under its
    relative path and with its data. (A directory that cannot be listed is
    passed over, and what lies below it is left out without an error.) *)
Theorem archive_holds_every_file (w w' : world) (top : node) (dirs : path)
    (f : pystr) (r x : bool) (data : content) :
  package_epub SCRIPT_DIR w = (Ok tt, w') →
  fs_lookup SCRIPT_DIR (tree w) = Some top →
  listable_along dirs top = true →
  fs_lookup (SCRIPT_DIR ++ dirs ++ [f]) (tree w) = Some (File r x data) →
  Forall (fun x => keep_dir x = true) dirs →
  skipped_file f = false →
  join slash (dirs ++ [f]) ≠ mimetype →
  ∃ r' x' entries e,
    fs_lookup (OUTPUT_EPUB SCRIPT_DIR) (tree w') = Some (File r' x' (Archive entries)) ∧
    e ∈ entries ∧
    e = ZipEntry (join slash (dirs ++ [f])) ZIP_DEFLATED (Some data).
Proof.
  intros Hpkg Htop Hlist Hl Hdirs Hskip Hnm.
  apply package_epub_ok in Hpkg as (t0 & t1 & entries & H0 & H1 & Hz & H2).
  assert (H0' : t0 = tree w ∨ fs_remove (OUTPUT_EPUB SCRIPT_DIR) (tree w) = Ok t0)
    by (destruct H0; auto).
  assert (Hl1 : fs_lookup (SCRIPT_DIR ++ dirs ++ [f]) t1 = Some (File r x data)).
  { rewrite <- Hl. eapply beside_archive_file; eauto. }
  destruct (listable_beside_archive (tree w) t0 t1 top dirs f r x data H0' H1 Htop Hlist Hl1)
    as (top1 & Etop & Hlist1).
  destruct (fs_write_lookup _ _ _ _ H2) as [r2 Ha2].
  unfold zip_body in Hz.
  destruct (zip_write t1 (SCRIPT_DIR ++ [mimetype]) mimetype ZIP_STORED [])
    as [entries0|e0]; [|done].
  rewrite fs_lookup_app, Etop in Hl1.
  destruct (walk_files_complete keep_dir top1 SCRIPT_DIR dirs f r x data Hdirs Hlist1 Hl1)
    as (fs & Hin & Hf).
  assert (Hrel : relpath ((SCRIPT_DIR ++ dirs) ++ [f]) SCRIPT_DIR = join slash (dirs ++ [f])).
  { rewrite <- app_assoc. apply relpath_below. by destruct dirs. }
  destruct (add_dirs_complete t1 (walk_script_dir SCRIPT_DIR t1) entries0 entries
              (SCRIPT_DIR ++ dirs) fs f Hz) as (e & He & Hw); [| done | | done |].
  { unfold walk_script_dir. by rewrite Etop. }
  { by rewrite Hrel. }
  exists r2, true, entries, e. split_and!; [done | done |].
  rewrite Hrel in Hw. unfold zip_write in Hw.
  rewrite <- app_assoc, fs_lookup_app, Etop, Hl1 in Hw.
  destruct r; [|done]. destruct (encodable (join slash (dirs ++ [f]))); [|done].
  by injection Hw as <-.
Qed.

End ArchiveMore.

(** The archive of the small book leaves out the script and what lies below
    [.git], and holds the stylesheet. *)
Lemma archive_skips_excluded_book :
  ∃ r x first rest,
    fs_lookup (OUTPUT_EPUB book_dir) (tree (package_epub book_dir book_world).2)
    = Some (File r x (Archive (first :: rest))) ∧
    Forall (fun e =>
              ∃ dirs f x data,
                arcname e = join slash (dirs ++ [f]) ∧
                Forall (fun x => keep_dir x = true) dirs ∧
                skipped_file f = false ∧
                arcname e ≠ mimetype ∧
                fs_lookup (book_dir ++ dirs ++ [f]) (tree book_world)
                = Some (File true x data)) rest.
Proof.
  apply (archive_skips_excluded book_dir book_world (package_epub book_dir book_world).2).
  - apply book_tree_wf.
  - eexists _, _, _. vm_compute. reflexivity.
  - vm_compute. reflexivity.
Defined.

Lemma archive_holds_every_file_book :
  ∃ r' x' entries e,
    fs_lookup (OUTPUT_EPUB book_dir) (tree (package_epub book_dir book_world).2)
    = Some (File r' x' (Archive entries)) ∧
    e ∈ entries ∧
    e = ZipEntry (join slash ([py "OEBPS"; py "Styles"] ++ [py "style.css"]))
          ZIP_DEFLATED (Some (Text (py "body {}"))).
Proof.
  apply (archive_holds_every_file book_dir book_world
           (package_epub book_dir book_world).2 (Dir true book_files)
           [py "OEBPS"; py "Styles"] (py "style.css") true true (Text (py "body {}"))).
  - vm_compute. reflexivity.
  - vm_compute. reflexivity.
  - vm_compute. reflexivity.
  - vm_compute. reflexivity.
  - repeat constructor.
  - vm_compute. reflexivity.
  - vm_compute. intros [=].
Defined.

(** ** More about the steps of the build *)

Lemma set_child_set_child name n n' cs :
  set_child name n' (set_child name n cs) = set_child name n' cs.
Proof.
  induction cs as [|[k m] cs IH]; cbn [set_child].
  - by rewrite decide_True.
  - destruct (decide (k = name)) as [->|Hk]; cbn [set_child].
    + by rewrite decide_True.
    + rewrite decide_False by done. by rewrite IH.
Qed.

(** Writing a file that was just written gives what writing it at once
    gives. *)
Lemma fs_write_again p d d' t t1 :
  fs_write p d t = Ok t1 → fs_write p d' t1 = fs_write p d' t.
Proof.
  revert t t1. induction p as [|x p IH]; intros t t1 Hw; [by destruct t|].
  destruct t as [r0 x0 d0|l cs]; [by destruct p|]. destruct p as [|y ys].
  - cbn [fs_write] in *.
    destruct (lookup_child x cs) as [[r [|] c|l' cs']|] eqn:El; [|done|done|];
      injection Hw as <-;
      rewrite lookup_child_set_child, decide_True by done;
      by rewrite set_child_set_child.
  - rewrite fs_write_cons2 in Hw. rewrite (fs_write_cons2 x y ys d' l cs).
    destruct (lookup_child x cs) as [sub|] eqn:El; [|done].
    destruct (fs_write (y :: ys) d sub) as [sub'|e] eqn:Es; [|done].
    cbn [mbind result_bind] in Hw. injection Hw as <-.
    rewrite fs_write_cons2, lookup_child_set_child, decide_True by done.
    rewrite (IH _ _ Es). destruct (fs_write (y :: ys) d' sub); cbn [mbind result_bind];
      [by rewrite set_child_set_child | done].
Qed.

(** Whether a file can be opened for writing does not depend on what is
    written. *)
Lemma fs_write_raises p d d' t e :
  fs_write p d t = Raise e → fs_write p d' t = Raise e.
Proof.
  revert t. induction p as [|x p IH]; intros t Hw; [by destruct t|].
  destruct t as [r0 x0 d0|l cs]; [by destruct p|]. destruct p as [|y ys].
  - cbn [fs_write] in *. by destruct (lookup_child x cs) as [[r [|] c|l' cs']|].
  - rewrite fs_write_cons2 in Hw. rewrite fs_write_cons2.
    destruct (lookup_child x cs) as [sub|] eqn:El; [|done].
    destruct (fs_write (y :: ys) d sub) as [sub'|e'] eqn:Es; [done|].
    cbn [mbind result_bind] in Hw. injection Hw as ->. by rewrite (IH _ Es).
Qed.

Lemma M_bind_ok_inv {A B} (m : M A) (f : A → M B) w b w' :
  (m ≫= f) w = (Ok b, w') → ∃ a w1, m w = (Ok a, w1) ∧ f a w1 = (Ok b, w').
Proof.
  unfold mbind, M_bind. destruct (m w) as [[a|e] w1]; [eauto | done].
Qed.

Lemma print_chapters_spec i chapters w :
  print_chapters i chapters w =
  (Ok tt,
   World (tree w)
         (stdout w ++
          imap (fun j ch => MsgChapter (i + j) (ch_level ch) (ch_filename ch)) chapters)).
Proof.
  revert i w. induction chapters as [|ch l IH]; intros i w.
  - cbn. destruct w. by rewrite app_nil_r.
  - cbn [print_chapters]. unfold mbind, M_bind, print. rewrite IH. cbn [tree stdout imap].
    rewrite <- app_assoc, Nat.add_0_r. cbn [app]. do 4 f_equal.
    apply imap_ext. intros j x _. cbn. f_equal. lia.
Qed.

Lemma wf_tree_lookup p t n : wf_tree t → fs_lookup p t = Some n → wf_tree n.
Proof.
  revert t. induction p as [|x p IH]; intros t Hwf Hl; [by injection Hl as <-|].
  destruct t as [|l cs]; [done|]. cbn [fs_lookup] in Hl.
  destruct (lookup_child x cs) as [sub|] eqn:El; [|done].
  eapply IH; [|done]. by eapply wf_child.
Qed.

Lemma lookup_child_not_elem name cs : name ∉ cs.*1 → lookup_child name cs = None.
Proof.
  induction cs as [|[k m] cs IH]; [done|]. rewrite fmap_cons, not_elem_of_cons.
  cbn [fst lookup_child]. intros [Hne Hnin]. rewrite decide_False by done. by apply IH.
Qed.

Lemma lookup_child_remove_child_same name cs :
  NoDup cs.*1 → lookup_child name (remove_child name cs) = None.
Proof.
  induction cs as [|[k m] cs IH]; [done|]. rewrite fmap_cons. cbn [fst].
  intros [Hk Hnd]%NoDup_cons. cbn [remove_child].
  destruct (decide (k = name)) as [->|Hne].
  - by apply lookup_child_not_elem.
  - cbn [lookup_child]. rewrite decide_False by done. by apply IH.
Qed.

Lemma fs_remove_spec dir a t l cs r x d :
  fs_lookup dir t = Some (Dir l cs) → lookup_child a cs = Some (File r x d) →
  ∃ t', fs_remove (dir ++ [a]) t = Ok t' ∧
        fs_lookup dir t' = Some (Dir l (remove_child a cs)).
Proof.
  revert t. induction dir as [|y dir IH]; intros t Hl Ha.
  - injection Hl as ->. cbn [app fs_remove]. rewrite Ha. eauto.
  - destruct t as [|l0 cs0]; [done|]. cbn [fs_lookup] in Hl.
    destruct (lookup_child y cs0) as [sub|] eqn:El; [|done].
    destruct (IH sub Hl Ha) as (sub' & Hr & Hl').
    assert (fs_remove ((y :: dir) ++ [a]) (Dir l0 cs0)
            = Ok (Dir l0 (set_child y sub' cs0))) as ->.
    { destruct dir; cbn [app] in *; rewrite fs_remove_cons2, El, Hr; done. }
    eexists. split; [done|]. cbn [fs_lookup].
    by rewrite lookup_child_set_child, decide_True.
Qed.

(** A file that is created can be read and written. *)
Lemma fs_write_new dir a data t l cs :
  fs_lookup dir t = Some (Dir l cs) → lookup_child a cs = None →
  ∃ t', fs_write (dir ++ [a]) data t = Ok t' ∧
        fs_lookup dir t' = Some (Dir l (set_child a (File true true data) cs)).
Proof.
  revert t. induction dir as [|y dir IH]; intros t Hl Ha.
  - injection Hl as ->. cbn [app fs_write]. rewrite Ha. eauto.
  - destruct t as [|l0 cs0]; [done|]. cbn [fs_lookup] in Hl.
    destruct (lookup_child y cs0) as [sub|] eqn:El; [|done].
    destruct (IH sub Hl Ha) as (sub' & Hw & Hl').
    assert (fs_write ((y :: dir) ++ [a]) data (Dir l0 cs0)
            = Ok (Dir l0 (set_child y sub' cs0))) as ->.
    { destruct dir; cbn [app] in *; rewrite fs_write_cons2, El, Hw; done. }
    eexists. split; [done|]. cbn [fs_lookup].
    by rewrite lookup_child_set_child, decide_True.
Qed.

Section StepFacts.

Context (ua : N → bool) (SCRIPT_DIR : path) (now : pystr)
        (prettier : list path → node → proc_outcome * node)
        (file_size : node → N).

(** What writing the document [doc] to the file [p] does after [open] has
    emptied the file. *)
Lemma write_after_open p doc m w t0 :
  fs_write p (Text []) (tree w) = Ok t0 →
  (updating (write_text p doc);; print m) (World t0 (stdout w)) =
  if encodable doc
  then match fs_write p (Text doc) (tree w) with
       | Ok t => (Ok tt, World t (stdout w ++ [m]))
       | Raise e => (Raise e, w)
       end
  else (Raise UnicodeEncodeError, World t0 (stdout w)).
Proof.
  intros Hw. unfold mbind, M_bind, updating, write_text, print. cbn [tree stdout].
  destruct (encodable doc); [|done].
  rewrite (fs_write_again _ _ _ _ _ Hw).
  destruct (fs_write p (Text doc) (tree w)) as [t|e] eqn:Ew'; [done|].
  apply (fs_write_raises _ _ (Text [])) in Ew'. congruence.
Qed.

Lemma write_toc_step_outcomes chapters toc w :
  build_toc_xhtml chapters = Ok toc →
  (∀ e, fs_write (toc_path SCRIPT_DIR) (Text []) (tree w) = Raise e →
        write_toc_step SCRIPT_DIR chapters w = (Raise e, w)) ∧
  (∀ t0, fs_write (toc_path SCRIPT_DIR) (Text []) (tree w) = Ok t0 →
         if encodable toc
         then ∃ t, fs_write (toc_path SCRIPT_DIR) (Text toc) (tree w) = Ok t ∧
                   write_toc_step SCRIPT_DIR chapters w =
                   (Ok tt, World t (stdout w ++ [MsgWroteToc]))
         else write_toc_step SCRIPT_DIR chapters w =
              (Raise UnicodeEncodeError, World t0 (stdout w)) ∧
              ∃ r, fs_lookup (toc_path SCRIPT_DIR) t0 = Some (File r true (Text []))).
Proof.
  intros Htoc. split.
  - intros e He. unfold write_toc_step, mbind at 1, M_bind at 1, updating at 1.
    by rewrite He.
  - intros t0 H0.
    assert (Hstep : write_toc_step SCRIPT_DIR chapters w =
                    (updating (write_text (toc_path SCRIPT_DIR) toc);; print MsgWroteToc)
                      (World t0 (stdout w))).
    { unfold write_toc_step, mbind at 1 2, M_bind at 1 2, updating at 1, computed.
      by rewrite H0, Htoc. }
    rewrite Hstep, (write_after_open _ _ _ _ _ H0).
    destruct (encodable toc).
    + destruct (fs_write (toc_path SCRIPT_DIR) (Text toc) (tree w)) as [t|e] eqn:Ew;
        [by eexists|].
      apply (fs_write_raises _ _ (Text [])) in Ew. congruence.
    + split; [done|]. by eapply fs_write_lookup.
Qed.

Lemma write_opf_step_outcomes chapters w :
  (∀ e, fs_write (opf_path SCRIPT_DIR) (Text []) (tree w) = Raise e →
        write_opf_step SCRIPT_DIR now chapters w = (Raise e, w)) ∧
  (∀ t0, fs_write (opf_path SCRIPT_DIR) (Text []) (tree w) = Ok t0 →
         if encodable (build_content_opf now chapters)
         then ∃ t, fs_write (opf_path SCRIPT_DIR) (Text (build_content_opf now chapters))
                     (tree w) = Ok t ∧
                   write_opf_step SCRIPT_DIR now chapters w =
                   (Ok tt, World t (stdout w ++ [MsgWroteOpf]))
         else write_opf_step SCRIPT_DIR now chapters w =
              (Raise UnicodeEncodeError, World t0 (stdout w)) ∧
              ∃ r, fs_lookup (opf_path SCRIPT_DIR) t0 = Some (File r true (Text []))).
Proof.
  split.
  - intros e He. unfold write_opf_step, mbind at 1, M_bind at 1, updating at 1.
    by rewrite He.
  - intros t0 H0.
    assert (Hstep : write_opf_step SCRIPT_DIR now chapters w =
                    (updating (write_text (opf_path SCRIPT_DIR)
                                 (build_content_opf now chapters));;
                     print MsgWroteOpf) (World t0 (stdout w))).
    { unfold write_opf_step, mbind at 1, M_bind at 1, updating at 1. by rewrite H0. }
    rewrite Hstep, (write_after_open _ _ _ _ _ H0).
    destruct (encodable (build_content_opf now chapters)).
    + destruct (fs_write (opf_path SCRIPT_DIR) (Text (build_content_opf now chapters))
                  (tree w)) as [t|e] eqn:Ew; [by eexists|].
      apply (fs_write_raises _ _ (Text [])) in Ew. congruence.
    + split; [done|]. by eapply fs_write_lookup.
Qed.

(** X9: the three ways steps 1 and 2 end. [build_toc_xhtml] returns a
    document. When the file cannot be opened for writing the step raises and
    leaves the world as it was. When it can, and the document holds no
    surrogate code point, the whole document is in the file and one line is
    printed: the write cannot fail for another reason. When the document
    holds a surrogate code point (from the name of a file), the step raises
    [UnicodeEncodeError] and leaves the file empty, as [open] made it. *)
Theorem write_steps_outcomes (chapters : list chapter) (w : world) :
  ∃ toc,
    build_toc_xhtml chapters = Ok toc ∧
    ((∀ e, fs_write (toc_path SCRIPT_DIR) (Text []) (tree w) = Raise e →
           write_toc_step SCRIPT_DIR chapters w = (Raise e, w)) ∧
     (∀ t0, fs_write (toc_path SCRIPT_DIR) (Text []) (tree w) = Ok t0 →
            if encodable toc
            then ∃ t, fs_write (toc_path SCRIPT_DIR) (Text toc) (tree w) = Ok t ∧
                      write_toc_step SCRIPT_DIR chapters w =
                      (Ok tt, World t (stdout w ++ [MsgWroteToc]))
            else write_toc_step SCRIPT_DIR chapters w =
                 (Raise UnicodeEncodeError, World t0 (stdout w)) ∧
                 ∃ r, fs_lookup (toc_path SCRIPT_DIR) t0
                      = Some (File r true (Text [])))) ∧
    ((∀ e, fs_write (opf_path SCRIPT_DIR) (Text []) (tree w) = Raise e →
           write_opf_step SCRIPT_DIR now chapters w = (Raise e, w)) ∧
     (∀ t0, fs_write (opf_path SCRIPT_DIR) (Text []) (tree w) = Ok t0 →
            if encodable (build_content_opf now chapters)
            then ∃ t, fs_write (opf_path SCRIPT_DIR)
                        (Text (build_content_opf now chapters)) (tree w) = Ok t ∧
                      write_opf_step SCRIPT_DIR now chapters w =
                      (Ok tt, World t (stdout w ++ [MsgWroteOpf]))
            else write_opf_step SCRIPT_DIR now chapters w =
                 (Raise UnicodeEncodeError, World t0 (stdout w)) ∧
                 ∃ r, fs_lookup (opf_path SCRIPT_DIR) t0
                      = Some (File r true (Text [])))).
Proof.
  destruct (toc_scan_total (TocState [] [] None) chapters) as [st Hst]; [by intros k|].
  assert (∃ toc, build_toc_xhtml chapters = Ok toc) as [toc Htoc].
  { unfold build_toc_xhtml, build_toc_xhtml_for, toc_lines. rewrite Hst.
    cbn [mbind result_bind].
    destruct (major_sections _ _ _ _) as [used lines]. by eexists. }
  exists toc. split; [done|]. split.
  - by apply write_toc_step_outcomes.
  - apply write_opf_step_outcomes.
Qed.

Lemma discover_step_ok w chapters w0 :
  discover_step ua SCRIPT_DIR w = (Ok chapters, w0) →
  discover_chapters ua SCRIPT_DIR (tree w) = Ok chapters ∧
  w0 = World (tree w)
             (stdout w ++ [MsgSource; MsgDiscovering; MsgFound (length chapters)] ++
              imap (fun i ch => MsgChapter i (ch_level ch) (ch_filename ch)) chapters).
Proof.
  unfold discover_step, mbind, M_bind, print, reading, mret, M_ret. cbn [tree stdout].
  destruct (discover_chapters ua SCRIPT_DIR (tree w)) as [chs|e]; [|done].
  rewrite print_chapters_spec. cbn [tree stdout]. intros [= -> <-]. split; [done|].
  by rewrite <- !app_assoc.
Qed.

Lemma format_step_ok chapters w w' :
  format_step SCRIPT_DIR prettier chapters w = (Ok tt, w') →
  ∃ fmt,
    (fmt = MsgFormatted (S (length chapters)) ∨ fmt = MsgPrettierSkipped) ∧
    stdout w' = stdout w ++ [MsgFormatting; fmt].
Proof.
  unfold format_step, try_except, run_prettier, mbind, M_bind, print. cbn [tree stdout].
  destruct (prettier (generated_files SCRIPT_DIR chapters) (tree w))
    as [[[|p] [|]|e] t]; cbn [catches_prettier]; try done.
  - intros [= <-]. exists (MsgFormatted (S (length chapters))). split; [by left|].
    cbn [stdout generated_files length]. by rewrite length_fmap, <- app_assoc.
  - intros [= <-]. exists MsgPrettierSkipped. split; [by right|].
    cbn [stdout]. by rewrite <- app_assoc.
  - destruct (catches_prettier e); [|done]. intros [= <-]. exists MsgPrettierSkipped.
    split; [by right|]. cbn [stdout]. by rewrite <- app_assoc.
Qed.

Lemma package_epub_stdout w r w' :
  package_epub SCRIPT_DIR w = (r, w') → stdout w' = stdout w ++ [MsgPackaging].
Proof.
  unfold package_epub, mbind, M_bind, print, remove_old_archive, fill_archive, updating.
  cbn [tree stdout].
  destruct (fs_exists (OUTPUT_EPUB SCRIPT_DIR) (tree w)).
  - destruct (fs_remove (OUTPUT_EPUB SCRIPT_DIR) (tree w)) as [t0|e];
      [|by intros [= _ <-]].
    cbn [tree stdout].
    destruct (fs_write (OUTPUT_EPUB SCRIPT_DIR) (Archive []) t0) as [t1|e];
      [|by intros [= _ <-]].
    cbn [tree stdout].
    destruct (zip_body SCRIPT_DIR t1) as [r1 entries].
    destruct (fs_write (OUTPUT_EPUB SCRIPT_DIR) (Archive entries) t1) as [t2|e];
      by intros [= _ <-].
  - cbn [tree stdout].
    destruct (fs_write (OUTPUT_EPUB SCRIPT_DIR) (Archive []) (tree w)) as [t1|e];
      [|by intros [= _ <-]].
    cbn [tree stdout].
    destruct (zip_body SCRIPT_DIR t1) as [r1 entries].
    destruct (fs_write (OUTPUT_EPUB SCRIPT_DIR) (Archive entries) t1) as [t2|e];
      by intros [= _ <-].
Qed.

Lemma report_step_ok chapters w w' :
  report_step SCRIPT_DIR file_size chapters w = (Ok tt, w') →
  ∃ archive,
    fs_lookup (OUTPUT_EPUB SCRIPT_DIR) (tree w) = Some archive ∧
    w' = World (tree w)
               (stdout w ++
                [MsgDone; MsgSize (file_size archive); MsgChapters (length chapters)]).
Proof.
  unfold report_step, getsize, mbind, M_bind, print, reading. cbn [tree stdout].
  destruct (fs_lookup (OUTPUT_EPUB SCRIPT_DIR) (tree w)) as [n|]; [|done].
  intros [= <-]. exists n. split; [done|]. by rewrite <- !app_assoc.
Qed.

Lemma write_toc_step_stdout chapters w w' :
  write_toc_step SCRIPT_DIR chapters w = (Ok tt, w') →
  stdout w' = stdout w ++ [MsgWroteToc].
Proof.
  unfold write_toc_step, mbind, M_bind, updating, computed, print.
  destruct (fs_write (toc_path SCRIPT_DIR) (Text []) (tree w)) as [t1|e]; [|done].
  destruct (build_toc_xhtml chapters) as [toc|e]; [|done]. cbn [tree stdout].
  destruct (write_text (toc_path SCRIPT_DIR) toc t1) as [t2|e]; [|done].
  by intros [= <-].
Qed.

Lemma write_opf_step_stdout chapters w w' :
  write_opf_step SCRIPT_DIR now chapters w = (Ok tt, w') →
  stdout w' = stdout w ++ [MsgWroteOpf].
Proof.
  unfold write_opf_step, mbind, M_bind, updating, print.
  destruct (fs_write (opf_path SCRIPT_DIR) (Text []) (tree w)) as [t1|e]; [|done].
  cbn [tree stdout].
  destruct (write_text (opf_path SCRIPT_DIR) _ t1) as [t2|e]; [|done].
  by intros [= <-].
Qed.

(** X10: what a run of [build_epub] that ends normally has printed: the two
    opening lines, the number of the chapters the scan of the file system
    the run started with gives, one line for each chapter with its index,
    level and file name, in the order of the list, the lines of steps 1 and
    2, the line of step 3 followed by either the count of the formatted
    files (the chapters and the navigation document) or the warning, the
    line of step 4, and the closing lines with the size of the archive that
    is in the file system at the end. *)
Theorem build_epub_output (w w' : world) :
  build_epub ua SCRIPT_DIR now prettier file_size w = (Ok tt, w') →
  ∃ chapters fmt archive,
    discover_chapters ua SCRIPT_DIR (tree w) = Ok chapters ∧
    fs_lookup (OUTPUT_EPUB SCRIPT_DIR) (tree w') = Some archive ∧
    (fmt = MsgFormatted (S (length chapters)) ∨ fmt = MsgPrettierSkipped) ∧
    stdout w' =
    stdout w ++ [MsgSource; MsgDiscovering; MsgFound (length chapters)] ++
    imap (fun i ch => MsgChapter i (ch_level ch) (ch_filename ch)) chapters ++
    [MsgWroteToc; MsgWroteOpf; MsgFormatting; fmt; MsgPackaging; MsgDone;
     MsgSize (file_size archive); MsgChapters (length chapters)].
Proof.
  unfold build_epub. intros H.
  apply M_bind_ok_inv in H as (chapters & w0 & H0 & H).
  apply M_bind_ok_inv in H as ([] & w1 & H1 & H).
  apply M_bind_ok_inv in H as ([] & w2 & H2 & H).
  apply M_bind_ok_inv in H as ([] & w3 & H3 & H).
  apply M_bind_ok_inv in H as ([] & w4 & H4 & H5).
  apply discover_step_ok in H0 as [Hd Hw0].
  apply write_toc_step_stdout in H1. apply write_opf_step_stdout in H2.
  apply format_step_ok in H3 as (fmt & Hfmt & H3).
  apply package_epub_stdout in H4.
  apply report_step_ok in H5 as (archive & Ha & ->).
  exists chapters, fmt, archive. split_and!; [done | done | done |].
  cbn [stdout]. rewrite H4, H3, H2, H1, Hw0. cbn [stdout].
  rewrite <- !app_assoc. done.
Qed.

Lemma fill_after_open t0 l cs0 out :
  fs_lookup SCRIPT_DIR t0 = Some (Dir l cs0) →
  lookup_child epub_name cs0 = None →
  lookup_child mimetype cs0 = None →
  ∃ t1,
    (updating (fs_write (OUTPUT_EPUB SCRIPT_DIR) (Archive []));; fill_archive SCRIPT_DIR)
      (World t0 out) = (Raise FileNotFoundError, World t1 out) ∧
    fs_write (OUTPUT_EPUB SCRIPT_DIR) (Archive []) t0 = Ok t1 ∧
    fs_lookup (OUTPUT_EPUB SCRIPT_DIR) t1 = Some (File true true (Archive [])).
Proof.
  intros Hl He Hm.
  destruct (fs_write_new SCRIPT_DIR epub_name (Archive []) t0 l cs0 Hl He) as
    (t1 & Hw & Hl1).
  change (SCRIPT_DIR ++ [epub_name]) with (OUTPUT_EPUB SCRIPT_DIR) in Hw.
  assert (Hz : zip_body SCRIPT_DIR t1 = (Raise FileNotFoundError, [])).
  { unfold zip_body, zip_write. rewrite fs_lookup_app, Hl1. cbn [fs_lookup].
    rewrite lookup_child_set_child, decide_False by done. by rewrite Hm. }
  exists t1. split_and!; [|done|].
  - unfold mbind, M_bind, fill_archive, updating. cbn [tree stdout]. rewrite Hw.
    cbn [tree stdout]. rewrite Hz, (fs_write_again _ _ _ _ _ Hw), Hw. done.
  - change (OUTPUT_EPUB SCRIPT_DIR) with (SCRIPT_DIR ++ [epub_name]).
    rewrite fs_lookup_app, Hl1. cbn [fs_lookup].
    by rewrite lookup_child_set_child, decide_True.
Qed.

(** X11: when the directory of the script holds no [mimetype] (on a file
    system with one entry per name, the place of the archive not being taken
    by a directory), the packaging step raises [FileNotFoundError] after one
    line is printed, and it leaves an archive without entries where the
    archive of an earlier run was; everything else in the directory is as
    before. *)
Theorem missing_mimetype_leaves_empty_archive (w : world) (l : bool)
    (cs : list (pystr * node)) :
  wf_tree (tree w) →
  fs_lookup SCRIPT_DIR (tree w) = Some (Dir l cs) →
  lookup_child mimetype cs = None →
  (∀ l' cs', lookup_child epub_name cs ≠ Some (Dir l' cs')) →
  ∃ t',
    package_epub SCRIPT_DIR w =
    (Raise FileNotFoundError, World t' (stdout w ++ [MsgPackaging])) ∧
    fs_lookup (OUTPUT_EPUB SCRIPT_DIR) t' = Some (File true true (Archive [])) ∧
    ∀ b rest,
      b ≠ epub_name →
      fs_lookup (SCRIPT_DIR ++ b :: rest) t' = fs_lookup (SCRIPT_DIR ++ b :: rest) (tree w).
Proof.
  intros Hwf Hl Hm Hnd.
  assert (Hex : fs_lookup (OUTPUT_EPUB SCRIPT_DIR) (tree w) = lookup_child epub_name cs).
  { change (OUTPUT_EPUB SCRIPT_DIR) with (SCRIPT_DIR ++ [epub_name]).
    rewrite fs_lookup_app, Hl. cbn [fs_lookup]. by destruct (lookup_child epub_name cs). }
  unfold package_epub, mbind at 1 2, M_bind at 1 2, print, remove_old_archive, fs_exists.
  cbn [tree stdout]. rewrite Hex.
  destruct (lookup_child epub_name cs) as [[r x d|l' cs']|] eqn:Ee.
  - destruct (fs_remove_spec SCRIPT_DIR epub_name (tree w) l cs r x d Hl Ee)
      as (t0 & Hr & Hl0).
    change (SCRIPT_DIR ++ [epub_name]) with (OUTPUT_EPUB SCRIPT_DIR) in Hr.
    unfold updating at 1. cbn [tree stdout]. rewrite Hr.
    destruct (fill_after_open t0 l (remove_child epub_name cs)
                (stdout w ++ [MsgPackaging]))
      as (t1 & Hgo & Hw & Hl1); [done | | |].
    { apply lookup_child_remove_child_same.
      by apply (wf_tree_lookup _ _ _ Hwf), wf_tree_dir in Hl as [Hn _]. }
    { by rewrite lookup_child_remove_child. }
    exists t1. split_and!; [done | done |]. intros b rest Hb.
    apply (beside_archive SCRIPT_DIR (tree w) t0 t1); auto.
  - by destruct (Hnd l' cs').
  - destruct (fill_after_open (tree w) l cs (stdout w ++ [MsgPackaging]))
      as (t1 & Hgo & Hw & Hl1); [done | done | done |].
    exists t1. split_and!; [done | done |]. intros b rest Hb.
    apply (beside_archive SCRIPT_DIR (tree w) (tree w) t1); auto.
Qed.

End StepFacts.

(** The build of the small book with a formatter that works. *)
Lemma build_epub_output_book :
  ∃ chapters fmt archive,
    discover_chapters no_unicode_alnum book_dir (tree book_world) = Ok chapters ∧
    fs_lookup (OUTPUT_EPUB book_dir)
      (tree (build_epub no_unicode_alnum book_dir stamp prettier_fine size_zero
               book_world).2) = Some archive ∧
    (fmt = MsgFormatted (S (length chapters)) ∨ fmt = MsgPrettierSkipped) ∧
    stdout (build_epub no_unicode_alnum book_dir stamp prettier_fine size_zero
              book_world).2 =
    stdout book_world ++ [MsgSource; MsgDiscovering; MsgFound (length chapters)] ++
    imap (fun i ch => MsgChapter i (ch_level ch) (ch_filename ch)) chapters ++
    [MsgWroteToc; MsgWroteOpf; MsgFormatting; fmt; MsgPackaging; MsgDone;
     MsgSize (size_zero archive); MsgChapters (length chapters)].
Proof.
  apply (build_epub_output no_unicode_alnum book_dir stamp prettier_fine size_zero
           book_world).
  vm_compute. reflexivity.
Defined.

(** A directory that holds the archive of an earlier run and no [mimetype]. *)
Lemma missing_mimetype_leaves_empty_archive_stale :
  ∃ t',
    package_epub book_dir (World stale_tree []) =
    (Raise FileNotFoundError, World t' ([] ++ [MsgPackaging])) ∧
    fs_lookup (OUTPUT_EPUB book_dir) t' = Some (File true true (Archive [])) ∧
    ∀ b rest,
      b ≠ epub_name →
      fs_lookup (book_dir ++ b :: rest) t' = fs_lookup (book_dir ++ b :: rest) stale_tree.
Proof.
  apply (missing_mimetype_leaves_empty_archive book_dir (World stale_tree []) true
           stale_files).
  - cbn [tree]. unfold stale_tree, stale_files. wf_tree_by_computation.
  - vm_compute. reflexivity.
  - vm_compute. reflexivity.
  - intros l' cs'. vm_compute. intros [=].
Defined.

(** ** The names of the entries of the archive *)

Lemma join_slash_inj (l1 l2 : list pystr) :
  Forall (fun x => 47 ∉ x) l1 → Forall (fun x => 47 ∉ x) l2 →
  l1 ≠ [] → l2 ≠ [] →
  join slash l1 = join slash l2 → l1 = l2.
Proof.
  revert l2. induction l1 as [|x l1 IH]; intros l2 H1 H2 Hn1 Hn2 Heq; [done|].
  destruct l2 as [|y l2]; [done|].
  apply Forall_cons in H1 as [Hx H1]. apply Forall_cons in H2 as [Hy H2].
  destruct l1 as [|x2 l1], l2 as [|y2 l2].
  - cbn [join] in Heq. by subst.
  - rewrite join_cons in Heq. cbn [join] in Heq. subst x. exfalso. apply Hx.
    apply elem_of_app. right. by left.
  - rewrite join_cons in Heq. cbn [join] in Heq. subst y. exfalso. apply Hy.
    apply elem_of_app. right. by left.
  - rewrite !join_cons in Heq. unfold slash in Heq. cbn [app] in Heq.
    pose proof (split_at_first 47 _ _ _ _ Heq Hx Hy) as ->.
    apply app_inv_head in Heq. injection Heq as Heq. f_equal. by apply IH.
Qed.

Lemma fmap_bind_list {A B C} (f : B → C) (g : A → list B) (l : list A) :
  f <$> (l ≫= g) = l ≫= (fun x => f <$> g x).
Proof.
  induction l as [|x l IH]; [done|]. by rewrite !bind_cons, fmap_app, IH.
Qed.

Lemma NoDup_fst_unique {A B} (l : list (A * B)) k a b :
  NoDup l.*1 → (k, a) ∈ l → (k, b) ∈ l → a = b.
Proof.
  induction l as [|[k0 c] l IH]; intros Hnd Ha Hb; [by apply elem_of_nil in Ha|].
  rewrite fmap_cons in Hnd. apply NoDup_cons in Hnd as [Hk Hnd]. cbn [fst] in Hk.
  apply elem_of_cons in Ha as [Ha|Ha]; apply elem_of_cons in Hb as [Hb|Hb].
  - congruence.
  - injection Ha as -> _. exfalso. apply Hk. apply list_elem_of_fmap. by exists (k0, b).
  - injection Hb as -> _. exfalso. apply Hk. apply list_elem_of_fmap. by exists (k0, a).
  - by apply IH.
Qed.

Lemma walk_dirpath_below keep t :
  ∀ top dp fs, (dp, fs) ∈ walk keep top t → ∃ dirs, dp = top ++ dirs.
Proof.
  induction t as [r x d|[|] cs IH] using node_ind2; intros top dp fs Hin;
    [by apply elem_of_nil in Hin | | by apply elem_of_nil in Hin].
  - rewrite walk_dir in Hin. apply elem_of_cons in Hin as [[= -> ->]|Hin].
    + exists []. by rewrite app_nil_r.
    + apply list_elem_of_bind in Hin as ([k c] & Hin & Hc). cbn [fst snd] in Hin.
      destruct (is_dir c && keep k); [|by apply elem_of_nil in Hin].
      pose proof (proj1 (Forall_forall _ _) IH _ Hc) as IHc.
      destruct (IHc _ _ _ Hin) as [dirs ->]. exists (k :: dirs). by rewrite <- app_assoc.
Qed.

(** [os.walk] yields no directory twice and names no file of a directory
    twice. *)
Lemma walk_dirpaths_nodup keep t : wf_tree t → ∀ top, NoDup (walk keep top t).*1.
Proof.
  induction t as [r x d|[|] cs IH] using node_ind2; intros Hwf top;
    [constructor | | constructor].
  apply wf_tree_dir in Hwf as [Hnd Hall]. rewrite walk_dir, fmap_cons. cbn [fst].
  apply NoDup_cons. split.
  - intros Hin. apply list_elem_of_fmap in Hin as ([dp fs] & Heq & Hin).
    cbn [fst] in Heq. subst dp.
    apply list_elem_of_bind in Hin as ([k c] & Hin & Hc). cbn [fst snd] in Hin.
    destruct (is_dir c && keep k); [|by apply elem_of_nil in Hin].
    apply walk_dirpath_below in Hin as [dirs Hd]. rewrite <- app_assoc in Hd.
    apply (f_equal length) in Hd. rewrite length_app in Hd. cbn in Hd. lia.
  - rewrite fmap_bind_list. apply NoDup_bind.
    + intros [k1 c1] [k2 c2] dp H1 H2 Hd1 Hd2. cbn [fst snd] in Hd1, Hd2.
      destruct (is_dir c1 && keep k1); [|by apply elem_of_nil in Hd1].
      destruct (is_dir c2 && keep k2); [|by apply elem_of_nil in Hd2].
      apply list_elem_of_fmap in Hd1 as ([dp1 fs1] & -> & Hd1).
      apply list_elem_of_fmap in Hd2 as ([dp2 fs2] & Heq & Hd2). cbn [fst] in Heq.
      apply walk_dirpath_below in Hd1 as [dirs1 ->].
      apply walk_dirpath_below in Hd2 as [dirs2 ->].
      rewrite <- !app_assoc in Heq. apply app_inv_head in Heq. injection Heq as -> _.
      by rewrite (NoDup_fst_unique cs k2 c1 c2).
    + intros [k c] Hc. cbn [fst snd]. destruct (is_dir c && keep k); [|constructor].
      apply (proj1 (Forall_forall _ _) IH _ Hc).
      apply (proj1 (Forall_forall _ _) Hall _ Hc).
    + by eapply NoDup_fmap_1.
Qed.

Lemma walk_files_nodup keep t :
  wf_tree t → ∀ top dp fs, (dp, fs) ∈ walk keep top t → NoDup fs.
Proof.
  induction t as [r x d|[|] cs IH] using node_ind2; intros Hwf top dp fs Hin;
    [by apply elem_of_nil in Hin | | by apply elem_of_nil in Hin].
  - apply wf_tree_dir in Hwf as [Hnd Hall]. rewrite walk_dir in Hin.
    apply elem_of_cons in Hin as [[= -> ->]|Hin].
    + apply NoDup_fmap_2_strong.
      * intros [k1 c1] [k2 c2] [_ H1]%list_elem_of_filter [_ H2]%list_elem_of_filter Heq.
        cbn [fst] in Heq. subst k2. by rewrite (NoDup_fst_unique cs k1 c1 c2).
      * apply NoDup_filter. by eapply NoDup_fmap_1.
    + apply list_elem_of_bind in Hin as ([k c] & Hin & Hc). cbn [fst snd] in Hin.
      destruct (is_dir c && keep k); [|by apply elem_of_nil in Hin].
      eapply (proj1 (Forall_forall _ _) IH _ Hc); [|done].
      apply (proj1 (Forall_forall _ _) Hall _ Hc).
Qed.

Lemma slash_free_lookup p t n :
  slash_free t = true → fs_lookup p t = Some n → Forall (fun x => 47 ∉ x) p.
Proof.
  revert t. induction p as [|x p IH]; intros t Hsf Hl; [constructor|].
  destruct t as [|l cs]; [done|]. cbn [fs_lookup slash_free] in *.
  destruct (lookup_child x cs) as [sub|] eqn:El; [|done].
  apply lookup_child_Some in El. apply Is_true_true, forallb_True in Hsf.
  pose proof (proj1 (Forall_forall _ _) Hsf _ El) as Hc. cbn [fst snd] in Hc.
  apply Is_true_true, andb_true_iff in Hc as [Hx Hsub]. constructor; [|by eapply IH].
  apply negb_true_iff, bool_decide_eq_false in Hx. done.
Qed.

Section ArchiveNames.

Context (SCRIPT_DIR : path).

Lemma add_files_names t dp fs entries entries' :
  (∀ f, f ∈ fs → ∃ r x d, fs_lookup (dp ++ [f]) t = Some (File r x d)) →
  add_files SCRIPT_DIR t dp fs entries = (Ok tt, entries') →
  ∃ new,
    entries' = entries ++ new ∧
    arcname <$> new =
    (fun f => relpath (dp ++ [f]) SCRIPT_DIR) <$>
    filter (fun f => kept SCRIPT_DIR dp f = true) fs.
Proof.
  revert entries. induction fs as [|f fs IH]; intros entries Hfiles; cbn [add_files].
  - intros [= <-]. exists []. by rewrite app_nil_r.
  - assert (Hrest : ∀ g, g ∈ fs →
                         ∃ r x d, fs_lookup (dp ++ [g]) t = Some (File r x d)).
    { intros g Hg. apply Hfiles. by right. }
    rewrite filter_cons.
    destruct (decide (relpath (dp ++ [f]) SCRIPT_DIR = mimetype)) as [Hm|Hm].
    { assert (Ek : kept SCRIPT_DIR dp f = false).
      { unfold kept. by rewrite (bool_decide_eq_true_2 _ Hm). }
      rewrite Ek, decide_False by done. by apply IH. }
    destruct (skipped_file f) eqn:Es.
    { assert (Ek : kept SCRIPT_DIR dp f = false).
      { unfold kept. rewrite Es. apply andb_false_r. }
      rewrite Ek, decide_False by done. by apply IH. }
    assert (Ek : kept SCRIPT_DIR dp f = true).
    { unfold kept. by rewrite (bool_decide_eq_false_2 _ Hm), Es. }
    rewrite Ek, decide_True by done. unfold zip_write.
    destruct (Hfiles f) as (r & x & d & ->); [by left|]. destruct r; [|done].
    destruct (encodable (relpath (dp ++ [f]) SCRIPT_DIR)); [|done].
    intros H. destruct (IH _ Hrest H) as (new & -> & Hnew).
    eexists (_ :: new). split; [by rewrite <- app_assoc|].
    rewrite !fmap_cons. cbn [arcname]. by rewrite Hnew.
Qed.

Lemma add_dirs_names t dirs entries entries' :
  (∀ dp fs f, (dp, fs) ∈ dirs → f ∈ fs →
              ∃ r x d, fs_lookup (dp ++ [f]) t = Some (File r x d)) →
  add_dirs SCRIPT_DIR t dirs entries = (Ok tt, entries') →
  ∃ new,
    entries' = entries ++ new ∧
    arcname <$> new =
    dirs ≫= (fun d => (fun f => relpath (d.1 ++ [f]) SCRIPT_DIR) <$>
                      filter (fun f => kept SCRIPT_DIR d.1 f = true) (sorted d.2)).
Proof.
  revert entries. induction dirs as [|[dp fs] dirs IH]; intros entries Hfiles;
    cbn [add_dirs].
  - intros [= <-]. exists []. by rewrite app_nil_r.
  - destruct (add_files SCRIPT_DIR t dp (sorted fs) entries) as [[[]|e1] entries1] eqn:Ef;
      [|done].
    intros H. apply add_files_names in Ef as (new1 & -> & Hnew1).
    2:{ intros f Hf. apply (Hfiles dp fs f); [by left|].
        unfold sorted in Hf. by rewrite (merge_sort_Permutation str_le) in Hf. }
    destruct (IH _ (fun dp' fs' f Hd => Hfiles dp' fs' f (list_elem_of_further _ _ _ Hd)) H)
      as (new2 & -> & Hnew2).
    exists (new1 ++ new2). split; [by rewrite <- app_assoc|].
    by rewrite fmap_app, bind_cons, Hnew1, Hnew2.
Qed.

(** X12: on a file system with one entry per name, no name of which
    contains a slash, and with a regular [mimetype] file, no two entries of
    the archive a successful packaging step leaves have the same name: no
    file is written twice, and [mimetype] is written once. *)
Theorem archive_names_distinct (w w' : world) :
  wf_tree (tree w) →
  slash_free (tree w) = true →
  (∃ r x data,
     fs_lookup (SCRIPT_DIR ++ [mimetype]) (tree w) = Some (File r x data)) →
  package_epub SCRIPT_DIR w = (Ok tt, w') →
  ∃ r x entries,
    fs_lookup (OUTPUT_EPUB SCRIPT_DIR) (tree w') = Some (File r x (Archive entries)) ∧
    NoDup (arcname <$> entries).
Proof.
  intros Hwf Hsf (rm & xm & dm & Hm) Hpkg.
  apply package_epub_ok in Hpkg as (t0 & t1 & entries & H0 & H1 & Hz & H2).
  assert (H0' : t0 = tree w ∨ fs_remove (OUTPUT_EPUB SCRIPT_DIR) (tree w) = Ok t0)
    by (destruct H0; auto).
  assert (Hwf1 : wf_tree t1).
  { eapply fs_write_wf; [|exact H1]. destruct H0 as [->|H0]; [done|].
    by eapply fs_remove_wf. }
  assert (Hm1 : fs_lookup (SCRIPT_DIR ++ [mimetype]) t1 = Some (File rm xm dm)).
  { rewrite (beside_archive SCRIPT_DIR (tree w) t0 t1 mimetype []); done. }
  destruct (fs_write_lookup _ _ _ _ H2) as [r2 Ha2].
  exists r2, true, entries. split; [done|].
  unfold zip_body, zip_write in Hz. rewrite Hm1 in Hz. destruct rm; [|done].
  destruct (encodable mimetype); [|done].
  unfold walk_script_dir in Hz.
  destruct (fs_lookup SCRIPT_DIR t1) as [top|] eqn:Etop;
    [|cbn in Hz; injection Hz as <-; apply NoDup_singleton].
  pose proof (wf_tree_lookup _ _ _ Hwf1 Etop) as Hwftop.
  assert (Hfiles : ∀ dp fs f,
             (dp, fs) ∈ walk keep_dir SCRIPT_DIR top → f ∈ fs →
             ∃ dirs r x d, dp = SCRIPT_DIR ++ dirs ∧
                           fs_lookup (SCRIPT_DIR ++ dirs ++ [f]) t1
                           = Some (File r x d)).
  { intros dp fs f Hd Hf.
    destruct (walk_files_sound keep_dir top Hwftop _ _ _ _ Hd Hf)
      as (dirs & r & x & d & -> & _ & Hl).
    exists dirs, r, x, d. split; [done|]. by rewrite fs_lookup_app, Etop. }
  apply add_dirs_names in Hz as (new & -> & Hnew).
  2:{ intros dp fs f Hd Hf.
      destruct (Hfiles dp fs f Hd Hf) as (dirs & r & x & d & -> & Hl).
      exists r, x, d. by rewrite <- app_assoc. }
  rewrite fmap_app, Hnew. cbn [fmap list_fmap app arcname]. apply NoDup_cons. split.
  - intros Hin. apply list_elem_of_bind in Hin as ([dp fs] & Hin & Hd). cbn [fst snd] in Hin.
    apply list_elem_of_fmap in Hin as (f & Hf & Hin).
    apply list_elem_of_filter in Hin as [Hk _]. unfold kept in Hk.
    apply andb_true_iff in Hk as [Hk _].
    apply negb_true_iff, bool_decide_eq_false in Hk. done.
  - set (pairs := walk keep_dir SCRIPT_DIR top ≫=
                  (fun d => pair d.1 <$>
                            filter (fun f => kept SCRIPT_DIR d.1 f = true) (sorted d.2))).
    assert (Hpairs : ∀ p, p ∈ pairs →
              ∃ dirs r x d, p.1 = SCRIPT_DIR ++ dirs ∧
                            fs_lookup (SCRIPT_DIR ++ dirs ++ [p.2]) (tree w)
                            = Some (File r x d)).
    { intros p Hp. apply list_elem_of_bind in Hp as ([dp fs] & Hp & Hd).
      cbn [fst snd] in Hp. apply list_elem_of_fmap in Hp as (f & -> & Hf).
      apply list_elem_of_filter in Hf as [Hk Hf].
      unfold sorted in Hf. rewrite (merge_sort_Permutation str_le) in Hf.
      destruct (Hfiles dp fs f Hd Hf) as (dirs & r & x & d & -> & Hl).
      exists dirs, r, x, d. split; [done|]. cbn [snd]. rewrite <- Hl. symmetry.
      apply (beside_archive_file SCRIPT_DIR (tree w) t0 t1 dirs f r x d);
        [done | done | |].
      - unfold kept in Hk. apply andb_true_iff in Hk as [_ Hk].
        by apply negb_true_iff in Hk.
      - by right. }
    replace (walk keep_dir SCRIPT_DIR top ≫= _)
      with ((fun p : path * pystr => relpath (p.1 ++ [p.2]) SCRIPT_DIR) <$> pairs).
    2:{ unfold pairs. rewrite fmap_bind_list. apply list_bind_ext; [|done].
        intros d. by rewrite <- list_fmap_compose. }
    apply NoDup_fmap_2_strong.
    + intros [dp1 f1] [dp2 f2] Hp1 Hp2 Heq. cbn [fst snd] in Heq.
      destruct (Hpairs _ Hp1) as (dirs1 & r1 & x1 & d1 & E1 & Hl1).
      destruct (Hpairs _ Hp2) as (dirs2 & r2' & x2 & d2 & E2 & Hl2).
      cbn [fst snd] in *. subst dp1 dp2.
      rewrite <- !app_assoc in Heq.
      rewrite (relpath_below SCRIPT_DIR (dirs1 ++ [f1])) in Heq by (by destruct dirs1).
      rewrite (relpath_below SCRIPT_DIR (dirs2 ++ [f2])) in Heq by (by destruct dirs2).
      apply (slash_free_lookup _ _ _ Hsf) in Hl1, Hl2.
      apply Forall_app in Hl1 as [_ Hl1]. apply Forall_app in Hl2 as [_ Hl2].
      apply join_slash_inj in Heq; [|done|done|by destruct dirs1|by destruct dirs2].
      apply app_inj_tail in Heq as [-> ->]. done.
    + unfold pairs. apply NoDup_bind.
      * intros [dp1 fs1] [dp2 fs2] [dp f] Hd1 Hd2 Hy1 Hy2. cbn [fst snd] in Hy1, Hy2.
        apply list_elem_of_fmap in Hy1 as (g1 & [= -> ->] & _).
        apply list_elem_of_fmap in Hy2 as (g2 & [= <- _] & _).
        f_equal. eapply NoDup_fst_unique; [|exact Hd1|exact Hd2].
        by apply walk_dirpaths_nodup.
      * intros [dp fs] Hd. cbn [fst snd]. apply NoDup_fmap_2_strong.
        { by intros f1 f2 _ _ [= ->]. }
        apply NoDup_filter. unfold sorted. rewrite (merge_sort_Permutation str_le).
        by eapply walk_files_nodup.
      * eapply NoDup_fmap_1. by apply walk_dirpaths_nodup.
Qed.

End ArchiveNames.

(** The names of the entries of the archive of the small book. *)
Lemma archive_names_distinct_book :
  ∃ r x entries,
    fs_lookup (OUTPUT_EPUB book_dir) (tree (package_epub book_dir book_world).2)
    = Some (File r x (Archive entries)) ∧
    NoDup (arcname <$> entries).
Proof.
  apply (archive_names_distinct book_dir book_world (package_epub book_dir book_world).2).
  - apply book_tree_wf.
  - vm_compute. reflexivity.
  - eexists _, _, _. vm_compute. reflexivity.
  - vm_compute. reflexivity.
Defined.
